(** * Highlight server: a shallow embedding of [server/server.py] and
      [server/tokenizer.py], with the properties of its specification.

    Conventions of the embedding.
    - A Python [str] that is only compared, tested for emptiness or
      lower-cased on its ASCII letters (document ids, client ids, colours,
      source names, button ids) is a [string].
    - A Python [str] that is processed character by character (source text,
      tokens, form answers) is a list of Unicode code points, [ustr].
    - A Python [dict] whose iteration order is observable is an association
      list kept in insertion order ([PyDict]); a dict used only through
      lookups is a [gmap].
    - [while] loops are fuel-indexed fixpoints returning [option]; that the
      fuel handed to them is enough is proved, not assumed.
    - Methods that mutate the managers are functions in a state and
      exception monad over the manager's fields.
    - Time stamps and cooldowns, floating-point numbers of seconds in
      Python, are integers: the code adds, subtracts and compares them and
      takes the larger of two. *)

From Stdlib Require Import ZArith NArith Ascii String List Bool Lia Permutation
  Sorted.
From stdpp Require Import base option list gmap strings.

Open Scope string_scope.
Open Scope list_scope.
Open Scope stdpp_scope.
Open Scope nat_scope.

(* ------------------------------------------------------------------ *)
(** ** Python dictionaries in insertion order *)
(* ------------------------------------------------------------------ *)

Module PyDict.
Section dict.
Context {V : Type}.

Definition dict : Type := list (string * V).

(** [d.get(k)] *)
Fixpoint get (k : string) (d : dict) : option V :=
  match d with
  | [] => None
  | (k', v) :: rest => if String.eqb k k' then Some v else get k rest
  end.

(** [d[k] = v]: an existing key keeps its place, a new key goes last. *)
Fixpoint set (k : string) (v : V) (d : dict) : dict :=
  match d with
  | [] => [(k, v)]
  | (k', v') :: rest =>
      if String.eqb k k' then (k', v) :: rest else (k', v') :: set k v rest
  end.

(** The dictionary left by [d.pop(k, None)]. *)
Fixpoint remove (k : string) (d : dict) : dict :=
  match d with
  | [] => []
  | (k', v') :: rest =>
      if String.eqb k k' then rest else (k', v') :: remove k rest
  end.

(** [d.values()] and [d.keys()], in iteration order. *)
Definition values (d : dict) : list V := map snd d.
Definition keys (d : dict) : list string := map fst d.
End dict.
Arguments dict : clear implicits.
End PyDict.

(** A vote bucket: client id to colour. *)
Abbreviation bucket := (PyDict.dict string).

(** Python truthiness of a [str]. *)
Definition truthy (s : string) : bool := negb (String.eqb s "").

(* ------------------------------------------------------------------ *)
(** ** Text as code points *)
(* ------------------------------------------------------------------ *)

Abbreviation ustr := (list N).

(** The code points of an ASCII literal. *)
Definition u (s : string) : ustr := map N_of_ascii (list_ascii_of_string s).

Module Text.
Open Scope N_scope.

(** [str.isspace] of one character, which is also the class [\s] of [re]
    on [str] patterns. *)
Definition is_space (c : N) : bool :=
  ((9 <=? c) && (c <=? 13)) || ((28 <=? c) && (c <=? 32))
  || (c =? 0x85) || (c =? 0xa0) || (c =? 0x1680)
  || ((0x2000 <=? c) && (c <=? 0x200a))
  || (c =? 0x2028) || (c =? 0x2029) || (c =? 0x202f) || (c =? 0x205f)
  || (c =? 0x3000).

Fixpoint eqb (a b : ustr) : bool :=
  match a, b with
  | [], [] => true
  | x :: a', y :: b' => (x =? y) && eqb a' b'
  | _, _ => false
  end.

Definition mem (c : N) (s : ustr) : bool := existsb (N.eqb c) s.

(** [s.isspace()]: at least one character, all of them whitespace. *)
Definition isspace (s : ustr) : bool :=
  match s with [] => false | _ => forallb is_space s end.

(** [s.count(c)] for a single character [c]. *)
Definition count (c : N) (s : ustr) : nat :=
  length (filter (fun x => Is_true (x =? c)) s).

(** Length of the longest prefix whose characters all satisfy [p]. *)
Fixpoint span_len (p : N -> bool) (s : ustr) : nat :=
  match s with
  | c :: rest => if p c then S (span_len p rest) else 0%nat
  | [] => 0%nat
  end.

(** [s.strip()] *)
Fixpoint lstrip (s : ustr) : ustr :=
  match s with
  | c :: rest => if is_space c then lstrip rest else s
  | [] => []
  end.
Definition rstrip (s : ustr) : ustr := rev (lstrip (rev s)).
Definition strip (s : ustr) : ustr := rstrip (lstrip s).

(** [' '.join(parts)] *)
Fixpoint join_sp (parts : list ustr) : ustr :=
  match parts with
  | [] => []
  | [p] => p
  | p :: rest => p ++ 32 :: join_sp rest
  end.

(** [re.sub] for a pattern that never matches the empty string: [m s]
    is the match at the start of [s], as its length and its replacement.
    The scan goes left to right; [skip] counts the characters of the
    last match still to be passed over. *)
Fixpoint re_sub_from (m : ustr -> option (nat * ustr)) (skip : nat)
    (s : ustr) : ustr :=
  match s with
  | [] => []
  | c :: rest =>
      match skip with
      | S k => re_sub_from m k rest
      | O =>
          match m s with
          | Some (S len, repl) => repl ++ re_sub_from m len rest
          | _ => c :: re_sub_from m 0 rest
          end
      end
  end.
Definition re_sub (m : ustr -> option (nat * ustr)) (s : ustr) : ustr :=
  re_sub_from m 0 s.
End Text.

(* ------------------------------------------------------------------ *)
(** ** [html.unescape] of the standard library *)
(* ------------------------------------------------------------------ *)

(** The three tables of [html/__init__.py] and [html/entities.py] are data
    of the standard library; the algorithm below is the library's, the
    tables are a parameter. *)
Record CharrefTables : Type := mkCharrefTables
  { html5 : list (ustr * ustr);
    invalid_charrefs : list (N * ustr);
    invalid_codepoints : list N }.

Module Html.
Import Text.
Open Scope N_scope.

Definition is_digit (c : N) : bool := (48 <=? c) && (c <=? 57).
Definition is_hex (c : N) : bool :=
  is_digit c || ((97 <=? c) && (c <=? 102)) || ((65 <=? c) && (c <=? 70)).
(** [[^\t\n\f <&#;]] *)
Definition is_name_char (c : N) : bool :=
  negb ((c =? 9) || (c =? 10) || (c =? 12) || (c =? 32) || (c =? 60)
        || (c =? 38) || (c =? 35) || (c =? 59)).

Definition hex_val (c : N) : N :=
  if is_digit c then c - 48
  else if (97 <=? c) && (c <=? 102) then c - 87 else c - 55.

(** [int(digits, base)] *)
Definition int_of (base : N) (digits : ustr) : N :=
  fold_left (fun acc c => acc * base + hex_val c) digits 0.

Fixpoint assoc {A} (k : ustr) (t : list (ustr * A)) : option A :=
  match t with
  | [] => None
  | (k', v) :: rest => if Text.eqb k k' then Some v else assoc k rest
  end.

Fixpoint assoc_num {A} (k : N) (t : list (N * A)) : option A :=
  match t with
  | [] => None
  | (k', v) :: rest => if k =? k' then Some v else assoc_num k rest
  end.

(** The numeric branch of [_replace_charref]. *)
Definition replace_numeric (T : CharrefTables) (num : N) : ustr :=
  match assoc_num num (invalid_charrefs T) with
  | Some r => r
  | None =>
      if ((0xD800 <=? num) && (num <=? 0xDFFF)) || (0x10FFFF <? num)
      then [0xFFFD]
      else if existsb (N.eqb num) (invalid_codepoints T) then []
      else [num]
  end.

(** [for x in range(len(s)-1, 1, -1): if s[:x] in _html5: ...] *)
Fixpoint longest_name (T : CharrefTables) (s : ustr) (x : nat)
  : option ustr :=
  match x with
  | O => None
  | S x' =>
      if (x <? 2)%nat then None
      else match assoc (take x s) (html5 T) with
           | Some v => Some (v ++ drop x s)
           | None => longest_name T s x'
           end
  end.

(** The named branch of [_replace_charref]. *)
Definition replace_named (T : CharrefTables) (s : ustr) : ustr :=
  match assoc s (html5 T) with
  | Some v => v
  | None =>
      match longest_name T s (length s - 1) with
      | Some r => r
      | None => 38 :: s
      end
  end.

(** One optional [;] after [k] characters of [s]. *)
Definition semi_at (k : nat) (s : ustr) : nat :=
  match drop k s with
  | c :: _ => if c =? 59 then 1%nat else 0%nat
  | [] => 0%nat
  end.

(** [_charref], the pattern
    [&(#[0-9]+;?|#[xX][0-9a-fA-F]+;?|[^\t\n\f <&#;]{1,32};?)],
    matched at the start of [s], together with [_replace_charref]
    of its group. *)
Definition match_charref (T : CharrefTables) (s : ustr)
  : option (nat * ustr) :=
  match s with
  | amp :: rest =>
      if negb (amp =? 38) then None else
      match rest with
      | hash :: r1 =>
          if hash =? 35 then
            let k := span_len is_digit r1 in
            if (0 <? k)%nat then
              Some ((2 + k + semi_at k r1)%nat,
                    replace_numeric T (int_of 10 (take k r1)))
            else
              match r1 with
              | x :: r2 =>
                  if (x =? 120) || (x =? 88) then
                    let k := span_len is_hex r2 in
                    if (0 <? k)%nat then
                      Some ((3 + k + semi_at k r2)%nat,
                            replace_numeric T (int_of 16 (take k r2)))
                    else None
                  else None
              | [] => None
              end
          else
            let k := Nat.min 32 (span_len is_name_char rest) in
            if (0 <? k)%nat then
              let n := (k + semi_at k rest)%nat in
              Some (S n, replace_named T (take n rest))
            else None
      | [] => None
      end
  | [] => None
  end.

(** [html.unescape] *)
Definition unescape (T : CharrefTables) (s : ustr) : ustr :=
  if negb (mem 38 s) then s else re_sub (match_charref T) s.
End Html.

(* ------------------------------------------------------------------ *)
(** ** The tokenizer ([server/tokenizer.py]) *)
(* ------------------------------------------------------------------ *)

Module Tokenizer.
Import Text.
Open Scope N_scope.

(** The second alternative of [RE_SPLIT], which is also [PUNCT_BREAK]:
    full stop, comma, colon, semicolon, exclamation and question marks,
    parentheses, double quote, hyphen, apostrophe, square brackets and
    braces, then the guillemets, the curly double quotes, the em and en
    dashes and the ellipsis. *)
Definition PUNCT_BREAK : ustr :=
  [46; 44; 58; 59; 33; 63; 40; 41; 34; 45; 39; 91; 93; 123; 125;
   0xab; 0xbb; 0x201c; 0x201d; 0x2014; 0x2013; 0x2026].
Definition is_punct (c : N) : bool := mem c PUNCT_BREAK.

(** [RE_SPLIT.split(s)]: the pieces between the separators and, the
    group being a capturing one, the separators themselves. [cur] holds
    the piece being read, reversed; [sp] tells that it is a run of
    whitespace. Empty pieces are reported as [re.split] reports them. *)
Fixpoint split_from (cur : ustr) (sp : bool) (s : ustr) : list ustr :=
  match s with
  | [] => if sp then [rev cur; []] else [rev cur]
  | c :: rest =>
      if is_space c then
        if sp then split_from (c :: cur) true rest
        else rev cur :: split_from [c] true rest
      else if is_punct c then
        if sp then rev cur :: [] :: [c] :: split_from [] false rest
        else rev cur :: [c] :: split_from [] false rest
      else
        if sp then rev cur :: split_from [c] false rest
        else split_from (c :: cur) false rest
  end.
Definition RE_SPLIT_split (s : ustr) : list ustr := split_from [] false s.

(** Case-insensitive match of a lower-case ASCII pattern character, with
    the four non-ASCII letters that [re.IGNORECASE] adds on [str]. *)
Definition ci (p c : N) : bool :=
  (c =? p) || ((97 <=? p) && (p <=? 122) && (c =? p - 32))
  || ((p =? 105) && ((c =? 0x130) || (c =? 0x131)))
  || ((p =? 115) && (c =? 0x17f))
  || ((p =? 107) && (c =? 0x212a)).

(** The rest of [s] after the pattern characters [p]. *)
Fixpoint after_ci (p s : ustr) : option ustr :=
  match p, s with
  | [], _ => Some s
  | x :: p', c :: s' => if ci x c then after_ci p' s' else None
  | _ :: _, [] => None
  end.

(** [HTML_BR]: [(?i)<br\s*/?>] *)
Definition match_br (s : ustr) : option (nat * ustr) :=
  match after_ci (u "<br") s with
  | None => None
  | Some rest =>
      let w := span_len is_space rest in
      match drop w rest with
      | a :: b :: _ =>
          if a =? 62 then Some ((3 + w + 1)%nat, [10])
          else if (a =? 47) && (b =? 62) then Some ((3 + w + 2)%nat, [10])
          else None
      | [a] => if a =? 62 then Some ((3 + w + 1)%nat, [10]) else None
      | [] => None
      end
  end.

Definition CLOSE_NAMES : list ustr :=
  map u ["p"; "h1"; "h2"; "h3"; "h4"; "h5"; "h6"; "li"; "div"; "section";
         "article"; "blockquote"]%string.

(** [HTML_CLOSE_TO_NL]: [(?i)</(p|h1|...|blockquote)>\s*] *)
Fixpoint match_close_names (names : list ustr) (rest : ustr)
  : option (nat * ustr) :=
  match names with
  | [] => None
  | n :: names' =>
      match after_ci (n ++ [62]) rest with
      | Some r => Some ((2 + length n + 1 + span_len is_space r)%nat, [10])
      | None => match_close_names names' rest
      end
  end.
Definition match_close (s : ustr) : option (nat * ustr) :=
  match after_ci (u "</") s with
  | None => None
  | Some rest => match_close_names CLOSE_NAMES rest
  end.

(** [HTML_TAGS]: [(?is)<[^>]+>] *)
Definition match_tag (s : ustr) : option (nat * ustr) :=
  match s with
  | c :: rest =>
      if c =? 60 then
        let k := span_len (fun x => negb (x =? 62)) rest in
        match drop k rest with
        | _ :: _ => if (0 <? k)%nat then Some ((k + 2)%nat, []) else None
        | [] => None
        end
      else None
  | [] => None
  end.

(** [MULTI_NL]: [\n{3,}] *)
Definition match_multi_nl (s : ustr) : option (nat * ustr) :=
  let k := span_len (N.eqb 10) s in
  if (3 <=? k)%nat then Some (k, [10; 10]) else None.

Definition html_to_plain (T : CharrefTables) (text : ustr) : ustr :=
  if negb (mem 60 text) || negb (mem 62 text) then Html.unescape T text
  else
    let text := re_sub match_br text in
    let text := re_sub match_close text in
    let text := re_sub match_tag text in
    let text := Html.unescape T text in
    re_sub match_multi_nl text.

(** The loop body of [tokenize]: a whitespace segment gives one
    newline token for each of its newlines, any other segment is a token. *)
Definition emit (seg : ustr) : list ustr :=
  if isspace seg then replicate (count 10 seg) [10] else [seg].

Definition tokenize (T : CharrefTables) (text : ustr) : list ustr :=
  let plain := html_to_plain T text in
  let raw := List.filter (fun seg => negb (Text.eqb seg [])) (RE_SPLIT_split plain) in
  flat_map emit raw.

Definition is_break_token (token : ustr) : bool :=
  if Text.eqb token [10] || Text.eqb token [13] || Text.eqb token [13; 10]
  then true
  else match token with
       | [] => false
       | _ => forallb is_punct token
       end.
End Tokenizer.

(* ------------------------------------------------------------------ *)
(** ** Aggregation of the votes ([top_color_at], [ranges_from_votes],
       [client_ranges]) *)
(* ------------------------------------------------------------------ *)

Module Aggregation.

(** The loop body of [top_color_at]:
    [if not color: continue; counts[color] = counts.get(color, 0) + 1]. *)
Definition count_step (counts : PyDict.dict nat) (color : string)
  : PyDict.dict nat :=
  if truthy color
  then PyDict.set color (default 0 (PyDict.get color counts) + 1) counts
  else counts.

Definition count_colors (b : bucket) : PyDict.dict nat :=
  fold_left count_step (PyDict.values b) [].

(** [max(items, key=lambda item: item[1])] started at [best]: Python keeps
    the first of the maximal items, a later item wins only when its key is
    strictly larger. *)
Fixpoint max_by_count (best : string * nat) (items : list (string * nat))
  : string * nat :=
  match items with
  | [] => best
  | it :: rest =>
      max_by_count (if snd best <? snd it then it else best) rest
  end.

Definition top_color_at (b : bucket) : string :=
  match count_colors b with
  | [] => ""
  | it :: rest => fst (max_by_count it rest)
  end.

Record Range : Type := mkRange
  { r_start : nat; r_end : nat; r_color : string }.

(** The inner loop
    [while j + 1 < total and top_color_at(votes[j + 1]) == color: j += 1].
    [None] stands for an exhausted fuel or an index out of range. *)
Fixpoint extend_run (fuel : nat) (votes : list bucket) (color : string)
    (j : nat) : option nat :=
  match fuel with
  | 0 => None
  | S fuel' =>
      if j + 1 <? length votes then
        match votes !! (j + 1) with
        | None => None
        | Some b =>
            if String.eqb (top_color_at b) color
            then extend_run fuel' votes color (j + 1)
            else Some j
        end
      else Some j
  end.

(** The outer loop [while i < total: ...]. *)
Fixpoint ranges_loop (fuel : nat) (votes : list bucket) (i : nat)
    (ranges : list Range) : option (list Range) :=
  match fuel with
  | 0 => None
  | S fuel' =>
      if i <? length votes then
        match votes !! i with
        | None => None
        | Some b =>
            let color := top_color_at b in
            if truthy color then
              match extend_run (length votes) votes color i with
              | None => None
              | Some j =>
                  ranges_loop fuel' votes (j + 1)
                    (ranges ++ [mkRange i j color])
              end
            else ranges_loop fuel' votes (i + 1) ranges
        end
      else Some ranges
  end.

Definition ranges_from_votes (votes : list bucket) : option (list Range) :=
  ranges_loop (S (length votes)) votes 0 [].

(** [votes[idx].get(client_id, "")] *)
Definition vote_of (client_id : string) (b : bucket) : string :=
  default "" (PyDict.get client_id b).

(** The inner loop of [client_ranges]:
    [while j < limit and not is_break_token(tokens[j])
           and votes[j].get(client_id, "") == color: j += 1]. *)
Fixpoint client_run (fuel : nat) (tokens : list ustr) (votes : list bucket)
    (client_id color : string) (limit j : nat) : option nat :=
  match fuel with
  | 0 => None
  | S fuel' =>
      if j <? limit then
        match tokens !! j, votes !! j with
        | Some tok, Some b =>
            if negb (Tokenizer.is_break_token tok)
               && String.eqb (vote_of client_id b) color
            then client_run fuel' tokens votes client_id color limit (j + 1)
            else Some j
        | _, _ => None
        end
      else Some j
  end.

(** The outer loop [while idx < limit: ...]. *)
Fixpoint client_loop (fuel : nat) (tokens : list ustr) (votes : list bucket)
    (client_id : string) (limit idx : nat) (res : list Range)
  : option (list Range) :=
  match fuel with
  | 0 => None
  | S fuel' =>
      if idx <? limit then
        match tokens !! idx, votes !! idx with
        | Some tok, Some b =>
            let color := vote_of client_id b in
            if negb (truthy color) || Tokenizer.is_break_token tok
            then client_loop fuel' tokens votes client_id limit (idx + 1) res
            else
              match client_run (S limit) tokens votes client_id color limit
                      (idx + 1) with
              | None => None
              | Some j =>
                  client_loop fuel' tokens votes client_id limit j
                    (res ++ [mkRange idx (j - 1) color])
              end
        | _, _ => None
        end
      else Some res
  end.

Definition client_ranges (tokens : list ustr) (votes : list bucket)
    (client_id : string) : option (list Range) :=
  let limit := Nat.min (length tokens) (length votes) in
  client_loop (S limit) tokens votes client_id limit 0 [].
End Aggregation.

(* ------------------------------------------------------------------ *)
(** ** Small helpers on names and time stamps *)
(* ------------------------------------------------------------------ *)

Module Names.
Definition lower_char (a : ascii) : ascii :=
  let n := nat_of_ascii a in
  if (65 <=? n) && (n <=? 90) then ascii_of_nat (n + 32) else a.

(** [s.lower()] on the ASCII letters. No other character lower-cases to
    one of the ASCII letters that the server compares the result with, so
    every test made on the result is the test Python makes. *)
Fixpoint lower (s : string) : string :=
  match s with
  | EmptyString => EmptyString
  | String a rest => String (lower_char a) (lower rest)
  end.

(** [s.endswith(suffix)] *)
Definition endswith (s suffix : string) : bool :=
  let n := String.length s in
  let k := String.length suffix in
  (k <=? n) && String.eqb (substring (n - k) k s) suffix.

(** [Path(name).name] of a POSIX [pathlib]: the last component of the
    path, empty components and single dots apart. *)
Fixpoint last_component (cur last : string) (s : string) : string :=
  let close cur last :=
    if String.eqb cur "" || String.eqb cur "." then last else cur in
  match s with
  | EmptyString => close cur last
  | String a rest =>
      if Ascii.eqb a "/"%char then last_component "" (close cur last) rest
      else last_component (cur ++ String a "")%string last rest
  end.
Definition posix_name (name : string) : string := last_component "" "" name.

(** Truthiness of an [Optional[str]]. *)
Definition truthy_opt (o : option string) : bool :=
  match o with Some s => truthy s | None => false end.

(** [a or b] on time stamps: [None] and zero are falsy. *)
Definition or_time (a : option Z) (b : Z) : Z :=
  match a with
  | Some t => if (t =? 0)%Z then b else t
  | None => b
  end.
End Names.

(** What lies outside the process: the files of [WWWDOCS_DIR] by file name
    (after decoding), the Markdown renderer, [Path(name).name] of the
    platform's [pathlib], and the tables of [html.unescape]. *)
Record Env : Type := mkEnv
  { sources : string -> option ustr;
    markdown_to_html : ustr -> ustr;
    path_name : string -> string;
    charrefs : CharrefTables }.

Inductive HTTPException : Type :=
  | HTTP (status_code : nat) (detail : string).

Inductive Result (E A : Type) : Type :=
  | Ok (a : A)
  | Raise (e : E).
Arguments Ok {E A} a.
Arguments Raise {E A} e.

(** State and exception monad: a raised exception keeps the state reached
    so far, as an exception leaves the mutations made before it. *)
Module SE.
Section monad.
Context {S E : Type}.
Definition M (A : Type) : Type := S -> Result E A * S.
Definition ret {A} (a : A) : M A := fun s => (Ok a, s).
Definition raise {A} (e : E) : M A := fun s => (Raise e, s).
Definition bind {A B} (m : M A) (k : A -> M B) : M B :=
  fun s => match m s with
           | (Ok a, s') => k a s'
           | (Raise e, s') => (Raise e, s')
           end.
Definition gets {A} (f : S -> A) : M A := fun s => (Ok (f s), s).
Definition modify (f : S -> S) : M unit := fun s => (Ok tt, f s).
Definition lift {A} (r : Result E A) : M A := fun s => (r, s).
End monad.
Arguments M : clear implicits.
End SE.

Declare Scope se_scope.
Delimit Scope se_scope with se.
Notation "'do' x <- m ; k" := (SE.bind m (fun x => k))
  (at level 10, x name, m at level 100, k at level 200) : se_scope.
Notation "'do' ' pat <- m ; k" :=
  (SE.bind m (fun x => match x with pat => k end))
  (at level 10, pat pattern, m at level 100, k at level 200) : se_scope.
Notation "m ;; k" := (SE.bind m (fun _ => k))
  (at level 100, k at level 200, right associativity) : se_scope.

(* ------------------------------------------------------------------ *)
(** ** The identifiers of the requests ([sanitize_doc_id],
       [sanitize_form_id], [sanitize_panel_id]) *)
(* ------------------------------------------------------------------ *)

Module Ids.
Open Scope N_scope.

(** The class [[A-Za-z0-9_.-]] of the three patterns. *)
Definition id_char (c : N) : bool :=
  ((65 <=? c) && (c <=? 90)) || ((97 <=? c) && (c <=? 122))
  || ((48 <=? c) && (c <=? 57)) || (c =? 95) || (c =? 46) || (c =? 45).

(** [re.compile(r"^[A-Za-z0-9_.-]{1,max}$").fullmatch(s)] as a truth
    value. *)
Definition fullmatch (max : nat) (s : ustr) : bool :=
  (1 <=? length s)%nat && (length s <=? max)%nat && forallb id_char s.

Definition DOC_ID_RE : ustr -> bool := fullmatch 128.
Definition FORM_ID_RE : ustr -> bool := fullmatch 64.
Definition PANEL_ID_RE : ustr -> bool := fullmatch 64.

Definition DEFAULT_DOC_ID : ustr := u "doc1".
Definition DEFAULT_FORM_ID : ustr := u "feedback".
Definition DEFAULT_BUTTON_PANEL : ustr := u "main".

(** [raw or default] on an [Optional[str]] *)
Definition or_default (raw : option ustr) (default : ustr) : ustr :=
  match raw with
  | Some (c :: s) => c :: s
  | _ => default
  end.

Definition sanitize_doc_id (raw : option ustr) : Result HTTPException ustr :=
  let doc_id := or_default raw DEFAULT_DOC_ID in
  if negb (DOC_ID_RE doc_id)
  then Raise (HTTP 400 "Invalid doc id")
  else Ok doc_id.

(** [re.sub(r"[^A-Za-z0-9_.-]", "", s)[:64]] *)
Definition cleaned (s : ustr) : ustr := take 64 (List.filter id_char s).

Definition sanitize_form_id (raw : option ustr) : ustr :=
  let form_id := Text.strip (or_default raw DEFAULT_FORM_ID) in
  if negb (FORM_ID_RE form_id)
  then match cleaned form_id with
       | [] => DEFAULT_FORM_ID
       | c :: s => c :: s
       end
  else form_id.

Definition sanitize_panel_id (raw : option ustr) : ustr :=
  let panel_id := Text.strip (or_default raw DEFAULT_BUTTON_PANEL) in
  if negb (PANEL_ID_RE panel_id)
  then match cleaned panel_id with
       | [] => DEFAULT_BUTTON_PANEL
       | c :: s => c :: s
       end
  else panel_id.
End Ids.

(* ------------------------------------------------------------------ *)
(** ** The document store ([DocumentStore]) *)
(* ------------------------------------------------------------------ *)

Module DocumentStore.
Import Names.
Open Scope se_scope.

Definition DEFAULT_SOURCE_NAME : string := "text.txt".

Record DocState : Type := mkDocState
  { tokens : list ustr;
    votes : list bucket;
    updated : option Z;
    source_name : string }.

(** [DocState()] *)
Definition DocState_default : DocState :=
  mkDocState [] [] None DEFAULT_SOURCE_NAME.

(** A snapshot file as [json.load] returns it: every key may be missing
    or null. *)
Record Snapshot : Type := mkSnapshot
  { snap_tokens : option (list ustr);
    snap_votes : option (list bucket);
    snap_updated : option Z;
    snap_sourceName : option string }.

(** A file of [DATA_DIR]: one that [json.load] rejects, or a snapshot. *)
Inductive DiskFile : Type :=
  | Unreadable
  | Json (raw : Snapshot).

(** The fields of [DocumentStore] and the snapshot files. [_locks] is the
    registry of mutexes: [_doc_lock] adds the document's mutex on its
    first use. A method runs to its end once it holds the mutex, so the
    mutex itself needs no state. *)
Record Store : Type := mkStore
  { _states : gmap string DocState;
    _locks : gset string;
    _lock_flags : gmap string bool;
    disk : gmap string DiskFile }.

Definition Store_init (files : gmap string DiskFile) : Store :=
  mkStore ∅ ∅ ∅ files.

Definition set_states (f : gmap string DocState -> gmap string DocState)
    (s : Store) : Store :=
  mkStore (f (_states s)) (_locks s) (_lock_flags s) (disk s).
Definition set_disk (f : gmap string DiskFile -> gmap string DiskFile)
    (s : Store) : Store :=
  mkStore (_states s) (_locks s) (_lock_flags s) (f (disk s)).

Abbreviation M := (SE.M Store HTTPException).

Definition _strip_bom (text : ustr) : ustr :=
  List.filter (fun c => negb (c =? 0xfeff)%N) text.

Definition is_markdown_name (name : string) : bool :=
  truthy name && endswith (lower name) ".md".

(** [_ensure_votes_length]: pad with empty maps, or truncate. *)
Definition _ensure_votes_length (st : DocState) : DocState :=
  let target := length (tokens st) in
  let v := votes st in
  mkDocState (tokens st)
    (if length v <? target then v ++ replicate (target - length v) []
     else if target <? length v then take target v
     else v)
    (updated st) (source_name st).

Section with_env.
Variable env : Env.

Definition _sanitize_source_name (name : option string) : string :=
  match name with
  | Some n => if truthy n then path_name env n else DEFAULT_SOURCE_NAME
  | None => DEFAULT_SOURCE_NAME
  end.

Definition _resolve_source_name (st : DocState) (override : option string)
  : string :=
  if truthy_opt override then _sanitize_source_name override
  else if truthy (source_name st)
       then _sanitize_source_name (Some (source_name st))
       else DEFAULT_SOURCE_NAME.

Definition read_source_text (source_name : option string)
  : Result HTTPException ustr :=
  let name :=
    let n := _sanitize_source_name source_name in
    if truthy n then n else DEFAULT_SOURCE_NAME in
  match sources env name with
  | None => Raise (HTTP 404 ("Source '" ++ name ++ "' not found")%string)
  | Some text => Ok (_strip_bom text)
  end.

Definition _tokenize_from_source (source_name : string)
  : Result HTTPException (list ustr * string) :=
  match read_source_text (Some source_name) with
  | Raise e => Raise e
  | Ok t =>
      let text := _strip_bom t in
      let is_md := is_markdown_name source_name in
      let html_like := is_md || endswith (lower source_name) ".html" in
      let tokens :=
        if is_md
        then Tokenizer.tokenize (charrefs env)
               (_strip_bom (markdown_to_html env text))
        else Tokenizer.tokenize (charrefs env) text in
      let tokens :=
        if html_like
        then List.filter
               (fun tok => negb (Text.eqb tok []) && negb (Text.eqb tok [10%N]))
               tokens
        else tokens in
      Ok (tokens, source_name)
  end.

Definition _load_state_from_disk (doc_id : string) (files : gmap string DiskFile)
  : DocState :=
  match files !! doc_id with
  | None => DocState_default
  | Some Unreadable => DocState_default
  | Some (Json raw) =>
      _ensure_votes_length
        (mkDocState
           (default [] (snap_tokens raw))
           (default [] (snap_votes raw))
           (snap_updated raw)
           (if truthy_opt (snap_sourceName raw)
            then _sanitize_source_name (snap_sourceName raw)
            else DEFAULT_SOURCE_NAME))
  end.

Definition get_state (doc_id : string) : M DocState :=
  fun s =>
    match _states s !! doc_id with
    | Some st => (Ok st, s)
    | None =>
        let st := _load_state_from_disk doc_id (disk s) in
        (Ok st, set_states (insert doc_id st) s)
    end.

(** A mutation of the state object held in [_states]. *)
Definition put_state (doc_id : string) (st : DocState) : M unit :=
  SE.modify (set_states (insert doc_id st)).

(** [async with self._doc_lock(doc_id)] *)
Definition with_lock {A} (doc_id : string) (body : M A) : M A :=
  fun s =>
    body (mkStore (_states s) ({[doc_id]} ∪ _locks s) (_lock_flags s) (disk s)).

Definition save_state (doc_id : string) (st : DocState) : M DocState :=
  let st := _ensure_votes_length st in
  let payload :=
    mkSnapshot (Some (tokens st)) (Some (votes st)) (updated st)
      (Some (source_name st)) in
  SE.modify (set_disk (insert doc_id (Json payload))) ;;
  put_state doc_id st ;;
  SE.ret st.

Definition _ensure_tokens_locked (now : Z) (doc_id : string)
    (source_name : option string) : M DocState :=
  do st <- get_state doc_id;
  match tokens st with
  | _ :: _ => SE.ret st
  | [] =>
      let resolved_name := _resolve_source_name st source_name in
      do '(toks, resolved) <- SE.lift (_tokenize_from_source resolved_name);
      let st :=
        _ensure_votes_length
          (mkDocState toks (votes st)
             (Some (or_time (updated st) now)) resolved) in
      put_state doc_id st ;;
      save_state doc_id st
  end.

Definition ensure_tokens (now : Z) (doc_id : string)
    (source_name : option string) : M DocState :=
  with_lock doc_id (_ensure_tokens_locked now doc_id source_name).

Definition retokenize (now : Z) (doc_id : string)
    (source_name : option string) : M DocState :=
  let resolved_name :=
    if truthy_opt source_name then _sanitize_source_name source_name
    else DEFAULT_SOURCE_NAME in
  do '(toks, resolved) <- SE.lift (_tokenize_from_source resolved_name);
  with_lock doc_id
    (do st <- get_state doc_id;
     let st :=
       mkDocState toks (replicate (length toks) []) (Some now) resolved in
     put_state doc_id st ;;
     save_state doc_id st).

Definition clear_votes (now : Z) (doc_id : string) : M DocState :=
  with_lock doc_id
    (do st <- _ensure_tokens_locked now doc_id None;
     let st :=
       mkDocState (tokens st) (replicate (length (tokens st)) [])
         (Some now) (source_name st) in
     put_state doc_id st ;;
     save_state doc_id st).

Definition is_locked (doc_id : string) (s : Store) : bool :=
  default false (_lock_flags s !! doc_id).

Definition set_locked (doc_id : string) (value : bool) : M unit :=
  SE.modify (fun s =>
    mkStore (_states s) (_locks s) (<[doc_id := value]> (_lock_flags s))
      (disk s)).

(** The body of the loop of [apply_highlight] on one bucket, with the
    flag [changed] it raises. *)
Definition paint_bucket (client_id color : string) (b : bucket)
  : bucket * bool :=
  if truthy color then
    match PyDict.get client_id b with
    | Some c =>
        if String.eqb c color then (b, false)
        else (PyDict.set client_id color b, true)
    | None => (PyDict.set client_id color b, true)
    end
  else
    match PyDict.get client_id b with
    | Some _ => (PyDict.remove client_id b, true)
    | None => (b, false)
    end.

(** [for idx in range(start, end + 1)]. The index is within [votes]:
    the range is clamped to the tokens and [_ensure_votes_length] has
    just run (see [paint_indices_in_range]). *)
Definition paint_step (client_id color : string)
    (acc : list bucket * bool) (idx : nat) : list bucket * bool :=
  match fst acc !! idx with
  | Some b =>
      let '(b', ch) := paint_bucket client_id color b in
      (<[idx := b']> (fst acc), snd acc || ch)
  | None => acc
  end.

Definition paint (client_id color : string) (start end_ : nat)
    (v : list bucket) : list bucket * bool :=
  fold_left (paint_step client_id color) (seq start (end_ + 1 - start))
    (v, false).

Definition clamp (x : Z) (n : nat) : Z :=
  Z.max 0 (Z.min x (Z.of_nat n - 1)).

Definition apply_highlight (now : Z) (doc_id client_id : string)
    (start end_ : Z) (color : string) (timestamp : option Z) : M bool :=
  fun s =>
  if is_locked doc_id s then (Ok false, s)
  else
    with_lock doc_id
      (do st <- _ensure_tokens_locked now doc_id None;
       match tokens st with
       | [] => SE.ret false
       | _ :: _ =>
           let n := length (tokens st) in
           let start := clamp start n in
           let end_ := clamp end_ n in
           let '(start, end_) :=
             if (start >? end_)%Z then (end_, start) else (start, end_) in
           let st := _ensure_votes_length st in
           let '(v, changed) :=
             paint client_id color (Z.to_nat start) (Z.to_nat end_)
               (votes st) in
           let st := mkDocState (tokens st) v (updated st) (source_name st) in
           put_state doc_id st ;;
           if changed then
             let st :=
               mkDocState (tokens st) (votes st)
                 (Some (or_time timestamp now)) (source_name st) in
             put_state doc_id st ;;
             save_state doc_id st ;;
             SE.ret changed
           else SE.ret changed
       end) s.

(** The loop of [clear_client]. *)
Definition unvote_step (client_id : string) (acc : list bucket * bool)
    (b : bucket) : list bucket * bool :=
  match PyDict.get client_id b with
  | Some _ => (fst acc ++ [PyDict.remove client_id b], true)
  | None => (fst acc ++ [b], snd acc)
  end.

Definition unvote (client_id : string) (v : list bucket)
  : list bucket * bool :=
  fold_left (unvote_step client_id) v ([], false).

Definition clear_client (now : Z) (doc_id client_id : string)
    (timestamp : option Z) : M bool :=
  fun s =>
  if is_locked doc_id s then (Ok false, s)
  else
    with_lock doc_id
      (do st <- _ensure_tokens_locked now doc_id None;
       let '(v, changed) := unvote client_id (votes st) in
       let st := mkDocState (tokens st) v (updated st) (source_name st) in
       put_state doc_id st ;;
       if changed then
         let st :=
           mkDocState (tokens st) (votes st)
             (Some (or_time timestamp now)) (source_name st) in
         put_state doc_id st ;;
         save_state doc_id st ;;
         SE.ret changed
       else SE.ret changed) s.

(** The calls a client of the store can make, each with the reading of
    the clock it sees. *)
Inductive Call : Type :=
  | CGetState (doc_id : string)
  | CEnsureTokens (doc_id : string) (source_name : option string)
  | CRetokenize (doc_id : string) (source_name : option string)
  | CClearVotes (doc_id : string)
  | CApplyHighlight (doc_id client_id : string) (start end_ : Z)
      (color : string) (timestamp : option Z)
  | CClearClient (doc_id client_id : string) (timestamp : option Z)
  | CSaveState (doc_id : string) (st : DocState)
  | CSetLocked (doc_id : string) (value : bool).

(** The store a call leaves, whether it returns or raises. *)
Definition after (now : Z) (c : Call) (s : Store) : Store :=
  match c with
  | CGetState d => snd (get_state d s)
  | CEnsureTokens d n => snd (ensure_tokens now d n s)
  | CRetokenize d n => snd (retokenize now d n s)
  | CClearVotes d => snd (clear_votes now d s)
  | CApplyHighlight d c a b col t => snd (apply_highlight now d c a b col t s)
  | CClearClient d c t => snd (clear_client now d c t s)
  | CSaveState d st => snd (save_state d st s)
  | CSetLocked d v => snd (set_locked d v s)
  end.

Definition run (calls : list (Z * Call)) (s : Store) : Store :=
  fold_left (fun s c => after (fst c) (snd c) s) calls s.
End with_env.
End DocumentStore.

(* ------------------------------------------------------------------ *)
(** ** The form manager ([FormManager]) *)
(* ------------------------------------------------------------------ *)

(** [FormError] and [ButtonError]: a code, a message, an HTTP status and,
    for the cooldown, the payload [retry_in]. *)
Record AppError : Type := mkAppError
  { code : string; message : string; status : nat; retry_in : option Z }.

Module FormManager.
Import Names.
Open Scope se_scope.

Definition DEFAULT_FORM_QUESTION : ustr := u "Share your thoughts with us.".
Definition MAX_FORM_ANSWER_LENGTH : nat := 1024.
Definition MAX_FORM_RESPONSES : nat := 2000.

Record Response : Type := mkResponse
  { seq : Z; clientId : string; answer : ustr; question : ustr;
    submitted : Z }.

Record FormState : Type := mkFormState
  { form_id : string;
    fquestion : ustr;
    cooldown : Z;
    allow_repeat : bool;
    locked : bool;
    responses : list Response;
    last_by_client : gmap string Z;
    next_seq : Z;
    updated : option Z }.

(** A saved form as [json.load] returns it. A response read from the
    file may lack its [seq]. *)
Record RawForm : Type := mkRawForm
  { raw_question : option ustr;
    raw_cooldown : option Z;
    raw_allowRepeat : option bool;
    raw_locked : option bool;
    raw_responses : option (list (option Z * Response));
    raw_lastByClient : option (gmap string Z);
    raw_nextSeq : option Z;
    raw_updated : option Z }.

Inductive FormFile : Type :=
  | Unreadable
  | Json (raw : RawForm).

Record Manager : Type := mkManager
  { _states : gmap string FormState;
    _locks : gset string;
    disk : gmap string FormFile }.

Abbreviation M := (SE.M Manager AppError).

Definition _default_state (form_id : string) : FormState :=
  mkFormState form_id DEFAULT_FORM_QUESTION 0 true false [] ∅ 1 None.

(** [x or y] on numbers: zero and [None] are falsy. *)
Definition or_num (x : option Z) (y : Z) : Z :=
  match x with Some v => if (v =? 0)%Z then y else v | None => y end.

(** [item.setdefault("seq", idx)] over [enumerate(responses, start=1)] *)
Fixpoint number_from (idx : Z) (items : list (option Z * Response))
  : list Response :=
  match items with
  | [] => []
  | (sq, r) :: rest =>
      mkResponse (default idx sq) (clientId r) (answer r) (question r)
        (submitted r)
      :: number_from (idx + 1) rest
  end.

Definition _load_state (form_id : string) (files : gmap string FormFile)
  : FormState :=
  match files !! form_id with
  | None => _default_state form_id
  | Some Unreadable => _default_state form_id
  | Some (Json raw) =>
      let q :=
        Text.strip
          (match raw_question raw with
           | Some (c :: q) => c :: q
           | _ => DEFAULT_FORM_QUESTION
           end) in
      let rs := number_from 1 (default [] (raw_responses raw)) in
      mkFormState form_id
        (match q with [] => DEFAULT_FORM_QUESTION | _ => q end)
        (or_num (raw_cooldown raw) 0)
        (default true (raw_allowRepeat raw))
        (default false (raw_locked raw))
        rs
        (default ∅ (raw_lastByClient raw))
        (or_num (raw_nextSeq raw) (Z.of_nat (length rs) + 1))
        (raw_updated raw)
  end.

Definition _ensure_loaded (form_id : string) : M FormState :=
  fun m =>
    match _states m !! form_id with
    | Some st => (Ok st, m)
    | None =>
        let st := _load_state form_id (disk m) in
        (Ok st, mkManager (<[form_id := st]> (_states m)) (_locks m) (disk m))
    end.

Definition with_lock {A} (form_id : string) (body : M A) : M A :=
  fun m => body (mkManager (_states m) ({[form_id]} ∪ _locks m) (disk m)).

Definition _save_state (form_id : string) (st : FormState) : M unit :=
  let payload :=
    mkRawForm (Some (fquestion st)) (Some (cooldown st))
      (Some (allow_repeat st)) (Some (locked st))
      (Some (map (fun r => (Some (seq r), r)) (responses st)))
      (Some (last_by_client st)) (Some (next_seq st)) (updated st) in
  SE.modify (fun m =>
    mkManager (<[form_id := st]> (_states m)) (_locks m)
      (<[form_id := Json payload]> (disk m))).

Definition FormError (code message : string) (status : nat)
    (retry : option Z) : AppError :=
  mkAppError code message status retry.

(** The tail of [submit]: the record is appended, the list is cut to its
    last [MAX_FORM_RESPONSES] items, and the counters move on. *)
Definition append_response (now : Z) (client_id : string) (trimmed : ustr)
    (st : FormState) : FormState * Response :=
  let sq := next_seq st in
  let record := mkResponse sq client_id trimmed (fquestion st) now in
  let rs := responses st ++ [record] in
  let rs :=
    if MAX_FORM_RESPONSES <? length rs
    then drop (length rs - MAX_FORM_RESPONSES) rs else rs in
  (mkFormState (form_id st) (fquestion st) (cooldown st) (allow_repeat st)
     (locked st) rs (<[client_id := now]> (last_by_client st)) (sq + 1)
     (Some now),
   record).

Definition submit (now : Z) (form_id client_id : string) (answer : ustr)
  : M Response :=
  let trimmed := Text.strip answer in
  match trimmed with
  | [] => SE.raise (FormError "empty_answer" "Answer cannot be empty" 400 None)
  | _ :: _ =>
      let trimmed :=
        if MAX_FORM_ANSWER_LENGTH <? length trimmed
        then take MAX_FORM_ANSWER_LENGTH trimmed else trimmed in
      with_lock form_id
        (do st <- _ensure_loaded form_id;
         if locked st
         then SE.raise (FormError "locked" "Form is locked" 423 None)
         else
           let last := last_by_client st !! client_id in
           let cooling :=
             match last with
             | Some l => (0 <? cooldown st)%Z && (now - l <? cooldown st)%Z
             | None => false
             end in
           if cooling then
             SE.raise
               (FormError "cooldown" "Cooldown is active" 429
                  (Some (Z.max 0 (cooldown st - (now - default 0%Z last)))))
           else if negb (allow_repeat st)
                   && existsb (fun item => String.eqb (clientId item) client_id)
                        (responses st)
           then SE.raise
                  (FormError "repeat_not_allowed"
                     "Repeat submissions are disabled" 409 None)
           else
             let '(st, record) := append_response now client_id trimmed st in
             _save_state form_id st ;;
             SE.ret record)
  end.
(** [_config_snapshot] *)
Record ConfigSnapshot : Type := mkConfigSnapshot
  { cs_formId : string; cs_question : ustr; cs_cooldown : Z;
    cs_allowRepeat : bool; cs_locked : bool; cs_nextSeq : Z;
    cs_responseCount : nat }.

Definition _config_snapshot (st : FormState) : ConfigSnapshot :=
  mkConfigSnapshot (form_id st) (fquestion st) (cooldown st) (allow_repeat st)
    (locked st) (next_seq st) (length (responses st)).

(** The assignments of [update_config] once the question has passed its
    checks: [q] is the stripped question, if one was given. *)
Definition configured (now : Z) (q : option ustr) (cooldown' : option Z)
    (allow_repeat' locked' : option bool) (st : FormState) : FormState :=
  mkFormState (form_id st) (default (fquestion st) q)
    (match cooldown' with Some c => Z.max 0 c | None => cooldown st end)
    (default (allow_repeat st) allow_repeat')
    (default (locked st) locked')
    (responses st) (last_by_client st) (next_seq st) (Some now).

Definition update_config (now : Z) (form_id : string) (question : option ustr)
    (cooldown' : option Z) (allow_repeat' locked' : option bool)
  : M ConfigSnapshot :=
  with_lock form_id
    (do st <- _ensure_loaded form_id;
     let q := option_map Text.strip question in
     match q with
     | Some [] =>
         SE.raise (FormError "invalid_question" "Question cannot be empty"
                     400 None)
     | _ =>
         if match q with Some q' => 280 <? length q' | None => false end
         then SE.raise
                (FormError "invalid_question"
                   "Question must be 280 characters or fewer" 400 None)
         else
           let st := configured now q cooldown' allow_repeat' locked' st in
           _save_state form_id st ;;
           SE.ret (_config_snapshot st)
     end).

(** The assignments of [clear]. *)
Definition cleared (now : Z) (st : FormState) : FormState :=
  mkFormState (form_id st) (fquestion st) (cooldown st) (allow_repeat st)
    (locked st) [] ∅ 1 (Some now).

Definition clear (now : Z) (form_id : string) : M ConfigSnapshot :=
  with_lock form_id
    (do st <- _ensure_loaded form_id;
     let st := cleared now st in
     _save_state form_id st ;;
     SE.ret (_config_snapshot st)).
End FormManager.

(** The request model of [POST /api/forms/submit]:
    [answer: str = Field(..., min_length=1, max_length=MAX_FORM_ANSWER_LENGTH)]. *)
Definition FormSubmitRequest_answer_valid (answer : ustr) : bool :=
  (1 <=? length answer) && (length answer <=? FormManager.MAX_FORM_ANSWER_LENGTH).

(* ------------------------------------------------------------------ *)
(** ** The button panels ([ButtonManager]) *)
(* ------------------------------------------------------------------ *)

Module ButtonManager.
Import Names.
Open Scope se_scope.

Definition BUTTON_DEFINITIONS : list (string * string) :=
  [("suspension", "Suspension"); ("extension", "Extension");
   ("reversal", "Reversal"); ("speed", "Speed")].
Definition MAX_BUTTON_EVENTS : nat := 1000.

Record ButtonInfo : Type := mkButtonInfo
  { label : string; minus : Z; plus : Z }.

Record Event : Type := mkEvent
  { seq : Z; buttonId : string; elabel : string; direction : string;
    clientId : string; timestamp : Z }.

Record ButtonPanelState : Type := mkPanel
  { panel_id : string;
    buttons : PyDict.dict ButtonInfo;
    events : list Event;
    locked : bool;
    cooldown : Z;
    last_by_client : gmap string Z;
    next_seq : Z;
    updated : option Z }.

Record RawButton : Type := mkRawButton
  { raw_label : option string; raw_minus : option Z; raw_plus : option Z }.

Record RawPanel : Type := mkRawPanel
  { raw_buttons : option (PyDict.dict RawButton);
    raw_events : option (list (option Z * Event));
    raw_locked : option bool;
    raw_cooldown : option Z;
    raw_lastByClient : option (gmap string Z);
    raw_nextSeq : option Z;
    raw_updated : option Z }.

Inductive PanelFile : Type :=
  | Unreadable
  | Json (raw : RawPanel).

Record Manager : Type := mkManager
  { _states : gmap string ButtonPanelState;
    _locks : gset string;
    disk : gmap string PanelFile }.

Abbreviation M := (SE.M Manager AppError).

Definition _default_buttons : PyDict.dict ButtonInfo :=
  map (fun item => (fst item, mkButtonInfo (snd item) 0 0)) BUTTON_DEFINITIONS.

Definition _default_state (panel_id : string) : ButtonPanelState :=
  mkPanel panel_id _default_buttons [] false 0 ∅ 1 None.

Definition or_num (x : option Z) (y : Z) : Z :=
  match x with Some v => if (v =? 0)%Z then y else v | None => y end.

Fixpoint number_from (idx : Z) (items : list (option Z * Event))
  : list Event :=
  match items with
  | [] => []
  | (sq, e) :: rest =>
      mkEvent (default idx sq) (buttonId e) (elabel e) (direction e)
        (clientId e) (timestamp e)
      :: number_from (idx + 1) rest
  end.

Section with_title.
(** [str.title] of the standard library. *)
Variable title : string -> string.

(** The loop of [_load_state] over the saved buttons. *)
Definition load_button (bs : PyDict.dict ButtonInfo)
    (item : string * RawButton) : PyDict.dict ButtonInfo :=
  let '(button_id, info) := item in
  let bs :=
    match PyDict.get button_id bs with
    | Some _ => bs
    | None =>
        PyDict.set button_id
          (mkButtonInfo (default (title button_id) (raw_label info)) 0 0) bs
    end in
  match PyDict.get button_id bs with
  | Some entry =>
      PyDict.set button_id
        (mkButtonInfo (default (label entry) (raw_label info))
           (default 0%Z (raw_minus info)) (default 0%Z (raw_plus info)))
        bs
  | None => bs
  end.

Definition _load_state (panel_id : string) (files : gmap string PanelFile)
  : ButtonPanelState :=
  match files !! panel_id with
  | None => _default_state panel_id
  | Some Unreadable => _default_state panel_id
  | Some (Json raw) =>
      let evs := number_from 1 (default [] (raw_events raw)) in
      mkPanel panel_id
        (fold_left load_button (default [] (raw_buttons raw)) _default_buttons)
        evs
        (default false (raw_locked raw))
        (or_num (raw_cooldown raw) 0)
        (default ∅ (raw_lastByClient raw))
        (or_num (raw_nextSeq raw) (Z.of_nat (length evs) + 1))
        (raw_updated raw)
  end.

Definition _ensure_loaded (panel_id : string) : M ButtonPanelState :=
  fun m =>
    match _states m !! panel_id with
    | Some st => (Ok st, m)
    | None =>
        let st := _load_state panel_id (disk m) in
        (Ok st, mkManager (<[panel_id := st]> (_states m)) (_locks m) (disk m))
    end.

Definition with_lock {A} (panel_id : string) (body : M A) : M A :=
  fun m => body (mkManager (_states m) ({[panel_id]} ∪ _locks m) (disk m)).

Definition _save_state (panel_id : string) (st : ButtonPanelState) : M unit :=
  let payload :=
    mkRawPanel
      (Some (map (fun b =>
               (fst b, mkRawButton (Some (label (snd b))) (Some (minus (snd b)))
                         (Some (plus (snd b)))))
             (buttons st)))
      (Some (map (fun e => (Some (seq e), e)) (events st)))
      (Some (locked st)) (Some (cooldown st)) (Some (last_by_client st))
      (Some (next_seq st)) (updated st) in
  SE.modify (fun m =>
    mkManager (<[panel_id := st]> (_states m)) (_locks m)
      (<[panel_id := Json payload]> (disk m))).

Definition ButtonError (code message : string) (status : nat)
    (retry : option Z) : AppError :=
  mkAppError code message status retry.

(** [info[direction_norm] = int(info.get(direction_norm, 0)) + 1] *)
Definition bump (direction_norm : string) (info : ButtonInfo) : ButtonInfo :=
  if String.eqb direction_norm "minus"
  then mkButtonInfo (label info) (minus info + 1) (plus info)
  else mkButtonInfo (label info) (minus info) (plus info + 1).

(** The tail of [fire]: the counter of the direction goes up by one, the
    event is appended, the list is cut to its last [MAX_BUTTON_EVENTS]
    items, and the counters of the panel move on. *)
Definition press (now : Z) (client_id button_id direction_norm : string)
    (info : ButtonInfo) (st : ButtonPanelState) : ButtonPanelState * Event :=
  let info := bump direction_norm info in
  let sq := next_seq st in
  let event :=
    mkEvent sq button_id (label info) direction_norm client_id now in
  let evs := events st ++ [event] in
  let evs :=
    if MAX_BUTTON_EVENTS <? length evs
    then drop (length evs - MAX_BUTTON_EVENTS) evs else evs in
  (mkPanel (panel_id st) (PyDict.set button_id info (buttons st)) evs
     (locked st) (cooldown st) (<[client_id := now]> (last_by_client st))
     (sq + 1) (Some now),
   event).

Definition fire (now : Z) (panel_id client_id button_id direction : string)
  : M Event :=
  let direction_norm := lower direction in
  if negb (String.eqb direction_norm "minus" || String.eqb direction_norm "plus")
  then SE.raise
         (ButtonError "invalid_direction"
            "Direction must be 'minus' or 'plus'" 400 None)
  else
    with_lock panel_id
      (do st <- _ensure_loaded panel_id;
       if locked st
       then SE.raise (ButtonError "locked" "Panel is locked" 423 None)
       else
         match PyDict.get button_id (buttons st) with
         | None =>
             SE.raise
               (ButtonError "unknown_button"
                  ("Button '" ++ button_id ++ "' is not defined")%string
                  404 None)
         | Some info =>
             let last := last_by_client st !! client_id in
             let cooling :=
               match last with
               | Some l => (0 <? cooldown st)%Z && (now - l <? cooldown st)%Z
               | None => false
               end in
             if cooling then
               SE.raise
                 (ButtonError "cooldown" "Cooldown is active" 429
                    (Some (Z.max 0 (cooldown st - (now - default 0%Z last)))))
             else
               let '(st, event) :=
                 press now client_id button_id direction_norm info st in
               _save_state panel_id st ;;
               SE.ret event
         end).
(** [_config_snapshot]: the buttons in the order of
    [DEFAULT_BUTTON_SEQUENCE], the others after them; [list.sort] is
    stable. *)
Record PanelSnapshot : Type := mkPanelSnapshot
  { ps_panelId : string; ps_buttons : list (string * ButtonInfo);
    ps_locked : bool; ps_cooldown : Z; ps_nextSeq : Z; ps_eventCount : nat }.

Fixpoint index_of (bid : string) (ids : list string) : nat :=
  match ids with
  | [] => 0
  | x :: rest => if String.eqb bid x then 0 else S (index_of bid rest)
  end.

(** [order.get(item["id"], len(order))] *)
Definition sort_key (item : string * ButtonInfo) : nat :=
  index_of (fst item) (map fst BUTTON_DEFINITIONS).

Fixpoint insert_sorted (x : string * ButtonInfo)
    (l : list (string * ButtonInfo)) : list (string * ButtonInfo) :=
  match l with
  | [] => [x]
  | y :: rest =>
      if sort_key y <? sort_key x then y :: insert_sorted x rest
      else x :: y :: rest
  end.

Definition _config_snapshot (panel_id : string) (st : ButtonPanelState)
  : PanelSnapshot :=
  mkPanelSnapshot panel_id (foldr insert_sorted [] (buttons st)) (locked st)
    (cooldown st) (next_seq st) (length (events st)).

(** The assignments of [update_config]: the cooldown is clamped at zero. *)
Definition configured (now : Z) (cooldown' : option Z) (locked' : option bool)
    (st : ButtonPanelState) : ButtonPanelState :=
  mkPanel (panel_id st) (buttons st) (events st)
    (default (locked st) locked')
    (match cooldown' with Some c => Z.max 0 c | None => cooldown st end)
    (last_by_client st) (next_seq st) (Some now).

Definition update_config (now : Z) (panel_id : string)
    (cooldown' : option Z) (locked' : option bool) : M PanelSnapshot :=
  with_lock panel_id
    (do st <- _ensure_loaded panel_id;
     let st := configured now cooldown' locked' st in
     _save_state panel_id st ;;
     SE.ret (_config_snapshot panel_id st)).

(** The assignments of [reset]: every counter back to zero, the events and
    the last actions dropped. *)
Definition reset_state (now : Z) (st : ButtonPanelState) : ButtonPanelState :=
  mkPanel (panel_id st)
    (map (fun b => (fst b, mkButtonInfo (label (snd b)) 0 0)) (buttons st))
    [] (locked st) (cooldown st) ∅ 1 (Some now).

Definition reset (now : Z) (panel_id : string) : M PanelSnapshot :=
  with_lock panel_id
    (do st <- _ensure_loaded panel_id;
     let st := reset_state now st in
     _save_state panel_id st ;;
     SE.ret (_config_snapshot panel_id st)).
End with_title.
End ButtonManager.



(* ================================================================== *)
(** * Properties *)
(* ================================================================== *)

(** ** Dictionaries *)

Section PyDict_facts.
Context {V : Type}.
Implicit Types (d : PyDict.dict V) (k : string) (v : V).

Lemma get_set_same k v d : PyDict.get k (PyDict.set k v d) = Some v.
Proof.
  induction d as [|[k' v'] d IH]; simpl.
  - now rewrite String.eqb_refl.
  - destruct (String.eqb k k') eqn:E; simpl; rewrite E; auto.
Qed.

Lemma get_set_other k k' v d :
  k <> k' -> PyDict.get k (PyDict.set k' v d) = PyDict.get k d.
Proof.
  intros Hne. induction d as [|[k2 v2] d IH]; simpl.
  - apply String.eqb_neq in Hne. now rewrite Hne.
  - destruct (String.eqb k' k2) eqn:E; simpl.
    + apply String.eqb_eq in E. subst k2.
      apply String.eqb_neq in Hne. now rewrite Hne.
    + now rewrite IH.
Qed.

Lemma get_Some_In k v d : PyDict.get k d = Some v -> In (k, v) d.
Proof.
  induction d as [|[k' v'] d IH]; simpl; [discriminate|].
  destruct (String.eqb k k') eqn:E.
  - apply String.eqb_eq in E. intros [= ->]. subst. now left.
  - intros H. right. auto.
Qed.

Lemma get_None_keys k d : PyDict.get k d = None -> ~ In k (PyDict.keys d).
Proof.
  induction d as [|[k' v'] d IH]; simpl; [tauto|].
  destruct (String.eqb k k') eqn:E; [discriminate|].
  apply String.eqb_neq in E. intros H [Hk|Hk]; [congruence|]. now apply IH.
Qed.

Lemma keys_set k v d :
  PyDict.keys (PyDict.set k v d)
  = match PyDict.get k d with
    | Some _ => PyDict.keys d
    | None => PyDict.keys d ++ [k]
    end.
Proof.
  induction d as [|[k' v'] d IH]; simpl; [reflexivity|].
  destruct (String.eqb k k') eqn:E; simpl; [reflexivity|].
  unfold PyDict.keys in *. rewrite IH.
  now destruct (PyDict.get k d).
Qed.

Lemma NoDup_keys_set k v d :
  NoDup (PyDict.keys d) -> NoDup (PyDict.keys (PyDict.set k v d)).
Proof.
  intros Hd. rewrite keys_set.
  destruct (PyDict.get k d) eqn:E; [assumption|].
  apply NoDup_app. split; [assumption|]. split.
  - intros x Hx Hin. apply list_elem_of_In in Hx.
    apply list_elem_of_In in Hin. simpl in Hin.
    destruct Hin as [<-|[]]. now apply (get_None_keys _ _ E).
  - apply NoDup_singleton.
Qed.

Lemma In_set k v d x :
  In x (PyDict.set k v d) -> x = (k, v) \/ In x d.
Proof.
  induction d as [|[k' v'] d IH]; simpl.
  - intros [<-|[]]. now left.
  - destruct (String.eqb k k') eqn:E; simpl.
    + apply String.eqb_eq in E. subst k'.
      intros [<-|H]; [now left|right; now right].
    + intros [<-|H]; [right; now left|].
      destruct (IH H); [now left|right; now right].
Qed.

Lemma In_NoDup_get k v d :
  NoDup (PyDict.keys d) -> In (k, v) d -> PyDict.get k d = Some v.
Proof.
  induction d as [|[k' v'] d IH]; simpl; [tauto|].
  intros Hnd [H|H].
  - injection H as -> ->. now rewrite String.eqb_refl.
  - apply NoDup_cons in Hnd as [Hk Hnd].
    destruct (String.eqb k k') eqn:E.
    + apply String.eqb_eq in E. subst k'. exfalso. apply Hk.
      apply list_elem_of_In. unfold PyDict.keys.
      change k with (fst (k, v)). now apply in_map.
    + auto.
Qed.
End PyDict_facts.

(** ** Majority aggregation *)

Module AggregationSpec.
Import Aggregation.

(** The number of clients that vote for [c] in a bucket. *)
Definition votes_for (c : string) (b : bucket) : nat :=
  count_occ string_dec (PyDict.values b) c.

(** [c] is a colour with the highest number of votes of the bucket. *)
Definition is_top (c : string) (b : bucket) : Prop :=
  truthy c = true /\ 1 <= votes_for c b /\
  forall d, truthy d = true -> votes_for d b <= votes_for c b.

(** No two colours share the highest number of votes. *)
Definition no_tie (b : bucket) : Prop :=
  forall c d, is_top c b -> is_top d b -> c = d.

(** A range lies within the votes and every position of it has the
    colour of the range as its top colour. *)
Definition range_ok (votes : list bucket) (r : Range) : Prop :=
  r_start r <= r_end r < length votes /\
  truthy (r_color r) = true /\
  forall k, r_start r <= k <= r_end r ->
    exists b, votes !! k = Some b /\ top_color_at b = r_color r.

(** The ranges come in order, each one starting after the previous one
    has ended and none before [lo]. *)
Fixpoint chain (lo : nat) (rs : list Range) : Prop :=
  match rs with
  | [] => True
  | r :: rest => lo <= r_start r /\ r_start r <= r_end r /\ chain (S (r_end r)) rest
  end.

Lemma truthy_true c : truthy c = true <-> c <> "".
Proof.
  unfold truthy. rewrite negb_true_iff. apply String.eqb_neq.
Qed.

Lemma truthy_false c : truthy c = false <-> c = "".
Proof.
  unfold truthy. rewrite negb_false_iff. apply String.eqb_eq.
Qed.

(** *** The counting loop *)

Definition counts_ok (d : PyDict.dict nat) : Prop :=
  NoDup (PyDict.keys d) /\
  forall k n, In (k, n) d -> truthy k = true /\ 1 <= n.

Lemma count_step_ok d color : counts_ok d -> counts_ok (count_step d color).
Proof.
  intros [Hnd Hk]. unfold count_step.
  destruct (truthy color) eqn:E; [|now split].
  split; [now apply NoDup_keys_set|].
  intros k n Hin. apply In_set in Hin as [[= -> ->]|Hin]; [|eauto].
  split; [assumption|lia].
Qed.

Lemma count_step_get d color c :
  truthy c = true ->
  default 0 (PyDict.get c (count_step d color))
  = default 0 (PyDict.get c d) + (if string_dec color c then 1 else 0).
Proof.
  intros Hc. unfold count_step.
  destruct (string_dec color c) as [->|Hne].
  - rewrite Hc, get_set_same. simpl. lia.
  - destruct (truthy color); [|lia].
    rewrite get_set_other by congruence. lia.
Qed.

Lemma fold_count_ok vals d :
  counts_ok d -> counts_ok (fold_left count_step vals d).
Proof.
  revert d. induction vals as [|v vals IH]; intros d Hd; simpl; [assumption|].
  apply IH. now apply count_step_ok.
Qed.

Lemma fold_count_get vals d c :
  truthy c = true ->
  default 0 (PyDict.get c (fold_left count_step vals d))
  = default 0 (PyDict.get c d) + count_occ string_dec vals c.
Proof.
  intros Hc. revert d.
  induction vals as [|v vals IH]; intros d; simpl; [lia|].
  rewrite IH, count_step_get by assumption.
  destruct (string_dec v c); lia.
Qed.

Lemma count_colors_ok b : counts_ok (count_colors b).
Proof.
  apply fold_count_ok. split; [constructor|intros ? ? []].
Qed.

Lemma count_colors_get b c :
  truthy c = true ->
  default 0 (PyDict.get c (count_colors b)) = votes_for c b.
Proof.
  intros Hc. unfold count_colors. now rewrite fold_count_get.
Qed.

Lemma count_colors_In b c n :
  In (c, n) (count_colors b) ->
  truthy c = true /\ 1 <= n /\ n = votes_for c b.
Proof.
  intros Hin. destruct (count_colors_ok b) as [Hnd Hk].
  destruct (Hk c n Hin) as [Hc Hn].
  repeat split; try assumption.
  rewrite <- (count_colors_get b c Hc).
  now rewrite (In_NoDup_get _ _ _ Hnd Hin).
Qed.

Lemma count_colors_voted b c :
  truthy c = true -> 1 <= votes_for c b ->
  In (c, votes_for c b) (count_colors b).
Proof.
  intros Hc Hv. rewrite <- (count_colors_get b c Hc) in *.
  destruct (PyDict.get c (count_colors b)) as [n|] eqn:E; simpl in *; [|lia].
  now apply get_Some_In.
Qed.

(** *** [max] keeps a maximal item *)

Lemma max_by_count_spec items best :
  let r := max_by_count best items in
  In r (best :: items) /\
  forall it, In it (best :: items) -> snd it <= snd r.
Proof.
  revert best. induction items as [|x items IH]; intros best; simpl.
  - split; [now left|]. intros it [<-|[]]. lia.
  - specialize (IH (if snd best <? snd x then x else best)).
    simpl in IH. destruct IH as [Hin Hmax]. split.
    + destruct Hin as [Hin|Hin]; [|now right; right].
      rewrite <- Hin. destruct (snd best <? snd x); [right; now left|now left].
    + intros it [<-|[<-|Hit]].
      * destruct (snd best <? snd x) eqn:E.
        -- apply Nat.ltb_lt in E.
           specialize (Hmax x (or_introl eq_refl)). lia.
        -- apply (Hmax best). now left.
      * destruct (snd best <? snd x) eqn:E.
        -- apply (Hmax x). now left.
        -- apply Nat.ltb_ge in E.
           specialize (Hmax best (or_introl eq_refl)). lia.
      * apply Hmax. now right.
Qed.

(** *** What [top_color_at] returns *)

Lemma top_color_spec b :
  (top_color_at b = "" /\ forall d, truthy d = true -> votes_for d b = 0)
  \/ is_top (top_color_at b) b.
Proof.
  unfold top_color_at.
  destruct (count_colors b) as [|it rest] eqn:E.
  - left. split; [reflexivity|]. intros d Hd.
    rewrite <- (count_colors_get b d Hd), E. reflexivity.
  - right.
    destruct (max_by_count_spec rest it) as [Hin Hmax].
    set (r := max_by_count it rest) in *.
    rewrite <- E in Hin, Hmax.
    destruct r as [c n] eqn:Er. simpl in *.
    destruct (count_colors_In b c n Hin) as (Hc & Hpos & Hn).
    subst n. repeat split; try assumption.
    intros d Hd.
    destruct (Nat.eq_dec (votes_for d b) 0) as [->|Hnz]; [lia|].
    apply (Hmax (d, votes_for d b)).
    apply count_colors_voted; [assumption|lia].
Qed.

(** The top colour is empty exactly when the bucket has no vote for a
    colour. *)
Lemma top_color_empty b :
  top_color_at b = "" <-> forall d, truthy d = true -> votes_for d b = 0.
Proof.
  destruct (top_color_spec b) as [[H0 Hall]|(Hc & Hpos & _)].
  - tauto.
  - split.
    + intros E. rewrite E in Hc. discriminate.
    + intros Hall. specialize (Hall _ Hc). lia.
Qed.

(** *** Buckets with the same votes in another order *)

Lemma votes_for_perm b b' c :
  Permutation b b' -> votes_for c b = votes_for c b'.
Proof.
  intros HP. unfold votes_for, PyDict.values.
  apply Permutation_count_occ. now apply Permutation_map.
Qed.

Lemma is_top_perm b b' c : Permutation b b' -> is_top c b -> is_top c b'.
Proof.
  intros HP (Hc & Hpos & Hmax). unfold is_top.
  rewrite <- (votes_for_perm b b' c HP). repeat split; try assumption.
  intros d Hd. rewrite <- (votes_for_perm b b' d HP). auto.
Qed.

Lemma top_color_perm b b' :
  Permutation b b' -> no_tie b -> top_color_at b = top_color_at b'.
Proof.
  intros HP Hnt.
  destruct (top_color_spec b) as [[H0 Hall]|Htop].
  - rewrite H0. symmetry. apply top_color_empty.
    intros d Hd. rewrite <- (votes_for_perm b b' d HP). auto.
  - destruct (top_color_spec b') as [[H0 Hall]|Htop'].
    + destruct Htop as (Hc & Hpos & _).
      rewrite (votes_for_perm b b' _ HP), (Hall _ Hc) in Hpos. lia.
    + apply Hnt; [assumption|].
      apply (is_top_perm b' b); [now symmetry|assumption].
Qed.

(** *** The two loops *)

Lemma extend_run_spec votes color fuel j :
  j < length votes -> length votes - j <= fuel ->
  exists j', extend_run fuel votes color j = Some j' /\
    j <= j' < length votes /\
    forall k, j < k <= j' ->
      exists b, votes !! k = Some b /\ top_color_at b = color.
Proof.
  revert j. induction fuel as [|fuel IH]; intros j Hj Hf; [lia|].
  simpl. destruct (j + 1 <? length votes) eqn:E.
  - apply Nat.ltb_lt in E.
    destruct (lookup_lt_is_Some_2 votes (j + 1) E) as [b Hb]. rewrite Hb.
    destruct (String.eqb (top_color_at b) color) eqn:Ec.
    + apply String.eqb_eq in Ec.
      destruct (IH (j + 1)) as (j' & Hr & Hb' & Hcol); [lia|lia|].
      exists j'. split; [assumption|]. split; [lia|].
      intros k Hk. destruct (Nat.eq_dec k (j + 1)) as [->|Hne].
      * eauto.
      * apply Hcol. lia.
    + exists j. split; [reflexivity|]. split; [lia|]. intros k Hk. lia.
  - exists j. split; [reflexivity|]. split; [lia|]. intros k Hk. lia.
Qed.

Lemma ranges_loop_acc votes fuel i acc :
  ranges_loop fuel votes i acc
  = option_map (app acc) (ranges_loop fuel votes i []).
Proof.
  revert i acc. induction fuel as [|fuel IH]; intros i acc; [reflexivity|].
  simpl. destruct (i <? length votes); [|simpl; now rewrite app_nil_r].
  destruct (votes !! i) as [b|]; [|reflexivity].
  destruct (truthy (top_color_at b)).
  - destruct (extend_run (length votes) votes (top_color_at b) i) as [j|];
      [|reflexivity].
    rewrite (IH _ (acc ++ _)), (IH _ [_]).
    destruct (ranges_loop fuel votes (j + 1) []); simpl; [|reflexivity].
    now rewrite <- app_assoc.
  - apply IH.
Qed.

Lemma ranges_loop_spec votes fuel i :
  length votes - i < fuel ->
  exists rs, ranges_loop fuel votes i [] = Some rs /\
    Forall (range_ok votes) rs /\ chain i rs.
Proof.
  revert i. induction fuel as [|fuel IH]; intros i Hf; [lia|].
  simpl. destruct (i <? length votes) eqn:E.
  2:{ exists []. repeat split; constructor. }
  apply Nat.ltb_lt in E.
  destruct (lookup_lt_is_Some_2 votes i E) as [b Hb]. rewrite Hb.
  destruct (truthy (top_color_at b)) eqn:Et.
  - destruct (extend_run_spec votes (top_color_at b) (length votes) i)
      as (j & Hr & Hj & Hcol); [assumption|lia|].
    rewrite Hr, ranges_loop_acc.
    destruct (IH (j + 1)) as (rs & Hrs & Hok & Hch); [lia|].
    rewrite Hrs. simpl. eexists. split; [reflexivity|]. split.
    + constructor; [|assumption]. unfold range_ok. simpl.
      split; [lia|]. split; [assumption|].
      intros k Hk. destruct (Nat.eq_dec k i) as [->|Hne]; [eauto|].
      apply Hcol. lia.
    + simpl. split; [lia|]. split; [lia|].
      now replace (S j) with (j + 1) by lia.
  - destruct (IH (i + 1)) as (rs & Hrs & Hok & Hch); [lia|].
    exists rs. repeat split; try assumption.
    clear -Hch. destruct rs as [|r rs]; simpl in *; [trivial|].
    destruct Hch as (H1 & H2 & H3). repeat split; try assumption. lia.
Qed.

Lemma chain_bound lo rs r :
  chain lo rs -> In r rs -> lo <= r_start r.
Proof.
  revert lo. induction rs as [|x rs IH]; intros lo Hch Hin; [destruct Hin|].
  simpl in Hch. destruct Hch as (H1 & H2 & H3).
  destruct Hin as [->|Hin]; [assumption|].
  specialize (IH _ H3 Hin). lia.
Qed.

Lemma chain_ordered lo rs i j a b :
  chain lo rs -> i < j -> rs !! i = Some a -> rs !! j = Some b ->
  r_end a < r_start b.
Proof.
  revert lo i j. induction rs as [|x rs IH]; intros lo i j Hch Hij Ha Hb.
  - discriminate.
  - simpl in Hch. destruct Hch as (H1 & H2 & H3).
    destruct j as [|j]; [lia|]. simpl in Hb.
    destruct i as [|i].
    + simpl in Ha. injection Ha as ->.
      assert (Hin : In b rs).
      { apply list_elem_of_In. eapply list_elem_of_lookup_2. exact Hb. }
      exact (chain_bound _ _ _ H3 Hin).
    + simpl in Ha. apply (IH _ i j H3); [lia|assumption|assumption].
Qed.

(** The ranges depend on the votes through the top colours only. *)
Lemma top_color_lookup_ext v v' k :
  map top_color_at v = map top_color_at v' ->
  option_map top_color_at (v !! k) = option_map top_color_at (v' !! k).
Proof.
  revert v' k. induction v as [|b v IH]; intros [|b' v'] k Hm;
    try discriminate; [reflexivity|].
  simpl in Hm. injection Hm as Hb Hm.
  destruct k as [|k]; simpl; [now rewrite Hb|now apply IH].
Qed.

Lemma extend_run_ext v v' color fuel j :
  map top_color_at v = map top_color_at v' ->
  extend_run fuel v color j = extend_run fuel v' color j.
Proof.
  intros Hm. assert (Hl : length v = length v').
  { now rewrite <- (length_map top_color_at v), Hm, length_map. }
  revert j. induction fuel as [|fuel IH]; intros j; [reflexivity|].
  simpl. rewrite <- Hl. destruct (j + 1 <? length v); [|reflexivity].
  pose proof (top_color_lookup_ext v v' (j + 1) Hm) as Hk.
  destruct (v !! (j + 1)) as [b|], (v' !! (j + 1)) as [b'|];
    simpl in Hk; try discriminate; [|reflexivity].
  injection Hk as ->. now rewrite IH.
Qed.

Lemma ranges_loop_ext v v' fuel i acc :
  map top_color_at v = map top_color_at v' ->
  ranges_loop fuel v i acc = ranges_loop fuel v' i acc.
Proof.
  intros Hm. assert (Hl : length v = length v').
  { now rewrite <- (length_map top_color_at v), Hm, length_map. }
  revert i acc. induction fuel as [|fuel IH]; intros i acc; [reflexivity|].
  simpl. rewrite <- Hl. destruct (i <? length v); [|reflexivity].
  pose proof (top_color_lookup_ext v v' i Hm) as Hk.
  destruct (v !! i) as [b|], (v' !! i) as [b'|];
    simpl in Hk; try discriminate; [|reflexivity].
  injection Hk as ->.
  rewrite (extend_run_ext v v' _ _ _ Hm).
  destruct (truthy (top_color_at b')); [|apply IH].
  destruct (extend_run (length v) v' (top_color_at b') i); [apply IH|reflexivity].
Qed.

Lemma ranges_from_votes_ext v v' :
  map top_color_at v = map top_color_at v' ->
  ranges_from_votes v = ranges_from_votes v'.
Proof.
  intros Hm. unfold ranges_from_votes.
  assert (Hl : length v = length v').
  { now rewrite <- (length_map top_color_at v), Hm, length_map. }
  rewrite <- Hl. now apply ranges_loop_ext.
Qed.

(** X11. Renaming the clients leaves the ranges as they are: the
    aggregation reads the colours only. *)
Lemma ranges_rename_clients (f : string -> string) votes :
  ranges_from_votes
    (map (fun b : bucket => map (fun kv => (f (fst kv), snd kv)) b) votes)
  = ranges_from_votes votes.
Proof.
  apply ranges_from_votes_ext. rewrite map_map. apply map_ext.
  intros b. unfold top_color_at, count_colors, PyDict.values.
  rewrite map_map. reflexivity.
Qed.

Lemma Forall2_perm_top_colors votes votes' :
  Forall2 (@Permutation (string * string)) votes votes' ->
  Forall no_tie votes ->
  map top_color_at votes = map top_color_at votes'.
Proof.
  induction 1 as [|b b' v v' HP HF IH]; intros Hnt; [reflexivity|].
  apply Forall_cons in Hnt as [Hb Hv]. simpl.
  rewrite (top_color_perm b b' HP Hb), IH by assumption. reflexivity.
Qed.

(** A colour that beats every other colour of the bucket rules ties out. *)
Lemma no_tie_of_leader b c0 :
  truthy c0 = true ->
  (forall d, truthy d = true -> d <> c0 -> votes_for d b < votes_for c0 b) ->
  no_tie b.
Proof.
  intros Ht Hlead c d (Hc & Hcp & Hcm) (Hd & Hdp & Hdm).
  destruct (string_dec c c0) as [->|Hc0], (string_dec d c0) as [->|Hd0];
    try reflexivity.
  - specialize (Hlead d Hd Hd0). specialize (Hdm c0 Hc). lia.
  - specialize (Hlead c Hc Hc0). specialize (Hcm c0 Hd). lia.
  - specialize (Hlead c Hc Hc0). specialize (Hcm c0 Ht). lia.
Qed.

(** C10. For every votes list [ranges_from_votes] returns, and the ranges
    it returns are well formed and ordered: each range has
    [0 <= start <= end < len(votes)], a range that comes earlier in the
    list ends before a later one starts (so the ranges are pairwise
    disjoint and listed in strictly increasing position order), and
    every position inside a range has the colour of the range as its
    top colour. *)
Theorem ranges_from_votes_well_formed (votes : list bucket) :
  exists rs, ranges_from_votes votes = Some rs /\
    Forall (fun r => 0 <= r_start r /\ r_start r <= r_end r /\
                     r_end r < length votes) rs /\
    (forall i j a b, i < j -> rs !! i = Some a -> rs !! j = Some b ->
                     r_end a < r_start b) /\
    Forall (fun r => forall k, r_start r <= k <= r_end r ->
              exists bk, votes !! k = Some bk /\
                         top_color_at bk = r_color r) rs.
Proof.
  destruct (ranges_loop_spec votes (S (length votes)) 0) as (rs & Hr & Hok & Hch);
    [lia|].
  exists rs. split; [exact Hr|]. split; [|split].
  - eapply Forall_impl; [exact Hok|].
    intros r (Hb & _ & _). simpl. lia.
  - intros i j a b. now apply (chain_ordered 0 rs).
  - eapply Forall_impl; [exact Hok|].
    intros r (_ & _ & Hcol). exact Hcol.
Qed.

(** C3, as the code has it. When no position has two colours tied for
    the highest number of votes, the ranges do not depend on the order in
    which the clients were inserted into the vote maps: permuting the
    entries of every bucket, each client keeping its colour at each
    position, yields identical ranges. *)
Theorem ranges_order_independent_without_ties (votes votes' : list bucket) :
  Forall2 (@Permutation (string * string)) votes votes' ->
  Forall no_tie votes ->
  ranges_from_votes votes = ranges_from_votes votes'.
Proof.
  intros HP Hnt. apply ranges_from_votes_ext.
  now apply Forall2_perm_top_colors.
Qed.

Lemma ranges_order_independent_without_ties_witness :
  let votes : list bucket :=
    [[("A", "red"); ("B", "red"); ("C", "green")]; [("B", "green")]] in
  let votes' : list bucket :=
    [[("C", "green"); ("A", "red"); ("B", "red")]; [("B", "green")]] in
  ranges_from_votes votes = ranges_from_votes votes' /\
  ranges_from_votes votes
  = Some [mkRange 0 0 "red"; mkRange 1 1 "green"].
Proof.
  split; [|reflexivity].
  apply ranges_order_independent_without_ties.
  - constructor; [|constructor; [reflexivity|constructor]].
    apply Permutation_sym.
    apply (Permutation_cons_app [("A", "red"); ("B", "red")] []).
    rewrite app_nil_r. reflexivity.
  - constructor; [|constructor; [|constructor]].
    + apply (no_tie_of_leader _ "red"); [reflexivity|]. intros d _ Hd.
      replace (votes_for "red" _) with 2 by reflexivity.
      unfold votes_for. cbn [PyDict.values map snd count_occ].
      destruct (string_dec "red" d); [congruence|].
      destruct (string_dec "green" d); lia.
    + apply (no_tie_of_leader _ "green"); [reflexivity|]. intros d _ Hd.
      replace (votes_for "green" _) with 1 by reflexivity.
      unfold votes_for. cbn [PyDict.values map snd count_occ].
      destruct (string_dec "green" d); [congruence|lia].
Defined.

(** C3, as the claim states it, fails on a tie: the same two votes in the
    two insertion orders give two different ranges. *)
Lemma ranges_depend_on_order_at_a_tie :
  let votes : list bucket := [[("A", "red"); ("B", "green")]] in
  let votes' : list bucket := [[("B", "green"); ("A", "red")]] in
  Forall2 (@Permutation (string * string)) votes votes' /\
  ranges_from_votes votes = Some [mkRange 0 0 "red"] /\
  ranges_from_votes votes' = Some [mkRange 0 0 "green"] /\
  ranges_from_votes votes <> ranges_from_votes votes'.
Proof.
  split; [|split; [reflexivity|split; [reflexivity|discriminate]]].
  constructor; [apply perm_swap|constructor].
Qed.

(** *** Which colour wins a tie *)

(** The colours of a list of votes in the order in which they are first
    seen, the empty colour and the colours of [seen] apart. *)
Fixpoint firsts (seen vals : list string) : list string :=
  match vals with
  | [] => []
  | v :: rest =>
      if truthy v && negb (existsb (String.eqb v) seen)
      then v :: firsts (seen ++ [v]) rest
      else firsts seen rest
  end.

Lemma existsb_keys {V} k (d : PyDict.dict V) :
  existsb (String.eqb k) (PyDict.keys d)
  = match PyDict.get k d with Some _ => true | None => false end.
Proof.
induction d as [|[k' v] d IH]; simpl; [reflexivity|].
destruct (String.eqb k k'); simpl; [reflexivity|exact IH].
Qed.

Lemma keys_fold_count vals d :
  PyDict.keys (fold_left count_step vals d)
  = PyDict.keys d ++ firsts (PyDict.keys d) vals.
Proof.
revert d. induction vals as [|v vals IH]; intros d; simpl.
- now rewrite app_nil_r.
- rewrite IH. unfold count_step. destruct (truthy v); simpl; [|reflexivity].
  rewrite keys_set, existsb_keys.
  destruct (PyDict.get v d); simpl; [reflexivity|].
  now rewrite <- app_assoc.
Qed.

Lemma firsts_In x seen vals :
  In x (firsts seen vals) ->
  truthy x = true /\ existsb (String.eqb x) seen = false.
Proof.
revert seen. induction vals as [|v vals IH]; intros seen; simpl; [tauto|].
destruct (truthy v) eqn:Et; simpl.
- destruct (existsb (String.eqb v) seen) eqn:Es; simpl.
  + apply IH.
  + intros [<-|Hin]; [now split|].
    destruct (IH _ Hin) as [Hx Hs]. split; [assumption|].
    rewrite existsb_app in Hs. now apply orb_false_iff in Hs as [Hs _].
- apply IH.
Qed.

Lemma firsts_not_last x seen vals : ~ In x (firsts (seen ++ [x]) vals).
Proof.
intros Hin. destruct (firsts_In _ _ _ Hin) as [_ Hs].
rewrite existsb_app in Hs. simpl in Hs.
rewrite String.eqb_refl in Hs. now rewrite orb_true_r in Hs.
Qed.

Lemma firsts_order c d seen vals k1 k2 :
  firsts seen vals = k1 ++ c :: k2 -> In d k2 ->
  exists pre post, vals = pre ++ c :: post /\ ~ In d pre.
Proof.
revert seen k1. induction vals as [|v vals IH]; intros seen k1; simpl.
- intros E. destruct k1; discriminate.
- intros E Hd.
  destruct (truthy v && negb (existsb (String.eqb v) seen)) eqn:Enew.
  + destruct k1 as [|x k1]; simpl in E; injection E as -> E.
    * exists [], vals. split; [reflexivity|tauto].
    * destruct (IH _ _ E Hd) as (pre & post & -> & Hpre).
      exists (x :: pre), post. split; [reflexivity|].
      intros [Hx|Hin]; [|tauto]. subst x.
      apply (firsts_not_last d seen (pre ++ c :: post)).
      rewrite E. apply in_or_app. right. now right.
  + destruct (IH _ _ E Hd) as (pre & post & -> & Hpre).
    exists (v :: pre), post. split; [reflexivity|].
    intros [Hx|Hin]; [|tauto]. subst v.
    assert (H : In d (firsts seen (pre ++ c :: post)))
      by (rewrite E; apply in_or_app; right; now right).
    destruct (firsts_In _ _ _ H) as [Ht' Hs'].
    now rewrite Ht', Hs' in Enew.
Qed.

(** [max] returns the first of the maximal items. *)
Lemma max_by_count_first items best :
  exists l1 l2,
    best :: items = l1 ++ max_by_count best items :: l2 /\
    (forall x, In x l1 -> snd x < snd (max_by_count best items)) /\
    (forall x, In x l2 -> snd x <= snd (max_by_count best items)).
Proof.
revert best. induction items as [|x items IH]; intros best; simpl.
- exists [], []. split; [reflexivity|]. split; intros ? [].
- destruct (Nat.ltb_spec (snd best) (snd x)) as [Hlt|Hge].
  + destruct (IH x) as (l1 & l2 & E & H1 & H2).
    exists (best :: l1), l2. split; [simpl; f_equal; exact E|].
    split; [|exact H2].
    intros y [<-|Hy]; [|now apply H1].
    destruct (max_by_count_spec items x) as [_ Hmax].
    specialize (Hmax x (or_introl eq_refl)). simpl in Hmax. lia.
  + destruct (IH best) as (l1 & l2 & E & H1 & H2).
    remember (max_by_count best items) as r eqn:Hr. clear Hr IH.
    destruct l1 as [|y l1]; simpl in E; injection E as Ey E.
    * exists [], (x :: l2). simpl. split; [now rewrite Ey, E|].
      split; [intros ? []|].
      intros z [<-|Hz]; [now rewrite <- Ey|now apply H2].
    * subst y. exists (best :: x :: l1), l2.
      split; [simpl; now rewrite E|]. split; [|exact H2].
      intros z [<-|[<-|Hz]].
      -- apply H1. now left.
      -- specialize (H1 best (or_introl eq_refl)). lia.
      -- apply H1. now right.
Qed.

(** X1. A tie goes to the colour that was voted first: when another
    colour has as many votes as the top colour, the first vote for the top
    colour comes, in the order of the bucket, before every vote for the
    other one. *)
Theorem top_color_tie_goes_to_first (b : bucket) (d : string) :
  is_top d b -> d <> top_color_at b ->
  exists pre post,
    PyDict.values b = pre ++ top_color_at b :: post /\ ~ In d pre.
Proof.
intros Hd Hne. unfold top_color_at in *.
destruct (count_colors b) as [|it rest] eqn:E.
- destruct Hd as (Ht & Hpos & _).
  rewrite <- (count_colors_get b d Ht), E in Hpos. simpl in Hpos. lia.
- destruct (max_by_count_first rest it) as (l1 & l2 & El & H1 & H2).
  destruct (max_by_count_spec rest it) as [Hin Hmax].
  set (r := max_by_count it rest) in *. rewrite <- E in Hin, El.
  destruct r as [c n] eqn:Er. simpl in *.
  destruct (count_colors_In b c n Hin) as (Hc & Hpos & Hn).
  destruct Hd as (Ht & Hdpos & Hdmax).
  pose proof (count_colors_voted b d Ht Hdpos) as Hdin.
  assert (Hdn : votes_for d b = n).
  { apply Nat.le_antisymm.
    - rewrite El in Hdin. apply in_app_or in Hdin as [Hd1|[Hd1|Hd1]].
      + specialize (H1 _ Hd1). simpl in H1. lia.
      + injection Hd1 as _ ->. lia.
      + apply (H2 _ Hd1).
    - subst n. now apply Hdmax. }
  rewrite Hdn in Hdin.
  assert (Hd2 : In (d, n) l2).
  { rewrite El in Hdin. apply in_app_or in Hdin as [Hd1|[Hd1|Hd1]].
    - specialize (H1 _ Hd1). simpl in H1. lia.
    - injection Hd1 as ->. congruence.
    - exact Hd1. }
  pose proof (keys_fold_count (PyDict.values b) []) as Hk.
  fold (count_colors b) in Hk. simpl in Hk.
  rewrite El in Hk. unfold PyDict.keys in Hk. rewrite map_app in Hk.
  simpl in Hk. symmetry in Hk.
  apply (firsts_order c d [] _ _ _ Hk).
  change d with (fst (d, n)). now apply in_map.
Qed.

Lemma top_color_tie_goes_to_first_witness :
  let b : bucket := [("A", "red"); ("B", "green"); ("C", "green"); ("D", "red")] in
  top_color_at b = "red" /\
  exists pre post, PyDict.values b = pre ++ "red" :: post /\ ~ In "green" pre.
Proof.
intros b. split; [reflexivity|].
apply (top_color_tie_goes_to_first b "green"); [|discriminate].
split; [reflexivity|]. split; [vm_compute; lia|].
intros d _. replace (votes_for "green" b) with 2 by reflexivity.
unfold votes_for, b. cbn [PyDict.values map snd count_occ].
destruct (string_dec "red" d); destruct (string_dec "green" d); try lia.
congruence.
Defined.

(** *** The ranges cover the voted positions and cannot be extended *)

Lemma extend_run_stops votes color fuel j j' :
  extend_run fuel votes color j = Some j' ->
  forall b, votes !! (j' + 1) = Some b -> top_color_at b <> color.
Proof.
revert j. induction fuel as [|fuel IH]; intros j; simpl; [discriminate|].
destruct (j + 1 <? length votes) eqn:E.
- destruct (votes !! (j + 1)) as [b|] eqn:Eb; [|discriminate].
  destruct (String.eqb (top_color_at b) color) eqn:Ec.
  + apply IH.
  + intros [= <-] b' Hb'. rewrite Eb in Hb'. injection Hb' as <-.
    now apply String.eqb_neq.
- intros [= <-] b Hb. apply Nat.ltb_ge in E.
  apply lookup_lt_Some in Hb. lia.
Qed.

Lemma ranges_loop_cover votes fuel i rs :
  ranges_loop fuel votes i [] = Some rs ->
  (forall k b, i <= k -> votes !! k = Some b ->
     truthy (top_color_at b) = true ->
     exists r, In r rs /\ r_start r <= k <= r_end r) /\
  (forall r b, In r rs -> votes !! (r_end r + 1) = Some b ->
     top_color_at b <> r_color r).
Proof.
revert i rs. induction fuel as [|fuel IH]; intros i rs; simpl; [discriminate|].
destruct (i <? length votes) eqn:E.
2:{ intros [= <-]. apply Nat.ltb_ge in E. split.
    - intros k b Hk Hb. apply lookup_lt_Some in Hb. lia.
    - intros r b []. }
apply Nat.ltb_lt in E.
destruct (votes !! i) as [bi|] eqn:Ei; [|discriminate].
destruct (truthy (top_color_at bi)) eqn:Et.
- destruct (extend_run (length votes) votes (top_color_at bi) i) as [j|] eqn:Ej;
    [|discriminate].
  rewrite ranges_loop_acc.
  destruct (ranges_loop fuel votes (j + 1) []) as [rs'|] eqn:Er; [|discriminate].
  simpl. intros [= <-]. destruct (IH _ _ Er) as [Hcov Hmax].
  destruct (extend_run_spec votes (top_color_at bi) (length votes) i)
    as (j0 & Hj0 & Hb0 & _); [assumption|lia|].
  rewrite Ej in Hj0. injection Hj0 as <-.
  split.
  + intros k b Hk Hb Htr. destruct (Nat.le_gt_cases k j) as [Hle|Hgt].
    * eexists. split; [now left|]. simpl. lia.
    * destruct (Hcov k b) as (r & Hr & Hkr); [lia|assumption|assumption|].
      exists r. split; [now right|assumption].
  + intros r b [<-|Hr] Hb; [|now apply (Hmax r b)].
    simpl in *. apply (extend_run_stops _ _ _ _ _ Ej b Hb).
- intros Hrs. destruct (IH _ _ Hrs) as [Hcov Hmax]. split; [|exact Hmax].
  intros k b Hk Hb Htr. destruct (Nat.eq_dec k i) as [->|Hne].
  + rewrite Ei in Hb. injection Hb as <-. congruence.
  + apply (Hcov k b); [lia|assumption|assumption].
Qed.

(** X2. The ranges of [ranges_from_votes] cover exactly the positions
    that have a top colour: a position with votes for a colour lies in one
    of the ranges, a position without lies in none. Each range is as long
    as it can be: the position after its end, if there is one, has another
    top colour or none. *)
Theorem ranges_cover_voted_positions (votes : list bucket) (rs : list Range) :
  ranges_from_votes votes = Some rs ->
  (forall k b, votes !! k = Some b ->
     (truthy (top_color_at b) = true <->
      exists r, In r rs /\ r_start r <= k <= r_end r)) /\
  (forall r b, In r rs -> votes !! (r_end r + 1) = Some b ->
     top_color_at b <> r_color r).
Proof.
intros Hrs. unfold ranges_from_votes in Hrs.
destruct (ranges_loop_cover _ _ _ _ Hrs) as [Hcov Hmax].
destruct (ranges_loop_spec votes (S (length votes)) 0) as (rs0 & Hr0 & Hok & _);
  [lia|].
rewrite Hrs in Hr0. injection Hr0 as <-.
split; [|exact Hmax].
intros k b Hb. split.
- intros Ht. apply (Hcov k b); [lia|assumption|assumption].
- intros (r & Hr & Hk). rewrite Forall_forall in Hok.
  destruct (Hok r (proj2 (list_elem_of_In _ _) Hr)) as (_ & Hc & Hcol).
  destruct (Hcol k Hk) as (b' & Hb' & Hcb). rewrite Hb in Hb'.
  injection Hb' as <-. now rewrite Hcb.
Qed.

Lemma ranges_cover_voted_positions_witness :
  let votes : list bucket :=
    [[("A", "red")]; []; [("A", "blue"); ("B", "blue")]; [("B", "blue")]] in
  ranges_from_votes votes = Some [mkRange 0 0 "red"; mkRange 2 3 "blue"] /\
  (forall k b, votes !! k = Some b ->
     (truthy (top_color_at b) = true <->
      exists r, In r [mkRange 0 0 "red"; mkRange 2 3 "blue"] /\
                r_start r <= k <= r_end r)).
Proof.
intros votes. split; [reflexivity|].
apply (ranges_cover_voted_positions votes). reflexivity.
Defined.

(** *** The ranges of one client *)

(** The colour that the client gives to the token at [k]: empty where
    the client has no vote, where the token breaks ranges, and past the
    end of the tokens or of the votes. *)
Definition mark (tokens : list ustr) (votes : list bucket)
    (client_id : string) (k : nat) : string :=
  match tokens !! k, votes !! k with
  | Some tok, Some b =>
      if Tokenizer.is_break_token tok then "" else vote_of client_id b
  | _, _ => ""
  end.

Lemma client_run_spec tokens votes client_id color limit fuel j :
  limit <= length tokens -> limit <= length votes ->
  truthy color = true ->
  j <= limit -> limit - j < fuel ->
  exists j', client_run fuel tokens votes client_id color limit j = Some j' /\
    j <= j' <= limit /\
    (forall k, j <= k < j' -> mark tokens votes client_id k = color) /\
    (j' < limit -> mark tokens votes client_id j' <> color).
Proof.
intros Ht Hv Hc. revert j. induction fuel as [|fuel IH]; intros j Hj Hf; [lia|].
simpl. destruct (j <? limit) eqn:E.
2:{ apply Nat.ltb_ge in E. exists j. split; [reflexivity|].
    split; [lia|]. split; intros; lia. }
apply Nat.ltb_lt in E.
destruct (lookup_lt_is_Some_2 tokens j) as [tok Htok]; [lia|].
destruct (lookup_lt_is_Some_2 votes j) as [b Hb]; [lia|].
rewrite Htok, Hb.
assert (Hm : mark tokens votes client_id j
             = if Tokenizer.is_break_token tok then "" else vote_of client_id b).
{ unfold mark. now rewrite Htok, Hb. }
destruct (Tokenizer.is_break_token tok) eqn:Eb; simpl.
- exists j. split; [reflexivity|]. split; [lia|]. split; [intros; lia|].
  intros _. rewrite Hm. intros <-. discriminate.
- destruct (String.eqb (vote_of client_id b) color) eqn:Ec.
  + apply String.eqb_eq in Ec.
    destruct (IH (j + 1)) as (j' & Hr & Hj' & Hin & Hout); [lia|lia|].
    exists j'. split; [exact Hr|]. split; [lia|]. split; [|exact Hout].
    intros k Hk. destruct (Nat.eq_dec k j) as [->|Hne]; [congruence|].
    apply Hin. lia.
  + apply String.eqb_neq in Ec.
    exists j. split; [reflexivity|]. split; [lia|]. split; [intros; lia|].
    intros _. now rewrite Hm.
Qed.

Lemma client_loop_acc tokens votes client_id limit fuel idx acc :
  client_loop fuel tokens votes client_id limit idx acc
  = option_map (app acc) (client_loop fuel tokens votes client_id limit idx []).
Proof.
revert idx acc. induction fuel as [|fuel IH]; intros idx acc; [reflexivity|].
cbn [client_loop app]. destruct (idx <? limit); [|simpl; now rewrite app_nil_r].
destruct (tokens !! idx) as [tok|]; [|reflexivity].
destruct (votes !! idx) as [b|]; [|reflexivity].
destruct (negb (truthy (vote_of client_id b)) || Tokenizer.is_break_token tok).
- apply IH.
- destruct (client_run (S limit) tokens votes client_id (vote_of client_id b)
              limit (idx + 1)) as [j|]; [|reflexivity].
  rewrite (IH _ (acc ++ _)), (IH _ [_]).
  destruct (client_loop fuel tokens votes client_id limit j []); simpl;
    [|reflexivity].
  now rewrite <- app_assoc.
Qed.

(** A range of the client lies within the tokens and the votes, and the
    client gives its colour to every token of it, none of which breaks
    ranges. *)
Definition client_range_ok (tokens : list ustr) (votes : list bucket)
    (client_id : string) (r : Range) : Prop :=
  r_start r <= r_end r /\ r_end r < length tokens /\ r_end r < length votes /\
  truthy (r_color r) = true /\
  forall k, r_start r <= k <= r_end r ->
    mark tokens votes client_id k = r_color r.

Lemma chain_weaken lo lo' rs : lo' <= lo -> chain lo rs -> chain lo' rs.
Proof.
intros Hle. destruct rs as [|r rs]; simpl; [trivial|].
intros (H1 & H2 & H3). repeat split; try assumption. lia.
Qed.

Lemma client_loop_spec tokens votes client_id limit fuel idx :
  limit <= length tokens -> limit <= length votes ->
  idx <= limit -> limit - idx < fuel ->
  exists rs,
    client_loop fuel tokens votes client_id limit idx [] = Some rs /\
    Forall (client_range_ok tokens votes client_id) rs /\
    (forall r, In r rs -> r_end r < limit) /\
    chain idx rs /\
    (forall k, idx <= k < limit ->
       truthy (mark tokens votes client_id k) = true ->
       exists r, In r rs /\ r_start r <= k <= r_end r) /\
    (forall r, In r rs -> r_end r + 1 < limit ->
       mark tokens votes client_id (r_end r + 1) <> r_color r) /\
    (forall r, In r rs -> idx < r_start r ->
       mark tokens votes client_id (r_start r - 1) <> r_color r).
Proof.
intros Ht Hv. revert idx. induction fuel as [|fuel IH]; intros idx Hi Hf; [lia|].
cbn [client_loop app]. destruct (idx <? limit) eqn:E.
2:{ apply Nat.ltb_ge in E. exists []. split; [reflexivity|].
    split; [constructor|]. split; [intros r []|]. split; [exact I|].
    split; [intros; lia|]. split; intros r []. }
apply Nat.ltb_lt in E.
destruct (lookup_lt_is_Some_2 tokens idx) as [tok Htok]; [lia|].
destruct (lookup_lt_is_Some_2 votes idx) as [b Hb]; [lia|].
rewrite Htok, Hb.
assert (Hm : mark tokens votes client_id idx
             = if Tokenizer.is_break_token tok then "" else vote_of client_id b).
{ unfold mark. now rewrite Htok, Hb. }
destruct (negb (truthy (vote_of client_id b)) || Tokenizer.is_break_token tok)
  eqn:Eskip.
- destruct (IH (idx + 1)) as (rs & Hrs & Hok & Hlim & Hch & Hcov & Hmax & Hleft);
    [lia|lia|].
  assert (Hm0 : truthy (mark tokens votes client_id idx) = false).
  { rewrite Hm. destruct (Tokenizer.is_break_token tok); [reflexivity|].
    rewrite orb_false_r in Eskip. now apply negb_true_iff. }
  exists rs. split; [exact Hrs|]. split; [exact Hok|]. split; [exact Hlim|].
  split; [apply (chain_weaken (idx + 1)); [lia|exact Hch]|].
  split; [|split; [exact Hmax|]].
  + intros k Hk Htr. destruct (Nat.eq_dec k idx) as [->|Hne]; [congruence|].
    apply Hcov; [lia|exact Htr].
  + intros r Hr Hlt. destruct (Nat.eq_dec (r_start r) (idx + 1)) as [Heq|Hne].
    * replace (r_start r - 1) with idx by lia.
      rewrite List.Forall_forall in Hok.
      destruct (Hok r Hr) as (_ & _ & _ & Hc & _).
      intros Heq'. rewrite Heq' in Hm0. congruence.
    * apply Hleft; [exact Hr|].
      assert (idx + 1 <= r_start r); [|lia].
      clear -Hch Hr. revert Hch Hr. generalize (idx + 1).
      induction rs as [|r0 rs IHrs]; intros lo Hch []; simpl in Hch.
      -- subst. lia.
      -- destruct Hch as (H1 & H2 & H3). specialize (IHrs _ H3 H). lia.
- apply orb_false_iff in Eskip. destruct Eskip as [Etr Ebr].
  apply negb_false_iff in Etr. rewrite Ebr in Hm.
  destruct (client_run_spec tokens votes client_id (vote_of client_id b) limit
              (S limit) (idx + 1)) as (j & Hr & Hj & Hin & Hout);
    [assumption|assumption|assumption|lia|lia|].
  rewrite Hr, client_loop_acc.
  destruct (IH j) as (rs & Hrs & Hok & Hlim & Hch & Hcov & Hmax & Hleft);
    [lia|lia|].
  rewrite Hrs. simpl. eexists. split; [reflexivity|].
  assert (Hrun : forall k, idx <= k <= j - 1 ->
            mark tokens votes client_id k = vote_of client_id b).
  { intros k Hk. destruct (Nat.eq_dec k idx) as [->|Hne]; [exact Hm|].
    apply Hin. lia. }
  split.
  { constructor; [|exact Hok]. unfold client_range_ok. simpl.
    split; [lia|]. split; [lia|]. split; [lia|]. split; [exact Etr|exact Hrun]. }
  split.
  { intros r [<-|Hr']; [simpl; lia|now apply Hlim]. }
  split.
  { simpl. split; [lia|]. split; [lia|].
    now replace (S (j - 1)) with j by lia. }
  split; [|split].
  + intros k Hk Htr. destruct (Nat.lt_ge_cases k j) as [Hlt|Hge].
    * eexists. split; [now left|]. simpl. lia.
    * destruct (Hcov k) as (r & Hr' & Hkr); [lia|exact Htr|].
      exists r. split; [now right|exact Hkr].
  + intros r [<-|Hr'] Hlt; [|now apply Hmax].
    simpl in *. replace (j - 1 + 1) with j in * by lia. now apply Hout.
  + intros r [<-|Hr'] Hlt; [simpl in *; lia|].
    destruct (Nat.eq_dec (r_start r) j) as [Heq|Hne].
    * rewrite Heq. rewrite (Hrun (j - 1)) by lia.
      intros Heq'. 
      rewrite List.Forall_forall in Hok.
      destruct (Hok r Hr') as (Hse & _ & _ & _ & Hcol).
      assert (Hj_lt : j < limit) by (specialize (Hlim r Hr'); lia).
      apply (Hout Hj_lt). rewrite (Hcol j) by lia. now symmetry.
    * apply Hleft; [exact Hr'|].
      assert (j <= r_start r); [|lia].
      clear -Hch Hr'. revert Hch Hr'. generalize j.
      induction rs as [|r0 rs IHrs]; intros lo Hch []; simpl in Hch.
      -- subst. lia.
      -- destruct Hch as (H1 & H2 & H3). specialize (IHrs _ H3 H). lia.
Qed.

Lemma mark_out_of_range tokens votes client_id k :
  Nat.min (length tokens) (length votes) <= k ->
  mark tokens votes client_id k = "".
Proof.
intros Hk. unfold mark.
destruct (tokens !! k) as [tok|] eqn:E1; [|reflexivity].
destruct (votes !! k) as [b|] eqn:E2; [|reflexivity].
apply lookup_lt_Some in E1, E2. lia.
Qed.

(** X29. [client_ranges] always returns, and its ranges are the maximal
    runs of tokens to which the client gives one colour: every range lies
    within the tokens and the votes, has a non-empty colour, which the
    client gives to each of its tokens, and holds no token that breaks
    ranges; the ranges come in increasing order and do not overlap; a
    token is inside a range exactly when the client has voted for it and
    it does not break ranges; and a range cannot be extended, neither to
    the right nor to the left, by a token that carries its colour. *)
Theorem client_ranges_are_maximal_runs (tokens : list ustr)
    (votes : list bucket) (client_id : string) :
  exists rs,
    client_ranges tokens votes client_id = Some rs /\
    Forall (client_range_ok tokens votes client_id) rs /\
    chain 0 rs /\
    (forall k, truthy (mark tokens votes client_id k) = true <->
               exists r, In r rs /\ r_start r <= k <= r_end r) /\
    (forall r, In r rs ->
       mark tokens votes client_id (r_end r + 1) <> r_color r) /\
    (forall r, In r rs -> 0 < r_start r ->
       mark tokens votes client_id (r_start r - 1) <> r_color r).
Proof.
unfold client_ranges. cbv zeta.
set (limit := Nat.min (length tokens) (length votes)).
destruct (client_loop_spec tokens votes client_id limit (S limit) 0)
  as (rs & Hrs & Hok & Hlim & Hch & Hcov & Hmax & Hleft);
  [subst limit; lia|subst limit; lia|lia|lia|].
exists rs. split; [exact Hrs|]. split; [exact Hok|]. split; [exact Hch|].
rewrite List.Forall_forall in Hok.
split; [|split; [|exact Hleft]].
- intros k. split.
  + intros Htr. destruct (Nat.lt_ge_cases k limit) as [Hlt|Hge].
    * apply Hcov; [lia|exact Htr].
    * rewrite (mark_out_of_range tokens votes client_id k Hge) in Htr.
      discriminate.
  + intros (r & Hr & Hk). destruct (Hok r Hr) as (_ & _ & _ & Hc & Hcol).
    now rewrite (Hcol k Hk).
- intros r Hr. destruct (Nat.lt_ge_cases (r_end r + 1) limit) as [Hlt|Hge].
  + now apply Hmax.
  + rewrite (mark_out_of_range tokens votes client_id _ Hge).
    destruct (Hok r Hr) as (_ & _ & _ & Hc & _).
    intros Heq. rewrite <- Heq in Hc. discriminate.
Qed.

(** The ranges of one client on a sentence of five tokens with a comma:
    the comma cuts the run of the colour in two. *)
Example client_ranges_cut_at_punctuation :
  client_ranges [u "a"; u "b"; u ","; u "c"; u "d"]
    [[("c1", "red")]; [("c1", "red"); ("c2", "blue")]; [("c1", "red")];
     [("c1", "red")]; [("c2", "blue")]]
    "c1"
  = Some [mkRange 0 1 "red"; mkRange 3 3 "red"].
Proof. reflexivity. Qed.
End AggregationSpec.

(** ** The document store *)

Module DocumentStoreSpec.
Import Names DocumentStore Aggregation.

(** *** The lock flag *)

(** C6. On a document whose lock flag is set, [apply_highlight] and
    [clear_client] return [False] for every client, range, colour and
    time stamp, and leave the whole store as it was: the states in memory,
    the snapshot files, and also the registry of mutexes, the flag being
    tested before [_doc_lock] is reached. *)
Theorem locked_document_rejects_votes (env : Env) (now : Z)
    (doc_id client_id : string) (start end_ : Z) (color : string)
    (timestamp : option Z) (s : Store) :
  is_locked doc_id s = true ->
  apply_highlight env now doc_id client_id start end_ color timestamp s
    = (Ok false, s) /\
  clear_client env now doc_id client_id timestamp s = (Ok false, s).
Proof.
  intros Hl. unfold apply_highlight, clear_client. now rewrite Hl.
Qed.

Lemma locked_document_rejects_votes_witness :
  let env :=
    mkEnv (fun _ => Some (u "The quick fox")) (fun x => x) posix_name
      (mkCharrefTables [] [] []) in
  let s :=
    snd (set_locked "doc1" true
           (snd (apply_highlight env 1 "doc1" "A" 0 1 "red" None
                   (Store_init ∅)))) in
  is_locked "doc1" s = true /\
  apply_highlight env 2 "doc1" "B" 1 1 "green" (Some 7%Z) s = (Ok false, s) /\
  clear_client env 2 "doc1" "B" (Some 7%Z) s = (Ok false, s).
Proof.
  split; [reflexivity|].
  apply locked_document_rejects_votes. reflexivity.
Defined.

(** *** Reversed ranges *)

Lemma swap_reversed (a b : Z) :
  (if (a >? b)%Z then (b, a) else (a, b))
  = (if (b >? a)%Z then (a, b) else (b, a)).
Proof.
  destruct (Z.gtb_spec a b), (Z.gtb_spec b a); try reflexivity; try lia.
  f_equal; lia.
Qed.

Lemma apply_highlight_symmetric (env : Env) (now : Z)
    (doc_id client_id : string) (start end_ : Z) (color : string)
    (timestamp : option Z) (s : Store) :
  apply_highlight env now doc_id client_id start end_ color timestamp s
  = apply_highlight env now doc_id client_id end_ start color timestamp s.
Proof.
  unfold apply_highlight. destruct (is_locked doc_id s); [reflexivity|].
  unfold with_lock, SE.bind.
  destruct (_ensure_tokens_locked env now doc_id None _) as [[st|e] s'];
    [|reflexivity].
  destruct (tokens st) as [|t ts] eqn:Et; [reflexivity|].
  now rewrite swap_reversed.
Qed.

(** C7. [apply_highlight] with [start > end] returns the same value and
    leaves the same store as the call with the two arguments swapped. *)
Theorem apply_highlight_reversed_range (env : Env) (now : Z)
    (doc_id client_id : string) (start end_ : Z) (color : string)
    (timestamp : option Z) (s : Store) :
  (start > end_)%Z ->
  apply_highlight env now doc_id client_id start end_ color timestamp s
  = apply_highlight env now doc_id client_id end_ start color timestamp s.
Proof.
  intros _. apply apply_highlight_symmetric.
Qed.

Lemma apply_highlight_reversed_range_witness :
  let env :=
    mkEnv (fun _ => Some (u "The quick fox")) (fun x => x) posix_name
      (mkCharrefTables [] [] []) in
  (2 > 1)%Z /\
  apply_highlight env 1 "doc1" "A" 2 1 "red" None (Store_init ∅)
  = apply_highlight env 1 "doc1" "A" 1 2 "red" None (Store_init ∅) /\
  (votes <$> _states
     (snd (apply_highlight env 1 "doc1" "A" 2 1 "red" None (Store_init ∅)))
     !! "doc1")
  = Some [[]; [("A", "red")]; [("A", "red")]].
Proof.
  split; [lia|]. split; [|reflexivity].
  apply apply_highlight_reversed_range. lia.
Defined.

(** *** The lengths of votes and tokens *)

Definition votes_match (st : DocState) : Prop :=
  length (votes st) = length (tokens st).

(** Every state held in memory has as many vote maps as tokens. *)
Definition store_ok (s : Store) : Prop :=
  forall doc_id st, _states s !! doc_id = Some st -> votes_match st.

(** A computation keeps [store_ok] and, when it returns, returns a
    value that satisfies [Q]. *)
Definition keeps {A} (m : M A) (Q : A -> Prop) : Prop :=
  forall s, store_ok s ->
    store_ok (snd (m s)) /\ forall a, fst (m s) = Ok a -> Q a.

Lemma ensure_votes_length_spec st :
  tokens (_ensure_votes_length st) = tokens st /\
  updated (_ensure_votes_length st) = updated st /\
  source_name (_ensure_votes_length st) = source_name st /\
  votes (_ensure_votes_length st)
  = take (length (tokens st)) (votes st)
    ++ replicate (length (tokens st) - length (votes st)) [].
Proof.
  unfold _ensure_votes_length. simpl. repeat split.
  destruct (Nat.ltb_spec (length (votes st)) (length (tokens st))) as [H|H].
  - rewrite take_ge by lia. reflexivity.
  - replace (length (tokens st) - length (votes st)) with 0 by lia.
    simpl. rewrite app_nil_r.
    destruct (Nat.ltb_spec (length (tokens st)) (length (votes st))) as [H'|H'];
      [reflexivity|].
    rewrite take_ge by lia. reflexivity.
Qed.

Lemma ensure_votes_length_ok st : votes_match (_ensure_votes_length st).
Proof.
  unfold votes_match.
  destruct (ensure_votes_length_spec st) as (-> & _ & _ & ->).
  rewrite length_app, length_take, length_replicate. lia.
Qed.

Lemma ensure_votes_length_id st :
  votes_match st -> _ensure_votes_length st = st.
Proof.
  unfold votes_match, _ensure_votes_length. intros H. rewrite H.
  rewrite Nat.ltb_irrefl. now destruct st.
Qed.

Lemma store_ok_insert doc_id st s :
  votes_match st -> store_ok s -> store_ok (set_states (insert doc_id st) s).
Proof.
  intros Hst Hs d st'. simpl.
  destruct (decide (doc_id = d)) as [->|Hne].
  - rewrite lookup_insert_eq. now intros [= <-].
  - rewrite lookup_insert_ne by assumption. apply Hs.
Qed.

Lemma keeps_ret {A} (a : A) (Q : A -> Prop) : Q a -> keeps (SE.ret a) Q.
Proof. intros Ha s Hs. split; [assumption|]. now intros ? [= <-]. Qed.

Lemma keeps_lift {A} (r : Result HTTPException A) :
  keeps (SE.lift r) (fun a => r = Ok a).
Proof. intros s Hs. split; [assumption|]. simpl. now intros a ->. Qed.

Lemma keeps_bind {A B} (m : M A) (k : A -> M B) (P : A -> Prop)
    (Q : B -> Prop) :
  keeps m P -> (forall a, P a -> keeps (k a) Q) -> keeps (SE.bind m k) Q.
Proof.
  intros Hm Hk s Hs. unfold SE.bind.
  destruct (Hm s Hs) as [Hs' Ha].
  destruct (m s) as [[a|e] s']; simpl in *.
  - apply (Hk a); auto.
  - split; [assumption|discriminate].
Qed.

Lemma keeps_weaken {A} (m : M A) (P Q : A -> Prop) :
  keeps m P -> (forall a, P a -> Q a) -> keeps m Q.
Proof.
  intros Hm HPQ s Hs. destruct (Hm s Hs) as [Hs' Ha]. split; auto.
Qed.

Lemma keeps_with_lock {A} doc_id (m : M A) (Q : A -> Prop) :
  keeps m Q -> keeps (with_lock doc_id m) Q.
Proof. intros Hm s Hs. unfold with_lock. apply Hm. exact Hs. Qed.

Lemma load_state_ok env doc_id files :
  votes_match (_load_state_from_disk env doc_id files).
Proof.
  unfold _load_state_from_disk.
  destruct (files !! doc_id) as [[|raw]|]; try reflexivity.
  apply ensure_votes_length_ok.
Qed.

Lemma keeps_get_state env doc_id : keeps (get_state env doc_id) votes_match.
Proof.
  intros s Hs. unfold get_state.
  destruct (_states s !! doc_id) as [st|] eqn:E; simpl.
  - split; [assumption|]. intros a [= <-]. eauto.
  - split.
    + apply store_ok_insert; [apply load_state_ok|assumption].
    + intros a [= <-]. apply load_state_ok.
Qed.

Lemma keeps_put_state doc_id st :
  votes_match st -> keeps (put_state doc_id st) (fun _ => True).
Proof.
  intros Hst s Hs. split; [|trivial].
  now apply store_ok_insert.
Qed.

Lemma keeps_save_state doc_id st :
  keeps (save_state doc_id st) votes_match.
Proof.
  intros s Hs. unfold save_state, SE.bind, SE.modify, put_state, SE.ret.
  simpl. split.
  - apply (store_ok_insert doc_id _ (set_disk _ s));
      [apply ensure_votes_length_ok|exact Hs].
  - intros a [= <-]. apply ensure_votes_length_ok.
Qed.

Lemma keeps_ensure_tokens_locked env now doc_id name :
  keeps (_ensure_tokens_locked env now doc_id name) votes_match.
Proof.
  unfold _ensure_tokens_locked.
  eapply keeps_bind; [apply keeps_get_state|].
  intros st Hst. destruct (tokens st); [|now apply keeps_ret].
  eapply keeps_bind; [apply keeps_lift|].
  intros [toks resolved] _.
  eapply keeps_bind;
    [apply keeps_put_state, ensure_votes_length_ok|].
  intros _ _. apply keeps_save_state.
Qed.

Lemma paint_step_length client_id color acc idx :
  length (fst (paint_step client_id color acc idx)) = length (fst acc).
Proof.
  unfold paint_step. destruct (fst acc !! idx) as [b|]; [|reflexivity].
  destruct (paint_bucket client_id color b). simpl. apply length_insert.
Qed.

Lemma paint_length client_id color start end_ v :
  length (fst (paint client_id color start end_ v)) = length v.
Proof.
  unfold paint. generalize (seq start (end_ + 1 - start)).
  change v with (fst (v, false)) at 2. generalize (v, false).
  intros acc l. revert acc.
  induction l as [|i l IH]; intros acc; simpl; [reflexivity|].
  rewrite IH. apply paint_step_length.
Qed.

Lemma unvote_length client_id v :
  length (fst (unvote client_id v)) = length v.
Proof.
  unfold unvote.
  assert (G : forall acc,
             length (fst (fold_left (unvote_step client_id) v acc))
             = length (fst acc) + length v).
  { induction v as [|b v IH]; intros acc; simpl; [lia|].
    rewrite IH. unfold unvote_step.
    destruct (PyDict.get client_id b); simpl; rewrite length_app; simpl; lia. }
  now rewrite G.
Qed.

Lemma keeps_apply_highlight env now doc_id client_id start end_ color ts :
  keeps (apply_highlight env now doc_id client_id start end_ color ts)
    (fun _ => True).
Proof.
  intros s Hs. unfold apply_highlight.
  destruct (is_locked doc_id s); [now split|].
  revert s Hs. apply keeps_with_lock.
  eapply keeps_bind; [apply keeps_ensure_tokens_locked|].
  intros st Hst. destruct (tokens st) as [|t ts'] eqn:Et;
    [now apply keeps_ret|].
  destruct (if (_ >? _)%Z then _ else _) as [a b].
  rewrite (ensure_votes_length_id st Hst).
  pose proof (paint_length client_id color (Z.to_nat a) (Z.to_nat b) (votes st))
    as Hp.
  destruct (paint client_id color (Z.to_nat a) (Z.to_nat b) (votes st))
    as [v changed]. simpl in Hp.
  assert (Hv : forall upd, votes_match (mkDocState (tokens st) v upd (source_name st))).
  { intros upd. unfold votes_match. simpl. rewrite Hp. exact Hst. }
  eapply keeps_bind; [apply keeps_put_state, Hv|].
  intros _ _. destruct changed; [|now apply keeps_ret].
  eapply keeps_bind; [apply keeps_put_state, Hv|].
  intros _ _. eapply keeps_bind; [apply keeps_save_state|].
  intros _ _. now apply keeps_ret.
Qed.

Lemma keeps_clear_client env now doc_id client_id ts :
  keeps (clear_client env now doc_id client_id ts) (fun _ => True).
Proof.
  intros s Hs. unfold clear_client.
  destruct (is_locked doc_id s); [now split|].
  revert s Hs. apply keeps_with_lock.
  eapply keeps_bind; [apply keeps_ensure_tokens_locked|].
  intros st Hst.
  pose proof (unvote_length client_id (votes st)) as Hp.
  destruct (unvote client_id (votes st)) as [v changed]. simpl in Hp.
  assert (Hv : forall upd, votes_match (mkDocState (tokens st) v upd (source_name st))).
  { intros upd. unfold votes_match. simpl. rewrite Hp. exact Hst. }
  eapply keeps_bind; [apply keeps_put_state, Hv|].
  intros _ _. destruct changed; [|now apply keeps_ret].
  eapply keeps_bind; [apply keeps_put_state, Hv|].
  intros _ _. eapply keeps_bind; [apply keeps_save_state|].
  intros _ _. now apply keeps_ret.
Qed.

Lemma keeps_retokenize env now doc_id name :
  keeps (retokenize env now doc_id name) votes_match.
Proof.
  unfold retokenize.
  eapply keeps_bind; [apply keeps_lift|].
  intros [toks resolved] _. apply keeps_with_lock.
  eapply keeps_bind; [apply keeps_get_state|].
  intros st _.
  eapply keeps_bind; [apply keeps_put_state|].
  { unfold votes_match. simpl. apply length_replicate. }
  intros _ _. apply keeps_save_state.
Qed.

Lemma keeps_clear_votes env now doc_id :
  keeps (clear_votes env now doc_id) votes_match.
Proof.
  unfold clear_votes. apply keeps_with_lock.
  eapply keeps_bind; [apply keeps_ensure_tokens_locked|].
  intros st _.
  eapply keeps_bind; [apply keeps_put_state|].
  { unfold votes_match. simpl. apply length_replicate. }
  intros _ _. apply keeps_save_state.
Qed.

Lemma after_ok env now c s : store_ok s -> store_ok (after env now c s).
Proof.
  intros Hs. destruct c; simpl.
  - now apply keeps_get_state.
  - now apply (keeps_with_lock _ _ _ (keeps_ensure_tokens_locked env now _ _)).
  - now apply keeps_retokenize.
  - now apply keeps_clear_votes.
  - now apply keeps_apply_highlight.
  - now apply keeps_clear_client.
  - now apply keeps_save_state.
  - exact Hs.
Qed.

Lemma run_ok env calls s : store_ok s -> store_ok (run env calls s).
Proof.
  revert s. induction calls as [|[now c] calls IH]; intros s Hs; simpl;
    [assumption|].
  apply IH. now apply after_ok.
Qed.

(** C5. Whatever snapshot files the store starts from, and whatever
    calls of [get_state], [ensure_tokens], [retokenize], [clear_votes],
    [apply_highlight], [clear_client], [save_state] and [set_locked] are
    made on it, in any order and on any documents, every document state
    in memory has as many vote maps as tokens, and so has the state that
    [get_state] then returns. [_ensure_votes_length] gets there by
    truncating the votes to the tokens or padding them with empty maps. *)
Theorem votes_length_invariant (env : Env) (files : gmap string DiskFile)
    (calls : list (Z * Call)) :
  let s := run env calls (Store_init files) in
  (forall doc_id st, _states s !! doc_id = Some st ->
     length (votes st) = length (tokens st)) /\
  (forall doc_id st, fst (get_state env doc_id s) = Ok st ->
     length (votes st) = length (tokens st)) /\
  (forall st, tokens (_ensure_votes_length st) = tokens st /\
     votes (_ensure_votes_length st)
     = take (length (tokens st)) (votes st)
       ++ replicate (length (tokens st) - length (votes st)) []).
Proof.
  intros s.
  assert (Hs : store_ok s).
  { apply run_ok. intros d st. unfold Store_init. simpl.
    rewrite lookup_empty. discriminate. }
  split; [exact Hs|]. split.
  - intros d st. now apply keeps_get_state.
  - intros st. destruct (ensure_votes_length_spec st) as (H1 & _ & _ & H2).
    now split.
Qed.

(** The indices that the loop of [apply_highlight] visits lie within the
    tokens, hence within the votes once their lengths agree. *)
Lemma paint_indices_in_range (start end_ : Z) (n idx : nat) :
  0 < n ->
  let p :=
    if (clamp start n >? clamp end_ n)%Z
    then (clamp end_ n, clamp start n) else (clamp start n, clamp end_ n) in
  In idx (seq (Z.to_nat (fst p)) (Z.to_nat (snd p) + 1 - Z.to_nat (fst p))) ->
  idx < n.
Proof.
  intros Hn p Hin. apply in_seq in Hin. subst p. unfold clamp in *.
  destruct (Z.gtb_spec (Z.max 0 (Z.min start (Z.of_nat n - 1)))
              (Z.max 0 (Z.min end_ (Z.of_nat n - 1)))); simpl in Hin; lia.
Qed.

(** *** Reset *)

(** The name [retokenize] reads the source from: the override when there
    is one, the default otherwise. *)
Definition retokenize_source (env : Env) (source_name : option string)
  : string :=
  if truthy_opt source_name then _sanitize_source_name env source_name
  else DEFAULT_SOURCE_NAME.

(** The snapshot that [save_state] writes for a state. *)
Definition snapshot_of (st : DocState) : DiskFile :=
  Json (mkSnapshot (Some (tokens st)) (Some (votes st)) (updated st)
          (Some (source_name st))).

Lemma get_state_returns env doc_id s :
  exists st s', get_state env doc_id s = (Ok st, s').
Proof.
  unfold get_state. destruct (_states s !! doc_id); eauto.
Qed.

Lemma save_state_result doc_id st s :
  votes_match st ->
  save_state doc_id st s
  = (Ok st,
     mkStore (<[doc_id := st]> (_states s)) (_locks s) (_lock_flags s)
       (<[doc_id := snapshot_of st]> (disk s))).
Proof.
  intros Hm. unfold save_state. rewrite (ensure_votes_length_id st Hm).
  reflexivity.
Qed.

Lemma retokenize_returns env now doc_id source_name s toks resolved :
  _tokenize_from_source env (retokenize_source env source_name)
    = Ok (toks, resolved) ->
  let st := mkDocState toks (replicate (length toks) []) (Some now)
              (retokenize_source env source_name) in
  resolved = retokenize_source env source_name /\
  exists s0,
    retokenize env now doc_id source_name s
    = (Ok st,
       mkStore (<[doc_id := st]> (_states s0)) (_locks s0) (_lock_flags s0)
         (<[doc_id := snapshot_of st]> (disk s0))).
Proof.
  intros E st.
  assert (Hr : resolved = retokenize_source env source_name).
  { unfold _tokenize_from_source in E.
    destruct (read_source_text env _); [|discriminate]. now injection E. }
  split; [assumption|]. subst resolved.
  assert (Hm : votes_match st) by (apply length_replicate).
  unfold retokenize. fold (retokenize_source env source_name).
  unfold SE.bind at 1. unfold SE.lift. rewrite E. unfold with_lock.
  unfold SE.bind at 1.
  destruct (get_state_returns env doc_id
              (mkStore (_states s) ({[doc_id]} ∪ _locks s) (_lock_flags s)
                 (disk s))) as (st0 & s0 & G).
  rewrite G. unfold SE.bind at 1. unfold put_state at 1, SE.modify at 1.
  fold st. rewrite (save_state_result doc_id st _ Hm).
  exists s0. cbn [set_states _states _locks _lock_flags disk].
  rewrite insert_insert_eq. reflexivity.
Qed.

(** C4, what the code does. [retokenize] tokenizes the source named by
    the override when one is given, and the default source otherwise.
    Unlike [_ensure_tokens_locked], which names its source through
    [_resolve_source_name], it never consults the source name stored in
    the document. When that source can be read, the document gets the new
    tokens, one empty vote map for each of them, the current time and the
    source name, in memory and in its snapshot file, and this state is
    returned. When the source is missing the call raises the not-found
    error and the store is as it was. *)
Theorem retokenize_spec (env : Env) (now : Z) (doc_id : string)
    (source_name : option string) (s : Store) :
  match _tokenize_from_source env (retokenize_source env source_name) with
  | Ok (toks, resolved) =>
      let st := mkDocState toks (replicate (length toks) []) (Some now)
                  (retokenize_source env source_name) in
      let s' := snd (retokenize env now doc_id source_name s) in
      resolved = retokenize_source env source_name /\
      fst (retokenize env now doc_id source_name s) = Ok st /\
      length (votes st) = length (tokens st) /\
      Forall (fun b => b = []) (votes st) /\
      _states s' !! doc_id = Some st /\
      disk s' !! doc_id = Some (snapshot_of st)
  | Raise e => retokenize env now doc_id source_name s = (Raise e, s)
  end.
Proof.
  destruct (_tokenize_from_source env (retokenize_source env source_name))
    as [[toks resolved]|e] eqn:E.
  - destruct (retokenize_returns env now doc_id source_name s toks resolved E)
      as (Hr & s0 & ->).
    cbn [fst snd _states disk votes tokens].
    repeat split; try assumption.
    + apply length_replicate.
    + now apply Forall_replicate.
    + now rewrite lookup_insert_eq.
    + now rewrite lookup_insert_eq.
  - unfold retokenize. fold (retokenize_source env source_name).
    unfold SE.bind, SE.lift. now rewrite E.
Qed.

(** C4 fails on the code: a document tokenized from [notes.txt] and
    reset without an override is re-tokenized from the default source,
    not from the stored name, which [_resolve_source_name] yields and
    which [_ensure_tokens_locked] would have read. The document changes
    its text without having been asked to. *)
Lemma retokenize_ignores_stored_name :
  let env :=
    mkEnv (fun n => if String.eqb n "text.txt" then Some (u "default words")
                    else if String.eqb n "notes.txt" then Some (u "my notes")
                    else None)
      (fun x => x) posix_name (mkCharrefTables [] [] []) in
  let s0 := snd (ensure_tokens env 1 "doc1" (Some "notes.txt") (Store_init ∅)) in
  let st0 := mkDocState [u "my"; u "notes"] [[]; []] (Some 1%Z) "notes.txt" in
  _states s0 !! "doc1" = Some st0 /\
  _resolve_source_name env st0 None = "notes.txt" /\
  _tokenize_from_source env "notes.txt" = Ok ([u "my"; u "notes"], "notes.txt") /\
  fst (retokenize env 2 "doc1" None s0)
  = Ok (mkDocState [u "default"; u "words"] [[]; []] (Some 2%Z) "text.txt").
Proof.
  vm_compute. repeat split.
Qed.

(** *** The scenario of the specification *)

(** The document of the scenario: its tokens are known and nobody has
    voted yet. *)
Definition fox_store : Store :=
  mkStore
    {[ "doc1" :=
         mkDocState [u "The"; u "quick"; u "fox"] [[]; []; []] None
           DEFAULT_SOURCE_NAME ]}
    ∅ ∅ ∅.

(** The votes of ["doc1"] after client A has voted red over [0, 1] and
    client B green over [1, 1]. *)
Definition fox_votes (env : Env) (t1 t2 : Z) : option (list bucket) :=
  let s1 := snd (apply_highlight env t1 "doc1" "A" 0 1 "red" None fox_store) in
  let s2 := snd (apply_highlight env t2 "doc1" "B" 1 1 "green" None s1) in
  votes <$> _states s2 !! "doc1".

(** C1, as the code has it. In the scenario the tie at index 1 goes to
    the colour seen first there, A's red; positions 0 and 1 then have the
    same top colour and are merged into the single range
    [{start: 0, end: 1, color: red}]. *)
Theorem scenario_ranges (env : Env) (t1 t2 : Z) :
  fox_votes env t1 t2
    = Some [[("A", "red")]; [("A", "red"); ("B", "green")]; []] /\
  (top_color_at <$> (fox_votes env t1 t2 ≫= (.!! 1))) = Some "red" /\
  (fox_votes env t1 t2 ≫= ranges_from_votes) = Some [mkRange 0 1 "red"].
Proof.
  assert (H : fox_votes env t1 t2
              = Some [[("A", "red")]; [("A", "red"); ("B", "green")]; []])
    by (vm_compute; reflexivity).
  rewrite H. repeat split.
Qed.

(** C1, as the claim states it, fails: the ranges are not the two
    one-token ranges. *)
Lemma scenario_ranges_not_split :
  let env :=
    mkEnv (fun _ => None) (fun x => x) posix_name (mkCharrefTables [] [] []) in
  (fox_votes env 1 2 ≫= ranges_from_votes)
  <> Some [mkRange 0 0 "red"; mkRange 1 1 "red"].
Proof.
  vm_compute. discriminate.
Qed.

(** *** What the calls do to a document that has its tokens *)

Lemma ensure_tokens_locked_cached env now doc_id name s st :
  _states s !! doc_id = Some st -> tokens st <> [] ->
  _ensure_tokens_locked env now doc_id name s = (Ok st, s).
Proof.
intros Hst Ht. unfold _ensure_tokens_locked, SE.bind, get_state.
rewrite Hst. destruct (tokens st); [congruence|reflexivity].
Qed.

Lemma ensure_tokens_locked_post env now doc_id name s st s' :
  _ensure_tokens_locked env now doc_id name s = (Ok st, s') ->
  _states s' !! doc_id = Some st /\ _locks s' = _locks s /\
  _lock_flags s' = _lock_flags s.
Proof.
unfold _ensure_tokens_locked, SE.bind.
destruct (get_state env doc_id s) as [[st0|e0] s0] eqn:G.
2:{ unfold get_state in G. destruct (_ !! _); discriminate. }
assert (H0 : _states s0 !! doc_id = Some st0 /\ _locks s0 = _locks s /\
             _lock_flags s0 = _lock_flags s).
{ unfold get_state in G. destruct (_states s !! doc_id) eqn:E.
  - injection G as <- <-. auto.
  - injection G as <- <-. simpl. now rewrite lookup_insert_eq. }
destruct H0 as (Hs0 & Hl0 & Hf0).
destruct (tokens st0) eqn:Et.
- unfold SE.lift.
  destruct (_tokenize_from_source env _) as [[toks resolved]|e]; [|discriminate].
  unfold put_state, SE.modify.
  rewrite save_state_result by apply ensure_votes_length_ok.
  intros [= <- <-]. simpl. now rewrite lookup_insert_eq.
- intros [= <- <-]. auto.
Qed.

(** X3. Once a document has its tokens, [ensure_tokens] is idempotent: a
    second call, whatever source name and clock it is given, returns the
    same state and leaves the store, in memory and on disk, exactly as the
    first call left it; nothing is tokenized or persisted again. *)
Theorem ensure_tokens_twice (env : Env) (t1 t2 : Z) (doc_id : string)
    (name name' : option string) (s s1 : Store) (st : DocState) :
  ensure_tokens env t1 doc_id name s = (Ok st, s1) -> tokens st <> [] ->
  ensure_tokens env t2 doc_id name' s1 = (Ok st, s1).
Proof.
unfold ensure_tokens, with_lock. intros H1 Ht.
destruct (ensure_tokens_locked_post _ _ _ _ _ _ _ H1) as (Hs & Hl & Hf).
simpl in Hl.
rewrite (ensure_tokens_locked_cached env t2 doc_id name' _ st); [|exact Hs|exact Ht].
f_equal. destruct s1 as [sts lks fl dk]. simpl in *. f_equal.
rewrite Hl. set_solver.
Qed.

Lemma ensure_tokens_twice_witness :
  let env :=
    mkEnv (fun n => if String.eqb n "text.txt" then Some (u "The quick fox")
                    else None)
      (fun x => x) posix_name (mkCharrefTables [] [] []) in
  exists st s1,
    ensure_tokens env 1 "doc1" None (Store_init ∅) = (Ok st, s1) /\
    tokens st = [u "The"; u "quick"; u "fox"] /\
    ensure_tokens env 2 "doc1" (Some "other.txt") s1 = (Ok st, s1).
Proof.
intros env.
destruct (ensure_tokens env 1 "doc1" None (Store_init ∅)) as [r s1] eqn:E.
assert (Hr : r = Ok (mkDocState [u "The"; u "quick"; u "fox"] [[]; []; []]
                       (Some 1%Z) "text.txt")).
{ change r with (fst (r, s1)). rewrite <- E. reflexivity. }
subst r. eexists _, s1. split; [reflexivity|]. split; [reflexivity|].
apply (ensure_tokens_twice env 1 2 "doc1" None (Some "other.txt")
         (Store_init ∅) s1 _ E).
discriminate.
Defined.

(** *** The effect of a highlight *)

(** The clamped and ordered bounds of [apply_highlight]. *)
Definition low_bound (start end_ : Z) (n : nat) : nat :=
  Z.to_nat (Z.min (clamp start n) (clamp end_ n)).
Definition high_bound (start end_ : Z) (n : nat) : nat :=
  Z.to_nat (Z.max (clamp start n) (clamp end_ n)).

Lemma ordered_bounds (start end_ : Z) (n : nat) :
  (let '(a, b) :=
     if (clamp start n >? clamp end_ n)%Z
     then (clamp end_ n, clamp start n) else (clamp start n, clamp end_ n) in
   (Z.to_nat a, Z.to_nat b))
  = (low_bound start end_ n, high_bound start end_ n).
Proof.
unfold low_bound, high_bound.
destruct (Z.gtb_spec (clamp start n) (clamp end_ n)); f_equal; f_equal; lia.
Qed.

Lemma bounds_in_range (start end_ : Z) (n : nat) :
  0 < n -> low_bound start end_ n <= high_bound start end_ n < n.
Proof.
intros Hn. unfold low_bound, high_bound.
assert (Ha : (0 <= clamp start n <= Z.of_nat n - 1)%Z) by (unfold clamp; lia).
assert (Hb : (0 <= clamp end_ n <= Z.of_nat n - 1)%Z) by (unfold clamp; lia).
destruct (Z.min_spec (clamp start n) (clamp end_ n)) as [[? ->]|[? ->]],
  (Z.max_spec (clamp start n) (clamp end_ n)) as [[? ->]|[? ->]]; lia.
Qed.

(** A bucket after the loop body, and whether the body changed it. *)
Definition painted (client_id color : string) (b : bucket) : bucket :=
  fst (paint_bucket client_id color b).
Definition paints (client_id color : string) (b : bucket) : bool :=
  snd (paint_bucket client_id color b).

Lemma existsb_ext_on {A} (f g : A -> bool) (l : list A) :
  (forall x, In x l -> f x = g x) -> existsb f l = existsb g l.
Proof.
induction l as [|x l IH]; intros H; simpl; [reflexivity|].
rewrite (H x) by now left. rewrite IH; [reflexivity|].
intros y Hy. apply H. now right.
Qed.

Lemma paint_fold client_id color len lo v ch :
  lo + len <= length v ->
  let r := fold_left (paint_step client_id color) (seq lo len) (v, ch) in
  length (fst r) = length v /\
  (forall i, fst r !! i
             = if (lo <=? i) && (i <? lo + len)
               then painted client_id color <$> v !! i else v !! i) /\
  snd r = ch || existsb (fun i => match v !! i with
                                  | Some b => paints client_id color b
                                  | None => false
                                  end) (seq lo len).
Proof.
revert lo v ch. induction len as [|len IH]; intros lo v ch Hlen.
- simpl. split; [reflexivity|]. split; [|now rewrite orb_false_r].
  intros i. destruct (Nat.leb_spec lo i), (Nat.ltb_spec i (lo + 0));
    try reflexivity; lia.
- destruct (lookup_lt_is_Some_2 v lo) as [b Hb]; [lia|].
  assert (Hstep : paint_step client_id color (v, ch) lo
                  = (<[lo := painted client_id color b]> v,
                     ch || paints client_id color b)).
  { unfold paint_step, painted, paints. simpl. rewrite Hb.
    now destruct (paint_bucket client_id color b). }
  cbn [seq fold_left]. rewrite Hstep.
  destruct (IH (S lo) (<[lo := painted client_id color b]> v)
              (ch || paints client_id color b)) as (Hl & Hv & Hc).
  { rewrite length_insert. lia. }
  cbv zeta in *.
  split; [now rewrite Hl, length_insert|]. split.
  + intros i. rewrite Hv. destruct (Nat.eq_dec i lo) as [->|Hne].
    * destruct (Nat.leb_spec (S lo) lo); [lia|]. simpl.
      rewrite Nat.leb_refl. destruct (Nat.ltb_spec lo (lo + S len)); [|lia].
      simpl. rewrite list_lookup_insert_eq by lia. now rewrite Hb.
    * rewrite list_lookup_insert_ne by congruence.
      destruct (Nat.leb_spec (S lo) i), (Nat.leb_spec lo i),
        (Nat.ltb_spec i (S lo + len)), (Nat.ltb_spec i (lo + S len));
        simpl; try reflexivity; lia.
  + rewrite Hc. cbn [existsb]. rewrite Hb.
    rewrite <- orb_assoc. f_equal. f_equal.
    apply existsb_ext_on. intros i Hi. apply in_seq in Hi.
    rewrite list_lookup_insert_ne by lia. reflexivity.
Qed.

Lemma paint_spec client_id color lo hi v :
  lo <= hi < length v ->
  length (fst (paint client_id color lo hi v)) = length v /\
  (forall i, fst (paint client_id color lo hi v) !! i
             = if (lo <=? i) && (i <=? hi)
               then painted client_id color <$> v !! i else v !! i) /\
  (snd (paint client_id color lo hi v) = true <->
   exists i b, lo <= i <= hi /\ v !! i = Some b /\
               paints client_id color b = true).
Proof.
intros Hb. unfold paint.
destruct (paint_fold client_id color (hi + 1 - lo) lo v false) as (Hl & Hv & Hc);
  [lia|].
split; [exact Hl|]. split.
- intros i. rewrite Hv.
  destruct (Nat.ltb_spec i (lo + (hi + 1 - lo))), (Nat.leb_spec i hi);
    try reflexivity; lia.
- rewrite Hc. simpl. rewrite existsb_exists. split.
  + intros (i & Hi & Hp). apply in_seq in Hi.
    destruct (v !! i) as [b|] eqn:E; [|discriminate].
    exists i, b. split; [lia|]. auto.
  + intros (i & b & Hi & Hvi & Hp). exists i. split; [apply in_seq; lia|].
    now rewrite Hvi.
Qed.

Lemma paint_unchanged client_id color lo hi v :
  lo <= hi < length v ->
  snd (paint client_id color lo hi v) = false ->
  fst (paint client_id color lo hi v) = v.
Proof.
intros Hb Hf. destruct (paint_spec client_id color lo hi v Hb) as (Hl & Hv & Hc).
apply list_eq. intros i. rewrite Hv.
destruct ((lo <=? i) && (i <=? hi)) eqn:E; [|reflexivity].
apply andb_true_iff in E as [E1 E2].
apply Nat.leb_le in E1. apply Nat.leb_le in E2.
destruct (v !! i) as [b|] eqn:Ei; [|reflexivity]. simpl. f_equal.
unfold painted. destruct (paint_bucket client_id color b) as [b' chb] eqn:Ep.
assert (chb = false).
{ destruct chb; [|reflexivity]. exfalso.
  assert (snd (paint client_id color lo hi v) = true); [|congruence].
  apply Hc. exists i, b. split; [lia|]. split; [assumption|].
  unfold paints. now rewrite Ep. }
subst chb. unfold paint_bucket in Ep. simpl.
destruct (truthy color).
- destruct (PyDict.get client_id b) as [c|].
  + destruct (String.eqb c color); now injection Ep.
  + discriminate.
- destruct (PyDict.get client_id b); [discriminate|now injection Ep].
Qed.

(** The store after a highlight that changed the votes to [v]. *)
Definition highlighted (doc_id : string) (st : DocState) (v : list bucket)
    (t : Z) (s : Store) : Store :=
  let st' := mkDocState (tokens st) v (Some t) (source_name st) in
  mkStore (<[doc_id := st']> (_states s)) ({[doc_id]} ∪ _locks s)
    (_lock_flags s) (<[doc_id := snapshot_of st']> (disk s)).

(** [apply_highlight] on an unlocked document that is in memory with its
    tokens, in closed form. *)
Lemma apply_highlight_cached env now doc_id client_id start end_ color ts s st :
  is_locked doc_id s = false ->
  _states s !! doc_id = Some st -> tokens st <> [] -> votes_match st ->
  let lo := low_bound start end_ (length (tokens st)) in
  let hi := high_bound start end_ (length (tokens st)) in
  let v := fst (paint client_id color lo hi (votes st)) in
  let changed := snd (paint client_id color lo hi (votes st)) in
  apply_highlight env now doc_id client_id start end_ color ts s
  = (Ok changed,
     if changed then highlighted doc_id st v (or_time ts now) s
     else mkStore (_states s) ({[doc_id]} ∪ _locks s) (_lock_flags s) (disk s)).
Proof.
intros Hl Hst Ht Hm lo hi v changed. unfold apply_highlight. rewrite Hl.
unfold with_lock. unfold SE.bind at 1.
set (s1 := mkStore (_states s) ({[doc_id]} ∪ _locks s) (_lock_flags s) (disk s)).
rewrite (ensure_tokens_locked_cached env now doc_id None s1 st Hst Ht).
assert (Hmatch : forall (A : Type) (x y : A),
          match tokens st with [] => x | _ :: _ => y end = y)
  by (intros; destruct (tokens st); congruence).
rewrite Hmatch. clear Hmatch.
assert (Hpos : 0 < length (tokens st))
  by (destruct (tokens st); [congruence|simpl; lia]).
pose proof (ordered_bounds start end_ (length (tokens st))) as Hob.
destruct (if (clamp start (length (tokens st)) >? clamp end_ (length (tokens st)))%Z
          then _ else _) as [a b].
injection Hob as Ha Hb0. rewrite Ha, Hb0.
rewrite (ensure_votes_length_id st Hm).
fold lo hi.
assert (Hbnd : lo <= hi < length (votes st)).
{ rewrite Hm. now apply bounds_in_range. }
pose proof (paint_length client_id color lo hi (votes st)) as Hpl.
pose proof (paint_unchanged client_id color lo hi (votes st) Hbnd) as Hu.
subst v changed.
destruct (paint client_id color lo hi (votes st)) as [v0 ch0] eqn:Ep.
simpl fst in *. simpl snd in *.
destruct ch0.
- unfold SE.bind, put_state, SE.modify, SE.ret.
  rewrite save_state_result by (unfold votes_match; simpl; now rewrite Hpl).
  unfold highlighted. simpl. now rewrite !insert_insert_eq.
- unfold SE.bind, put_state, SE.modify, SE.ret. simpl.
  rewrite Hu by reflexivity.
  f_equal. unfold s1, set_states. simpl. f_equal.
  apply insert_id. rewrite Hst. now destruct st.
Qed.

Lemma get_remove_other {V} k k' (d : PyDict.dict V) :
  k <> k' -> PyDict.get k (PyDict.remove k' d) = PyDict.get k d.
Proof.
intros Hne. induction d as [|[k2 v2] d IH]; simpl; [reflexivity|].
destruct (String.eqb k' k2) eqn:E; simpl.
- apply String.eqb_eq in E. subst k2.
  apply String.eqb_neq in Hne. now rewrite Hne.
- now rewrite IH.
Qed.

Lemma get_remove_same {V} k (d : PyDict.dict V) :
  NoDup (PyDict.keys d) -> PyDict.get k (PyDict.remove k d) = None.
Proof.
induction d as [|[k2 v2] d IH]; simpl; [reflexivity|].
intros Hnd. apply NoDup_cons in Hnd as [Hk Hnd].
destruct (String.eqb k k2) eqn:E; simpl.
- apply String.eqb_eq in E. subst k2.
  destruct (PyDict.get k d) eqn:G; [|reflexivity].
  exfalso. apply Hk. apply list_elem_of_In. apply get_Some_In in G.
  unfold PyDict.keys. change k with (fst (k, v)). now apply in_map.
- rewrite E. auto.
Qed.

Lemma remove_absent {V} k (d : PyDict.dict V) :
  PyDict.get k d = None -> PyDict.remove k d = d.
Proof.
induction d as [|[k2 v2] d IH]; simpl; [reflexivity|].
destruct (String.eqb k k2); [discriminate|]. intros H. now rewrite IH.
Qed.

Lemma painted_set client_id color b :
  truthy color = true ->
  PyDict.get client_id (painted client_id color b) = Some color /\
  (forall c, c <> client_id ->
     PyDict.get c (painted client_id color b) = PyDict.get c b) /\
  (paints client_id color b = true <-> PyDict.get client_id b <> Some color).
Proof.
intros Ht. unfold painted, paints, paint_bucket. rewrite Ht.
destruct (PyDict.get client_id b) as [c|] eqn:G.
- destruct (String.eqb c color) eqn:E; simpl.
  + apply String.eqb_eq in E. subst c. split; [assumption|].
    split; [reflexivity|]. split; [discriminate|congruence].
  + apply String.eqb_neq in E. split; [apply get_set_same|].
    split; [intros c' Hc'; now apply get_set_other|].
    split; [congruence|reflexivity].
- simpl. split; [apply get_set_same|].
  split; [intros c' Hc'; now apply get_set_other|].
  split; [discriminate|reflexivity].
Qed.

Lemma painted_erase client_id b :
  (NoDup (PyDict.keys b) ->
   PyDict.get client_id (painted client_id "" b) = None) /\
  (forall c, c <> client_id ->
     PyDict.get c (painted client_id "" b) = PyDict.get c b) /\
  (paints client_id "" b = true <-> PyDict.get client_id b <> None).
Proof.
unfold painted, paints, paint_bucket. simpl.
destruct (PyDict.get client_id b) as [c|] eqn:G; simpl.
- split; [apply get_remove_same|].
  split; [intros c' Hc'; now apply get_remove_other|].
  split; [discriminate|reflexivity].
- split; [intros _; exact G|]. split; [reflexivity|].
  split; [discriminate|congruence].
Qed.

(** The state of the document after [apply_highlight], read from the
    closed form. *)
Lemma apply_highlight_state env now doc_id client_id start end_ color ts s st :
  is_locked doc_id s = false ->
  _states s !! doc_id = Some st -> tokens st <> [] -> votes_match st ->
  let lo := low_bound start end_ (length (tokens st)) in
  let hi := high_bound start end_ (length (tokens st)) in
  let r := apply_highlight env now doc_id client_id start end_ color ts s in
  exists st',
    _states (snd r) !! doc_id = Some st' /\
    tokens st' = tokens st /\ source_name st' = source_name st /\
    votes st' = fst (paint client_id color lo hi (votes st)) /\
    fst r = Ok (snd (paint client_id color lo hi (votes st))) /\
    _lock_flags (snd r) = _lock_flags s /\
    _locks (snd r) = {[doc_id]} ∪ _locks s /\
    lo <= hi < length (votes st).
Proof.
intros Hl Hst Ht Hm lo hi r. subst r.
rewrite (apply_highlight_cached env now doc_id client_id start end_ color ts s st
           Hl Hst Ht Hm).
fold lo hi.
assert (Hbnd : lo <= hi < length (votes st)).
{ rewrite Hm. apply bounds_in_range.
  destruct (tokens st); [congruence|simpl; lia]. }
pose proof (paint_unchanged client_id color lo hi (votes st) Hbnd) as Hu.
destruct (paint client_id color lo hi (votes st)) as [v ch]. simpl fst in *.
simpl snd in *. destruct ch.
- eexists. unfold highlighted. simpl. rewrite lookup_insert_eq.
  split; [reflexivity|]. simpl. auto 10.
- exists st. simpl. rewrite Hu by reflexivity. auto 10.
Qed.

(** X4. A highlight with a colour, on an unlocked document that has its
    tokens: afterwards the client votes that colour at every position of
    the clamped range, every other client's vote and every bucket outside
    the range is as before, and so are the tokens. The call returns
    [True] exactly when some position of the range did not hold that vote
    already. *)
Theorem apply_highlight_sets_votes (env : Env) (now : Z)
    (doc_id client_id : string) (start end_ : Z) (color : string)
    (ts : option Z) (s : Store) (st : DocState) :
  is_locked doc_id s = false ->
  _states s !! doc_id = Some st -> tokens st <> [] ->
  length (votes st) = length (tokens st) -> truthy color = true ->
  let lo := low_bound start end_ (length (tokens st)) in
  let hi := high_bound start end_ (length (tokens st)) in
  let r := apply_highlight env now doc_id client_id start end_ color ts s in
  exists st',
    _states (snd r) !! doc_id = Some st' /\ tokens st' = tokens st /\
    length (votes st') = length (votes st) /\
    (forall i b b', votes st !! i = Some b -> votes st' !! i = Some b' ->
       (lo <= i <= hi -> PyDict.get client_id b' = Some color) /\
       (forall c, c <> client_id -> PyDict.get c b' = PyDict.get c b) /\
       (~ lo <= i <= hi -> b' = b)) /\
    (fst r = Ok true <->
     exists i b, lo <= i <= hi /\ votes st !! i = Some b /\
                 PyDict.get client_id b <> Some color) /\
    (fst r = Ok true \/ fst r = Ok false).
Proof.
intros Hl Hst Ht Hm Hc lo hi r.
destruct (apply_highlight_state env now doc_id client_id start end_ color ts s st
            Hl Hst Ht Hm) as (st' & Hs' & Htok & _ & Hv & Hr & _ & _ & Hbnd).
fold lo hi in Hv, Hr, Hbnd. fold r in Hs', Hr.
destruct (paint_spec client_id color lo hi (votes st) Hbnd) as (Hlen & Hlk & Hch).
exists st'. split; [exact Hs'|]. split; [exact Htok|].
split; [now rewrite Hv|]. split; [|split].
- intros i b b' Hb Hb'. rewrite Hv, Hlk, Hb in Hb'.
  destruct (painted_set client_id color b Hc) as (Hg & Ho & _).
  destruct (Nat.leb_spec lo i), (Nat.leb_spec i hi); simpl in Hb';
    injection Hb' as <-;
    (split; [try lia; intros _; exact Hg|split; [try exact Ho; reflexivity|]]);
    try (intros _; reflexivity); intros Hn; exfalso; apply Hn; lia.
- rewrite Hr. split.
  + intros [= Ht']. apply Hch in Ht' as (i & b & Hi & Hb & Hp).
    exists i, b. split; [assumption|]. split; [assumption|].
    now apply (painted_set client_id color b Hc).
  + intros (i & b & Hi & Hb & Hp). f_equal. apply Hch.
    exists i, b. split; [assumption|]. split; [assumption|].
    now apply (painted_set client_id color b Hc).
- rewrite Hr. destruct (snd (paint client_id color lo hi (votes st))); auto.
Qed.

Lemma apply_highlight_sets_votes_witness :
  let env :=
    mkEnv (fun _ => None) (fun x => x) posix_name (mkCharrefTables [] [] []) in
  let st := mkDocState [u "The"; u "quick"; u "fox"]
              [[("B", "green")]; [("A", "red")]; []] None "text.txt" in
  let s := mkStore {[ "doc1" := st ]} ∅ ∅ ∅ in
  let r := apply_highlight env 9 "doc1" "A" 7 (-2) "red" None s in
  low_bound 7 (-2) 3 = 0 /\ high_bound 7 (-2) 3 = 2 /\
  fst r = Ok true /\
  (votes <$> _states (snd r) !! "doc1")
  = Some [[("B", "green"); ("A", "red")]; [("A", "red")]; [("A", "red")]] /\
  exists st', _states (snd r) !! "doc1" = Some st' /\ tokens st' = tokens st.
Proof.
intros env st s r. repeat (split; [reflexivity|]).
destruct (apply_highlight_sets_votes env 9 "doc1" "A" 7 (-2) "red" None s st)
  as (st' & H1 & H2 & _); try reflexivity; [discriminate|].
exists st'. split; assumption.
Defined.

(** X5. Sending the same highlight again changes nothing: after a
    highlight with a colour, the same call, at any later time and with any
    time stamp, returns [False] and leaves the store, in memory and on
    disk, as the first call left it. *)
Theorem apply_highlight_again (env : Env) (t1 t2 : Z)
    (doc_id client_id : string) (start end_ : Z) (color : string)
    (ts ts' : option Z) (s : Store) (st : DocState) :
  is_locked doc_id s = false ->
  _states s !! doc_id = Some st -> tokens st <> [] ->
  length (votes st) = length (tokens st) -> truthy color = true ->
  let s1 := snd (apply_highlight env t1 doc_id client_id start end_ color ts s) in
  apply_highlight env t2 doc_id client_id start end_ color ts' s1 = (Ok false, s1).
Proof.
intros Hl Hst Ht Hm Hc s1.
destruct (apply_highlight_state env t1 doc_id client_id start end_ color ts s st
            Hl Hst Ht Hm) as (st1 & Hs1 & Htok & _ & Hv & _ & Hfl & Hlk & Hbnd).
fold s1 in Hs1, Hfl, Hlk.
set (lo := low_bound start end_ (length (tokens st))) in *.
set (hi := high_bound start end_ (length (tokens st))) in *.
destruct (paint_spec client_id color lo hi (votes st) Hbnd) as (Hlen & Hlkp & _).
assert (Hm1 : votes_match st1).
{ unfold votes_match. rewrite Hv, Htok, Hlen. exact Hm. }
assert (Hl1 : is_locked doc_id s1 = false).
{ unfold is_locked in *. now rewrite Hfl. }
assert (Ht1 : tokens st1 <> []) by now rewrite Htok.
rewrite (apply_highlight_cached env t2 doc_id client_id start end_ color ts' s1 st1
           Hl1 Hs1 Ht1 Hm1).
rewrite Htok. fold lo hi.
assert (Hbnd1 : lo <= hi < length (votes st1)) by (rewrite Hv, Hlen; exact Hbnd).
assert (Hno : snd (paint client_id color lo hi (votes st1)) = false).
{ destruct (snd (paint client_id color lo hi (votes st1))) eqn:E; [|reflexivity].
  apply (paint_spec client_id color lo hi (votes st1) Hbnd1) in E
    as (i & b1 & Hi & Hb1 & Hp).
  rewrite Hv, Hlkp in Hb1.
  destruct (Nat.leb_spec lo i); [|lia]. destruct (Nat.leb_spec i hi); [|lia].
  simpl in Hb1. destruct (votes st !! i) as [b|]; [|discriminate].
  injection Hb1 as <-.
  apply (painted_set client_id color _ Hc) in Hp.
  exfalso. apply Hp. now apply painted_set. }
rewrite Hno. f_equal.
destruct s1 as [sts lks fl dk]. simpl in *. f_equal. rewrite Hlk. set_solver.
Qed.

Lemma apply_highlight_again_witness :
  let env :=
    mkEnv (fun _ => None) (fun x => x) posix_name (mkCharrefTables [] [] []) in
  let st := mkDocState [u "The"; u "quick"; u "fox"] [[]; []; []] None "text.txt" in
  let s := mkStore {[ "doc1" := st ]} ∅ ∅ ∅ in
  let s1 := snd (apply_highlight env 5 "doc1" "A" 0 1 "red" None s) in
  fst (apply_highlight env 5 "doc1" "A" 0 1 "red" None s) = Ok true /\
  apply_highlight env 6 "doc1" "A" 0 1 "red" (Some 8%Z) s1 = (Ok false, s1).
Proof.
intros env st s s1. split; [reflexivity|].
apply (apply_highlight_again env 5 6 "doc1" "A" 0 1 "red" None (Some 8%Z) s st);
  try reflexivity. discriminate.
Defined.

(** X6. A highlight with the empty colour erases: on an unlocked document
    that has its tokens and whose buckets are dictionaries (no client
    twice), the client has no vote left at any position of the clamped
    range, the votes of the other clients are as before, and the call
    returns [True] exactly when the client had a vote in the range. *)
Theorem apply_highlight_erases_votes (env : Env) (now : Z)
    (doc_id client_id : string) (start end_ : Z) (ts : option Z)
    (s : Store) (st : DocState) :
  is_locked doc_id s = false ->
  _states s !! doc_id = Some st -> tokens st <> [] ->
  length (votes st) = length (tokens st) ->
  Forall (fun b : bucket => NoDup (PyDict.keys b)) (votes st) ->
  let lo := low_bound start end_ (length (tokens st)) in
  let hi := high_bound start end_ (length (tokens st)) in
  let r := apply_highlight env now doc_id client_id start end_ "" ts s in
  exists st',
    _states (snd r) !! doc_id = Some st' /\ tokens st' = tokens st /\
    (forall i b b', votes st !! i = Some b -> votes st' !! i = Some b' ->
       (lo <= i <= hi -> PyDict.get client_id b' = None) /\
       (forall c, c <> client_id -> PyDict.get c b' = PyDict.get c b)) /\
    (fst r = Ok true <->
     exists i b, lo <= i <= hi /\ votes st !! i = Some b /\
                 PyDict.get client_id b <> None).
Proof.
intros Hl Hst Ht Hm Hnd lo hi r.
destruct (apply_highlight_state env now doc_id client_id start end_ "" ts s st
            Hl Hst Ht Hm) as (st' & Hs' & Htok & _ & Hv & Hr & _ & _ & Hbnd).
fold lo hi in Hv, Hr, Hbnd. fold r in Hs', Hr.
destruct (paint_spec client_id "" lo hi (votes st) Hbnd) as (Hlen & Hlk & Hch).
exists st'. split; [exact Hs'|]. split; [exact Htok|]. split.
- intros i b b' Hb Hb'. rewrite Hv, Hlk, Hb in Hb'.
  destruct (painted_erase client_id b) as (Hg & Ho & _).
  assert (Hbnd' : NoDup (PyDict.keys b)).
  { rewrite Forall_forall in Hnd. apply Hnd.
    eapply list_elem_of_lookup_2. exact Hb. }
  destruct (Nat.leb_spec lo i), (Nat.leb_spec i hi); simpl in Hb';
    injection Hb' as <-; (split; [try lia; intros _; now apply Hg|]);
    try exact Ho; reflexivity.
- rewrite Hr. split.
  + intros [= Ht']. apply Hch in Ht' as (i & b & Hi & Hb & Hp).
    exists i, b. split; [assumption|]. split; [assumption|].
    now apply (painted_erase client_id b).
  + intros (i & b & Hi & Hb & Hp). f_equal. apply Hch.
    exists i, b. split; [assumption|]. split; [assumption|].
    now apply (painted_erase client_id b).
Qed.

Lemma apply_highlight_erases_votes_witness :
  let env :=
    mkEnv (fun _ => None) (fun x => x) posix_name (mkCharrefTables [] [] []) in
  let st := mkDocState [u "The"; u "quick"; u "fox"]
              [[("A", "red"); ("B", "green")]; [("A", "red")]; [("A", "blue")]]
              None "text.txt" in
  let s := mkStore {[ "doc1" := st ]} ∅ ∅ ∅ in
  let r := apply_highlight env 9 "doc1" "A" 0 1 "" None s in
  fst r = Ok true /\
  (votes <$> _states (snd r) !! "doc1")
  = Some [[("B", "green")]; []; [("A", "blue")]] /\
  exists st', _states (snd r) !! "doc1" = Some st' /\ tokens st' = tokens st.
Proof.
intros env st s r. repeat (split; [reflexivity|]).
destruct (apply_highlight_erases_votes env 9 "doc1" "A" 0 1 None s st)
  as (st' & H1 & H2 & _); try reflexivity; [discriminate| |].
- repeat constructor; simpl; set_solver.
- exists st'. split; assumption.
Defined.

(** *** Clearing *)

Definition has_vote (client_id : string) (b : bucket) : bool :=
  match PyDict.get client_id b with Some _ => true | None => false end.

Lemma unvote_fold client_id v acc ch :
  fold_left (unvote_step client_id) v (acc, ch)
  = (acc ++ map (PyDict.remove client_id) v,
     ch || existsb (has_vote client_id) v).
Proof.
revert acc ch. induction v as [|b v IH]; intros acc ch; simpl.
- now rewrite app_nil_r, orb_false_r.
- unfold unvote_step at 2. unfold has_vote at 1. simpl.
  destruct (PyDict.get client_id b) eqn:G.
  + rewrite IH, <- app_assoc. simpl. now rewrite orb_true_r.
  + rewrite IH, <- app_assoc. simpl. now rewrite (remove_absent _ _ G).
Qed.

Lemma unvote_spec client_id v :
  unvote client_id v
  = (map (PyDict.remove client_id) v, existsb (has_vote client_id) v).
Proof. unfold unvote. now rewrite unvote_fold. Qed.

Lemma unvote_nothing client_id v :
  existsb (has_vote client_id) v = false ->
  map (PyDict.remove client_id) v = v.
Proof.
induction v as [|b v IH]; simpl; [reflexivity|].
intros H. apply orb_false_iff in H as [Hb Hv]. rewrite IH by assumption.
f_equal. apply remove_absent. unfold has_vote in Hb.
now destruct (PyDict.get client_id b).
Qed.

(** [clear_client] on an unlocked document that is in memory with its
    tokens, in closed form. *)
Lemma clear_client_cached env now doc_id client_id ts s st :
  is_locked doc_id s = false ->
  _states s !! doc_id = Some st -> tokens st <> [] -> votes_match st ->
  let v := map (PyDict.remove client_id) (votes st) in
  let changed := existsb (has_vote client_id) (votes st) in
  clear_client env now doc_id client_id ts s
  = (Ok changed,
     if changed then highlighted doc_id st v (or_time ts now) s
     else mkStore (_states s) ({[doc_id]} ∪ _locks s) (_lock_flags s) (disk s)).
Proof.
intros Hl Hst Ht Hm v changed. unfold clear_client. rewrite Hl.
unfold with_lock. unfold SE.bind at 1.
set (s1 := mkStore (_states s) ({[doc_id]} ∪ _locks s) (_lock_flags s) (disk s)).
rewrite (ensure_tokens_locked_cached env now doc_id None s1 st Hst Ht).
rewrite unvote_spec. fold v changed.
pose proof (unvote_nothing client_id (votes st)) as Hu. fold v changed in Hu.
destruct changed.
- unfold SE.bind, put_state, SE.modify, SE.ret.
  rewrite save_state_result
    by (unfold votes_match, v; simpl; now rewrite length_map).
  unfold highlighted. simpl. now rewrite !insert_insert_eq.
- unfold SE.bind, put_state, SE.modify, SE.ret. simpl.
  rewrite Hu by reflexivity.
  f_equal. unfold s1, set_states. simpl. f_equal.
  apply insert_id. rewrite Hst. now destruct st.
Qed.

(** X7. [clear_client] on an unlocked document that has its tokens and
    whose buckets are dictionaries: afterwards no bucket holds a vote of
    the client, the votes of every other client are as before, the tokens
    are kept, and the call returns [True] exactly when the client had a
    vote somewhere. *)
Theorem clear_client_removes_all_votes (env : Env) (now : Z)
    (doc_id client_id : string) (ts : option Z) (s : Store) (st : DocState) :
  is_locked doc_id s = false ->
  _states s !! doc_id = Some st -> tokens st <> [] ->
  length (votes st) = length (tokens st) ->
  Forall (fun b : bucket => NoDup (PyDict.keys b)) (votes st) ->
  let r := clear_client env now doc_id client_id ts s in
  exists st',
    _states (snd r) !! doc_id = Some st' /\ tokens st' = tokens st /\
    length (votes st') = length (votes st) /\
    Forall (fun b' => PyDict.get client_id b' = None) (votes st') /\
    (forall i b b' c, votes st !! i = Some b -> votes st' !! i = Some b' ->
       c <> client_id -> PyDict.get c b' = PyDict.get c b) /\
    (fst r = Ok true <->
     exists b, In b (votes st) /\ PyDict.get client_id b <> None).
Proof.
intros Hl Hst Ht Hm Hnd r. subst r.
rewrite (clear_client_cached env now doc_id client_id ts s st Hl Hst Ht Hm).
set (v := map (PyDict.remove client_id) (votes st)).
assert (Hlen : length v = length (votes st)) by apply length_map.
assert (Hgone : Forall (fun b' => PyDict.get client_id b' = None) v).
{ unfold v. apply Forall_forall. intros b' Hb'.
  apply list_elem_of_In, in_map_iff in Hb' as (b & <- & Hb).
  apply get_remove_same. rewrite Forall_forall in Hnd. apply Hnd.
  now apply list_elem_of_In. }
assert (Hother : forall i b b' c, votes st !! i = Some b -> v !! i = Some b' ->
                   c <> client_id -> PyDict.get c b' = PyDict.get c b).
{ intros i b b' c Hb Hb' Hc. unfold v in Hb'.
  assert (Hi : map (PyDict.remove client_id) (votes st) !! i
               = PyDict.remove client_id <$> votes st !! i).
  { clear. revert i. induction (votes st) as [|x l IH]; intros [|i]; simpl; auto. }
  rewrite Hi, Hb in Hb'. injection Hb' as <-. now apply get_remove_other. }
assert (Hch : existsb (has_vote client_id) (votes st) = true <->
              exists b, In b (votes st) /\ PyDict.get client_id b <> None).
{ rewrite existsb_exists. unfold has_vote.
  split; intros (b & Hb & Hg); exists b; (split; [assumption|]);
    destruct (PyDict.get client_id b); congruence. }
pose proof (unvote_nothing client_id (votes st)) as Hu. fold v in Hu.
destruct (existsb (has_vote client_id) (votes st)) eqn:E.
- eexists. unfold highlighted. simpl. rewrite lookup_insert_eq.
  split; [reflexivity|]. simpl.
  split; [reflexivity|]. split; [assumption|]. split; [assumption|].
  split; [assumption|]. split; [intros _; now apply Hch|reflexivity].
- assert (Hv : v = votes st) by now apply Hu.
  rewrite Hv in Hgone, Hother. exists st. simpl.
  split; [assumption|]. split; [reflexivity|]. split; [reflexivity|].
  split; [assumption|]. split; [exact Hother|].
  split; [discriminate|]. intros H. apply Hch in H. discriminate.
Qed.

Lemma clear_client_removes_all_votes_witness :
  let env :=
    mkEnv (fun _ => None) (fun x => x) posix_name (mkCharrefTables [] [] []) in
  let st := mkDocState [u "The"; u "quick"; u "fox"]
              [[("A", "red"); ("B", "green")]; [("B", "green")]; [("A", "blue")]]
              None "text.txt" in
  let s := mkStore {[ "doc1" := st ]} ∅ ∅ ∅ in
  let r := clear_client env 9 "doc1" "A" None s in
  fst r = Ok true /\
  (votes <$> _states (snd r) !! "doc1")
  = Some [[("B", "green")]; [("B", "green")]; []] /\
  exists st', _states (snd r) !! "doc1" = Some st' /\ tokens st' = tokens st.
Proof.
intros env st s r. repeat (split; [reflexivity|]).
destruct (clear_client_removes_all_votes env 9 "doc1" "A" None s st)
  as (st' & H1 & H2 & _); try reflexivity; [discriminate| |].
- repeat constructor; simpl; set_solver.
- exists st'. split; assumption.
Defined.

(** X8. [clear_votes] on a document that has its tokens keeps the tokens
    and the source name, replaces every vote map by an empty one, sets the
    time stamp to the current time and persists this state. The lock flag
    is not consulted: a locked document is cleared all the same. *)
Theorem clear_votes_empties_votes (env : Env) (now : Z) (doc_id : string)
    (s : Store) (st : DocState) :
  _states s !! doc_id = Some st -> tokens st <> [] ->
  let st' := mkDocState (tokens st) (replicate (length (tokens st)) [])
               (Some now) (source_name st) in
  let r := clear_votes env now doc_id s in
  fst r = Ok st' /\
  _states (snd r) !! doc_id = Some st' /\
  disk (snd r) !! doc_id = Some (snapshot_of st') /\
  _lock_flags (snd r) = _lock_flags s.
Proof.
intros Hst Ht st' r.
assert (E : clear_votes env now doc_id s
            = (Ok st',
               mkStore (<[doc_id := st']> (_states s)) ({[doc_id]} ∪ _locks s)
                 (_lock_flags s) (<[doc_id := snapshot_of st']> (disk s)))).
{ unfold clear_votes, with_lock. unfold SE.bind at 1.
  set (s1 := mkStore (_states s) ({[doc_id]} ∪ _locks s) (_lock_flags s) (disk s)).
  rewrite (ensure_tokens_locked_cached env now doc_id None s1 st Hst Ht).
  fold st'. unfold SE.bind, put_state, SE.modify.
  rewrite save_state_result by apply length_replicate.
  simpl. now rewrite insert_insert_eq. }
subst r. rewrite E. simpl. now rewrite !lookup_insert_eq.
Qed.

Lemma clear_votes_empties_votes_witness :
  let env :=
    mkEnv (fun _ => None) (fun x => x) posix_name (mkCharrefTables [] [] []) in
  let st := mkDocState [u "The"; u "quick"] [[("A", "red")]; [("B", "green")]]
              (Some 3%Z) "text.txt" in
  let s := mkStore {[ "doc1" := st ]} ∅ {[ "doc1" := true ]} ∅ in
  is_locked "doc1" s = true /\
  fst (clear_votes env 9 "doc1" s)
  = Ok (mkDocState [u "The"; u "quick"] [[]; []] (Some 9%Z) "text.txt").
Proof.
intros env st s. split; [reflexivity|].
apply (clear_votes_empties_votes env 9 "doc1" s st); [reflexivity|discriminate].
Defined.

(** *** A document whose source cannot be read *)

(** The state of a document as a call finds it: the one in memory, or
    else the one read from its snapshot file. *)
Definition current (env : Env) (doc_id : string) (s : Store) : DocState :=
  match _states s !! doc_id with
  | Some st => st
  | None => _load_state_from_disk env doc_id (disk s)
  end.

Lemma ensure_tokens_locked_raises env now doc_id name s e :
  tokens (current env doc_id s) = [] ->
  _tokenize_from_source env (_resolve_source_name env (current env doc_id s) name)
    = Raise e ->
  fst (_ensure_tokens_locked env now doc_id name s) = Raise e /\
  disk (snd (_ensure_tokens_locked env now doc_id name s)) = disk s /\
  current env doc_id (snd (_ensure_tokens_locked env now doc_id name s))
  = current env doc_id s.
Proof.
intros Ht He. unfold _ensure_tokens_locked, SE.bind, get_state, current in *.
destruct (_states s !! doc_id) as [st|] eqn:E.
- rewrite Ht. unfold SE.lift. rewrite He. simpl. now rewrite E.
- rewrite Ht. unfold SE.lift. rewrite He. simpl.
  now rewrite lookup_insert_eq.
Qed.

(** X9. A vote on a document that has no tokens and whose source cannot
    be read does not return [False]: [apply_highlight] and [clear_client]
    raise the error of the source (not found), and nothing is persisted or
    changed in the document. *)
Theorem vote_without_source_raises (env : Env) (now : Z)
    (doc_id client_id : string) (start end_ : Z) (color : string)
    (ts : option Z) (s : Store) (e : HTTPException) :
  is_locked doc_id s = false ->
  tokens (current env doc_id s) = [] ->
  _tokenize_from_source env (_resolve_source_name env (current env doc_id s) None)
    = Raise e ->
  let r := apply_highlight env now doc_id client_id start end_ color ts s in
  let r' := clear_client env now doc_id client_id ts s in
  fst r = Raise e /\ disk (snd r) = disk s /\
  current env doc_id (snd r) = current env doc_id s /\
  fst r' = Raise e /\ disk (snd r') = disk s /\
  current env doc_id (snd r') = current env doc_id s.
Proof.
intros Hl Ht He r r'. subst r r'. unfold apply_highlight, clear_client.
rewrite Hl. unfold with_lock, SE.bind.
set (s1 := mkStore (_states s) ({[doc_id]} ∪ _locks s) (_lock_flags s) (disk s)).
destruct (ensure_tokens_locked_raises env now doc_id None s1 e Ht He)
  as (H1 & H2 & H3).
destruct (_ensure_tokens_locked env now doc_id None s1) as [[st|e'] s'].
- discriminate.
- simpl in *. injection H1 as ->. auto 10.
Qed.

Lemma vote_without_source_raises_witness :
  let env :=
    mkEnv (fun _ => None) (fun x => x) posix_name (mkCharrefTables [] [] []) in
  fst (apply_highlight env 1 "doc1" "A" 0 1 "red" None (Store_init ∅))
  = Raise (HTTP 404 "Source 'text.txt' not found") /\
  disk (snd (apply_highlight env 1 "doc1" "A" 0 1 "red" None (Store_init ∅))) = ∅.
Proof.
intros env.
destruct (vote_without_source_raises env 1 "doc1" "A" 0 1 "red" None
            (Store_init ∅) (HTTP 404 "Source 'text.txt' not found"))
  as (H1 & H2 & _); try reflexivity.
split; [exact H1|exact H2].
Defined.

(** *** Snapshots *)

(** X10. What [save_state] writes, a fresh process reads back: for a
    state whose source name is not empty and is a plain file name (the
    last component of itself), [get_state] on a store started from the
    files returns the state that was saved, its votes brought to the length
    of its tokens. *)
Theorem saved_state_is_read_back (env : Env) (doc_id : string)
    (st : DocState) (s : Store) :
  truthy (source_name st) = true ->
  path_name env (source_name st) = source_name st ->
  let files := disk (snd (save_state doc_id st s)) in
  fst (save_state doc_id st s) = Ok (_ensure_votes_length st) /\
  fst (get_state env doc_id (Store_init files)) = Ok (_ensure_votes_length st).
Proof.
intros Ht Hp files. subst files.
set (st1 := _ensure_votes_length st).
assert (E : save_state doc_id st s
            = (Ok st1,
               mkStore (<[doc_id := st1]> (_states s)) (_locks s) (_lock_flags s)
                 (<[doc_id := snapshot_of st1]> (disk s)))) by reflexivity.
rewrite E. cbn [fst snd disk]. split; [reflexivity|].
unfold get_state, Store_init. cbn [_states disk]. rewrite lookup_empty.
cbn [fst]. f_equal.
unfold _load_state_from_disk. rewrite lookup_insert_eq.
unfold snapshot_of.
cbn [snap_tokens snap_votes snap_updated snap_sourceName default truthy_opt
     _sanitize_source_name].
assert (Hsn : source_name st1 = source_name st) by reflexivity.
rewrite Hsn, Ht, Hp, <- Hsn.
replace (mkDocState (tokens st1) (votes st1) (updated st1) (source_name st1))
  with st1 by now destruct st1.
apply ensure_votes_length_id, ensure_votes_length_ok.
Qed.

Lemma saved_state_is_read_back_witness :
  let env :=
    mkEnv (fun _ => None) (fun x => x) posix_name (mkCharrefTables [] [] []) in
  let st := mkDocState [u "The"; u "quick"] [[("A", "red")]] (Some 3%Z) "text.txt" in
  let files := disk (snd (save_state "doc1" st (Store_init ∅))) in
  fst (get_state env "doc1" (Store_init files))
  = Ok (mkDocState [u "The"; u "quick"] [[("A", "red")]; []] (Some 3%Z) "text.txt").
Proof.
intros env st files.
apply (saved_state_is_read_back env "doc1" st (Store_init ∅)); reflexivity.
Defined.
End DocumentStoreSpec.

(** ** Forms *)

Module FormManagerSpec.
Import FormManager.

(** The form as a submission finds it: the state in memory, or else the
    state read from the file. *)
Definition view (form_id : string) (m : Manager) : FormState :=
  match _states m !! form_id with
  | Some st => st
  | None => _load_state form_id (disk m)
  end.

Lemma form_loaded_view form_id m :
  _ensure_loaded form_id m
  = (Ok (view form_id m),
     mkManager (<[form_id := view form_id m]> (_states m)) (_locks m) (disk m))
  \/ (_ensure_loaded form_id m = (Ok (view form_id m), m)).
Proof.
  unfold _ensure_loaded, view.
  destruct (_states m !! form_id); [now right|now left].
Qed.

(** The answer that [submit] records: stripped, then cut to the maximal
    length. *)
Definition recorded_answer (answer : ustr) : ustr :=
  take MAX_FORM_ANSWER_LENGTH (Text.strip answer).

(** The codes of the errors that [submit] raises for another reason
    than the answer. *)
Definition business_code (c : string) : Prop :=
  c = "locked" \/ c = "cooldown" \/ c = "repeat_not_allowed".

(** [submit] on an answer that is not blank: the outcome in terms of the
    form found. *)
Lemma submit_nonblank now form_id client_id answer m :
  Text.strip answer <> [] ->
  (exists e m', submit now form_id client_id answer m = (Raise e, m') /\
     business_code (code e) /\ disk m' = disk m /\
     view form_id m' = view form_id m)
  \/
  (exists m',
     submit now form_id client_id answer m
     = (Ok (mkResponse (next_seq (view form_id m)) client_id
              (recorded_answer answer) (fquestion (view form_id m)) now), m') /\
     locked (view form_id m) = false /\
     view form_id m'
     = fst (append_response now client_id (recorded_answer answer)
              (view form_id m))).
Proof.
  intros Hne. unfold submit.
  destruct (Text.strip answer) as [|c rest] eqn:Es; [congruence|].
  assert (Ht : (if MAX_FORM_ANSWER_LENGTH <? length (c :: rest)
                then take MAX_FORM_ANSWER_LENGTH (c :: rest) else c :: rest)
               = recorded_answer answer).
  { unfold recorded_answer. rewrite Es.
    destruct (Nat.ltb_spec MAX_FORM_ANSWER_LENGTH (length (c :: rest)));
      [reflexivity|]. now rewrite take_ge. }
  rewrite Ht. clear Ht. unfold with_lock, SE.bind.
  set (m1 := mkManager (_states m) ({[form_id]} ∪ _locks m) (disk m)).
  assert (Hv : view form_id m1 = view form_id m) by reflexivity.
  assert (Hload : exists m2, _ensure_loaded form_id m1 = (Ok (view form_id m), m2)
                    /\ disk m2 = disk m /\ view form_id m2 = view form_id m).
  { destruct (form_loaded_view form_id m1) as [H|H]; rewrite H, Hv.
    - eexists. split; [reflexivity|]. split; [reflexivity|].
      unfold view at 1. simpl. now rewrite lookup_insert_eq.
    - exists m1. auto. }
  destruct Hload as (m2 & -> & Hd & Hv2).
  set (st := view form_id m) in *.
  destruct (locked st) eqn:El.
  { left. do 2 eexists. split; [reflexivity|]. split; [now left|]. auto. }
  match goal with |- context [if ?c then SE.raise _ else _] =>
    destruct c eqn:Ec end.
  { left. do 2 eexists. split; [reflexivity|].
    split; [right; now left|]. auto. }
  match goal with |- context [if ?c then SE.raise _ else _] =>
    destruct c eqn:Er end.
  { left. do 2 eexists. split; [reflexivity|].
    split; [right; now right|]. auto. }
  right. unfold append_response, _save_state, SE.modify, SE.ret. simpl.
  eexists. split; [reflexivity|]. split; [reflexivity|].
  unfold view. simpl. now rewrite lookup_insert_eq.
Qed.

Lemma last_drop {A} (l : list A) k :
  k < length l -> last (drop k l) = last l.
Proof.
  revert l. induction k as [|k IH]; intros [|x l] H; simpl in *;
    try lia; try reflexivity.
  rewrite IH by lia. destruct l; [simpl in H; lia|reflexivity].
Qed.

(** C8. [FormManager.submit] cuts an answer that is longer than the
    maximum, once stripped, to the maximum instead of rejecting it: the
    call either fails for a reason that is not the answer (form locked,
    cooldown, repeat not allowed) or returns the record of the first
    [MAX_FORM_ANSWER_LENGTH] characters and appends it; on a form that is
    neither locked nor cooling down and allows repeats it returns. An
    empty or whitespace-only answer is rejected with the validation error
    [empty_answer], of status 400, and the manager, in memory and on
    disk, is as it was: no record is appended. *)
Theorem submit_trims_long_and_rejects_blank (now : Z)
    (form_id client_id : string) (answer : ustr) (m : Manager) :
  (MAX_FORM_ANSWER_LENGTH < length (Text.strip answer) ->
     length (recorded_answer answer) = MAX_FORM_ANSWER_LENGTH /\
     ((exists e m', submit now form_id client_id answer m = (Raise e, m') /\
         business_code (code e))
      \/
      (exists r m', submit now form_id client_id answer m = (Ok r, m') /\
         FormManager.answer r = recorded_answer answer /\
         responses (view form_id m')
         = responses
             (fst (append_response now client_id (recorded_answer answer)
                     (view form_id m))) /\
         last (responses (view form_id m')) = Some r)) /\
     (locked (view form_id m) = false ->
      cooldown (view form_id m) = 0%Z ->
      allow_repeat (view form_id m) = true ->
      exists r m', submit now form_id client_id answer m = (Ok r, m') /\
        FormManager.answer r = recorded_answer answer)) /\
  (Text.strip answer = [] ->
     submit now form_id client_id answer m
     = (Raise (mkAppError "empty_answer" "Answer cannot be empty" 400 None), m)).
Proof.
  split.
  - intros Hlen.
    assert (Hne : Text.strip answer <> []).
    { intros E. rewrite E in Hlen. simpl in Hlen. lia. }
    split; [|split].
    + unfold recorded_answer. rewrite length_take. lia.
    + destruct (submit_nonblank now form_id client_id answer m Hne)
        as [(e & m' & Hs & Hc & _)|(m' & Hs & Hl & Hv)].
      * left. eauto.
      * right. do 2 eexists. split; [exact Hs|]. split; [reflexivity|].
        rewrite Hv. split; [reflexivity|].
        unfold append_response. cbn [fst responses].
        match goal with |- context [if ?c then _ else _] => destruct c end.
        -- rewrite last_drop.
           ++ apply last_snoc.
           ++ rewrite length_app. simpl. unfold MAX_FORM_RESPONSES. lia.
        -- apply last_snoc.
    + intros Hl Hc Hr.
      destruct (submit_nonblank now form_id client_id answer m Hne)
        as [(e & m' & Hs & Hcode & _)|(m' & Hs & _)].
      * exfalso. revert Hs. unfold submit.
        destruct (Text.strip answer) as [|c rest]; [congruence|].
        unfold with_lock, SE.bind.
        set (m1 := mkManager (_states m) ({[form_id]} ∪ _locks m) (disk m)).
        assert (Hv : view form_id m1 = view form_id m) by reflexivity.
        destruct (form_loaded_view form_id m1) as [H|H]; rewrite H, Hv, Hl, Hc, Hr;
          simpl; destruct (last_by_client (view form_id m) !! client_id);
          simpl; discriminate.
      * do 2 eexists. split; [exact Hs|reflexivity].
  - intros E. unfold submit. now rewrite E.
Qed.

Lemma submit_trims_long_and_rejects_blank_witness :
  let long := u "  " ++ replicate 1030 97%N ++ u " " in
  let m := mkManager ∅ ∅ ∅ in
  (MAX_FORM_ANSWER_LENGTH < length (Text.strip long)) /\
  Text.strip (u "   ") = [] /\
  (exists r m', submit 5 "feedback" "c1" long m = (Ok r, m') /\
     FormManager.answer r = replicate 1024 97%N) /\
  submit 5 "feedback" "c1" (u "   ") m
  = (Raise (mkAppError "empty_answer" "Answer cannot be empty" 400 None), m).
Proof.
  intros long m.
  assert (Hlen : MAX_FORM_ANSWER_LENGTH < length (Text.strip long))
    by (vm_compute; lia).
  assert (Hblank : Text.strip (u "   ") = []) by reflexivity.
  split; [exact Hlen|]. split; [exact Hblank|].
  destruct (submit_trims_long_and_rejects_blank 5 "feedback" "c1" long m)
    as [Hlong _].
  destruct (submit_trims_long_and_rejects_blank 5 "feedback" "c1" (u "   ") m)
    as [_ Hb].
  split; [|exact (Hb Hblank)].
  destruct (Hlong Hlen) as (_ & _ & Hok).
  destruct Hok as (r & m' & Hs & Ha); try reflexivity.
  exists r, m'. split; [exact Hs|]. rewrite Ha. vm_compute. reflexivity.
Defined.

(** The request model of the HTTP endpoint accepts no answer of more
    than [MAX_FORM_ANSWER_LENGTH] characters, so that the cut of [submit]
    is reached by its direct callers only. *)
Lemma request_model_caps_answer (answer : ustr) :
  FormSubmitRequest_answer_valid answer = true ->
  recorded_answer answer = Text.strip answer.
Proof.
  unfold FormSubmitRequest_answer_valid, recorded_answer.
  intros H. apply andb_true_iff in H as [_ H]. apply Nat.leb_le in H.
  apply take_ge.
  assert (G : forall s, length (Text.lstrip s) <= length s).
  { induction s as [|c s IH]; simpl; [lia|].
    destruct (Text.is_space c); simpl; lia. }
  unfold Text.strip, Text.rstrip. rewrite length_rev.
  etransitivity; [apply G|]. rewrite length_rev.
  etransitivity; [apply G|]. exact H.
Qed.

(** *** The manager seen through its forms *)

Lemma run_eta {A B} (p : A * B) (a : A) : fst p = a -> p = (a, snd p).
Proof. intros <-. now destruct p. Qed.

Lemma form_loaded_all form_id m :
  exists m', _ensure_loaded form_id m = (Ok (view form_id m), m') /\
    disk m' = disk m /\ forall p, view p m' = view p m.
Proof.
unfold _ensure_loaded.
destruct (_states m !! form_id) as [st|] eqn:E.
- exists m. unfold view at 1. rewrite E. auto.
- eexists. unfold view at 1. rewrite E.
  split; [reflexivity|]. split; [reflexivity|].
  intros p. unfold view. simpl.
  destruct (decide (form_id = p)) as [<-|Hne].
  + now rewrite lookup_insert_eq, E.
  + now rewrite lookup_insert_ne.
Qed.

Lemma form_saved_view form_id st m :
  view form_id (snd (_save_state form_id st m)) = st /\
  forall p, p <> form_id -> view p (snd (_save_state form_id st m)) = view p m.
Proof.
unfold _save_state, SE.modify, view. simpl. split.
- now rewrite lookup_insert_eq.
- intros p Hp. rewrite lookup_insert_ne by congruence.
  destruct (_states m !! p); [reflexivity|].
  unfold _load_state. now rewrite lookup_insert_ne by congruence.
Qed.

(** Whether the client is within the cooldown of its last submission. *)
Definition cooling (now : Z) (client_id : string) (st : FormState) : bool :=
  match last_by_client st !! client_id with
  | Some l => (0 <? cooldown st)%Z && (now - l <? cooldown st)%Z
  | None => false
  end.

(** The outcome of [submit] for a stripped, cut answer on the form found. *)
Definition decision (now : Z) (client_id : string) (trimmed : ustr)
    (st : FormState) : Result AppError Response :=
  if locked st then Raise (FormError "locked" "Form is locked" 423 None)
  else if cooling now client_id st then
    Raise (FormError "cooldown" "Cooldown is active" 429
             (Some (Z.max 0 (cooldown st
                             - (now - default 0%Z
                                        (last_by_client st !! client_id))))))
  else if negb (allow_repeat st)
          && existsb (fun item => String.eqb (clientId item) client_id)
               (responses st)
  then Raise (FormError "repeat_not_allowed" "Repeat submissions are disabled"
                409 None)
  else Ok (snd (append_response now client_id trimmed st)).

Lemma submit_decides now form_id client_id answer m :
  Text.strip answer <> [] ->
  exists m',
    submit now form_id client_id answer m
    = (decision now client_id (recorded_answer answer) (view form_id m), m') /\
    (forall p, p <> form_id -> view p m' = view p m) /\
    match decision now client_id (recorded_answer answer) (view form_id m) with
    | Ok _ =>
        view form_id m'
        = fst (append_response now client_id (recorded_answer answer)
                 (view form_id m)) /\
        exists m2,
          m' = snd (_save_state form_id
                      (fst (append_response now client_id
                              (recorded_answer answer) (view form_id m))) m2)
    | Raise _ => view form_id m' = view form_id m /\ disk m' = disk m
    end.
Proof.
intros Hne. unfold submit.
destruct (Text.strip answer) as [|c rest] eqn:Es; [congruence|].
assert (Ht : (if MAX_FORM_ANSWER_LENGTH <? length (c :: rest)
              then take MAX_FORM_ANSWER_LENGTH (c :: rest) else c :: rest)
             = recorded_answer answer).
{ unfold recorded_answer. rewrite Es.
  destruct (Nat.ltb_spec MAX_FORM_ANSWER_LENGTH (length (c :: rest)));
    [reflexivity|]. now rewrite take_ge. }
rewrite Ht. clear Ht. unfold with_lock, SE.bind.
set (m1 := mkManager (_states m) ({[form_id]} ∪ _locks m) (disk m)).
destruct (form_loaded_all form_id m1) as (m2 & -> & Hd & Hv).
change (view form_id m1) with (view form_id m).
assert (Hv' : forall p, view p m2 = view p m) by (intros p; apply Hv).
assert (Hd' : disk m2 = disk m) by exact Hd.
clearbody m1. clear Hv Hd.
pose proof (Hv' form_id) as Hf.
set (st := view form_id m) in *. unfold decision, cooling. cbv zeta.
destruct (locked st).
{ exists m2. simpl. auto. }
destruct (last_by_client st !! client_id) as [l|] eqn:El; cbn [default id].
- destruct ((0 <? cooldown st)%Z && (now - l <? cooldown st)%Z).
  { exists m2. auto. }
  destruct (negb (allow_repeat st)
            && existsb (fun item => String.eqb (clientId item) client_id)
                 (responses st)).
  { exists m2. auto. }
  eexists. split; [reflexivity|].
  destruct (form_saved_view form_id
              (fst (append_response now client_id (recorded_answer answer) st)) m2)
    as [Hs Ho].
  split; [intros p Hp; rewrite <- Hv'; now apply Ho|].
  split; [exact Hs|exists m2; reflexivity].
- destruct (negb (allow_repeat st)
            && existsb (fun item => String.eqb (clientId item) client_id)
                 (responses st)).
  { exists m2. auto. }
  eexists. split; [reflexivity|].
  destruct (form_saved_view form_id
              (fst (append_response now client_id (recorded_answer answer) st)) m2)
    as [Hs Ho].
  split; [intros p Hp; rewrite <- Hv'; now apply Ho|].
  split; [exact Hs|exists m2; reflexivity].
Qed.

Lemma submit_ok_nonblank now form_id client_id answer m r m' :
  submit now form_id client_id answer m = (Ok r, m') -> Text.strip answer <> [].
Proof.
unfold submit. destruct (Text.strip answer); [discriminate|discriminate].
Qed.

(** X15. A rejected submission changes nothing: whenever [submit] raises,
    for a blank answer, a locked form, an active cooldown or a forbidden
    repeat, every form is as before, in memory and on disk. *)
Theorem submit_failure_changes_nothing (now : Z) (form_id client_id : string)
    (answer : ustr) (m m' : Manager) (e : AppError) :
  submit now form_id client_id answer m = (Raise e, m') ->
  disk m' = disk m /\ forall p, view p m' = view p m.
Proof.
intros H. destruct (Text.strip answer) as [|c rest] eqn:Es.
- unfold submit in H. rewrite Es in H. injection H as _ <-. auto.
- destruct (submit_decides now form_id client_id answer m) as (m2 & E & Ho & Hd);
    [congruence|].
  rewrite H in E. injection E as E <-. rewrite <- E in Hd.
  destruct Hd as [Hv Hd]. split; [exact Hd|].
  intros p. destruct (decide (p = form_id)) as [->|Hp]; auto.
Qed.

Lemma submit_failure_changes_nothing_witness :
  let m0 := mkManager ∅ ∅ ∅ in
  let m1 := snd (update_config 1 "feedback" None None None (Some true) m0) in
  exists e m2,
    submit 2 "feedback" "c1" (u "hello") m1 = (Raise e, m2) /\
    code e = "locked" /\ status e = 423 /\ disk m2 = disk m1.
Proof.
intros m0 m1.
destruct (submit 2 "feedback" "c1" (u "hello") m1) as [r m2] eqn:E.
assert (Hr : r = Raise (mkAppError "locked" "Form is locked" 423 None)).
{ change r with (fst (r, m2)). rewrite <- E. reflexivity. }
subst r. do 2 eexists. split; [reflexivity|].
split; [reflexivity|]. split; [reflexivity|].
apply (submit_failure_changes_nothing 2 "feedback" "c1" (u "hello") m1 m2 _ E).
Defined.

Lemma append_response_facts now client_id trimmed st :
  let st' := fst (append_response now client_id trimmed st) in
  let r := snd (append_response now client_id trimmed st) in
  seq r = next_seq st /\ clientId r = client_id /\ submitted r = now /\
  question r = fquestion st /\ FormManager.answer r = trimmed /\
  next_seq st' = (next_seq st + 1)%Z /\
  last (responses st') = Some r /\
  length (responses st') <= MAX_FORM_RESPONSES /\
  last_by_client st' !! client_id = Some now /\
  cooldown st' = cooldown st /\ locked st' = locked st /\
  allow_repeat st' = allow_repeat st /\ fquestion st' = fquestion st.
Proof.
unfold append_response. cbn [fst snd seq clientId submitted question answer
  next_seq responses last_by_client cooldown locked allow_repeat fquestion].
set (r := mkResponse _ _ _ _ _).
repeat split; try reflexivity.
- destruct (Nat.ltb_spec MAX_FORM_RESPONSES (length (responses st ++ [r]))) as [H|H].
  + rewrite last_drop by (unfold MAX_FORM_RESPONSES in *; lia). apply last_snoc.
  + apply last_snoc.
- destruct (Nat.ltb_spec MAX_FORM_RESPONSES (length (responses st ++ [r]))) as [H|H].
  + rewrite length_drop. unfold MAX_FORM_RESPONSES in *. lia.
  + exact H.
- apply lookup_insert_eq.
Qed.

(** X16. A submission that succeeds takes the next sequence number: the
    record carries [next_seq], the client, the time and the question of the
    form; afterwards [next_seq] is one more, the record is the last of the
    responses, the responses are at most [MAX_FORM_RESPONSES], and the
    client's last action is the time of the call. The other forms are
    untouched. *)
Theorem submit_success_records (now : Z) (form_id client_id : string)
    (answer : ustr) (m m' : Manager) (r : Response) :
  submit now form_id client_id answer m = (Ok r, m') ->
  let st := view form_id m in
  let st' := view form_id m' in
  seq r = next_seq st /\ clientId r = client_id /\ submitted r = now /\
  question r = fquestion st /\
  next_seq st' = (seq r + 1)%Z /\
  last (responses st') = Some r /\
  length (responses st') <= MAX_FORM_RESPONSES /\
  last_by_client st' !! client_id = Some now /\
  (forall p, p <> form_id -> view p m' = view p m).
Proof.
intros H st st'.
destruct (submit_decides now form_id client_id answer m
            (submit_ok_nonblank _ _ _ _ _ _ _ H)) as (m2 & E & Ho & Hd).
rewrite H in E. injection E as E <-. rewrite <- E in Hd.
destruct Hd as [Hd _].
unfold decision in E.
destruct (locked (view form_id m)); [discriminate|].
destruct (cooling now client_id (view form_id m)); [discriminate|].
destruct (negb _ && _); [discriminate|].
assert (Er : r = snd (append_response now client_id (recorded_answer answer)
                        (view form_id m))) by congruence.
clear E. subst r.
destruct (append_response_facts now client_id (recorded_answer answer)
            (view form_id m))
  as (H1 & H2 & H3 & H4 & _ & H5 & H6 & H7 & H8 & _).
subst st st'. rewrite Hd. rewrite H1.
repeat split; assumption.
Qed.

Lemma submit_success_records_witness :
  let m0 := mkManager ∅ ∅ ∅ in
  let m1 := snd (submit 10 "feedback" "c1" (u " first ") m0) in
  let m2 := snd (submit 11 "feedback" "c2" (u "second") m1) in
  exists r',
    submit 11 "feedback" "c2" (u "second") m1 = (Ok r', m2) /\
    seq r' = 2%Z /\ next_seq (view "feedback" m2) = 3%Z.
Proof.
intros m0 m1 m2.
assert (E2 : submit 11 "feedback" "c2" (u "second") m1
             = (Ok (mkResponse 2 "c2" (u "second") DEFAULT_FORM_QUESTION 11), m2))
  by (apply run_eta; reflexivity).
eexists. split; [exact E2|]. split; [reflexivity|].
destruct (submit_success_records 11 "feedback" "c2" (u "second") m1 m2 _ E2)
  as (_ & _ & _ & _ & H & _).
exact H.
Defined.

(** X17. The cooldown: after a submission accepted at time [t0] on a form
    whose cooldown is positive, a submission of the same client at time
    [t1] with [t1 - t0] below the cooldown is rejected with the error
    [cooldown] of status 429, which carries
    [retry_in = max 0 (cooldown - (t1 - t0))], and changes nothing; once
    [t1 - t0] has reached the cooldown it is accepted, repeats being
    allowed, and takes the next sequence number. *)
Theorem submit_cooldown (t0 t1 : Z) (form_id client_id : string)
    (answer answer' : ustr) (m m1 : Manager) (r : Response) :
  submit t0 form_id client_id answer m = (Ok r, m1) ->
  (0 < cooldown (view form_id m1))%Z ->
  Text.strip answer' <> [] ->
  let cd := cooldown (view form_id m1) in
  ((t1 - t0 < cd)%Z ->
   exists m2,
     submit t1 form_id client_id answer' m1
     = (Raise (mkAppError "cooldown" "Cooldown is active" 429
                 (Some (Z.max 0 (cd - (t1 - t0))))), m2) /\
     view form_id m2 = view form_id m1 /\ disk m2 = disk m1) /\
  ((cd <= t1 - t0)%Z -> allow_repeat (view form_id m1) = true ->
   exists r' m2,
     submit t1 form_id client_id answer' m1 = (Ok r', m2) /\
     seq r' = (seq r + 1)%Z).
Proof.
intros H Hcd Hne cd.
destruct (submit_decides t0 form_id client_id answer m
            (submit_ok_nonblank _ _ _ _ _ _ _ H)) as (m2 & E & _ & Hd).
rewrite H in E. injection E as E <-. rewrite <- E in Hd.
destruct Hd as [Hd _].
unfold decision in E.
destruct (locked (view form_id m)) eqn:Hl; [discriminate|].
destruct (cooling t0 client_id (view form_id m)); [discriminate|].
destruct (negb _ && _); [discriminate|].
assert (Er : r = snd (append_response t0 client_id (recorded_answer answer)
                        (view form_id m))) by congruence.
clear E. subst r.
destruct (append_response_facts t0 client_id (recorded_answer answer)
            (view form_id m))
  as (H1 & _ & _ & _ & _ & H5 & _ & _ & H8 & H9 & H10 & _).
rewrite <- Hd in H5, H8, H9, H10. rewrite Hl in H10.
destruct (submit_decides t1 form_id client_id answer' m1 Hne)
  as (m3 & E3 & _ & Hd3).
unfold decision in E3, Hd3. rewrite H10 in E3, Hd3.
unfold cooling in E3, Hd3. rewrite H8 in E3, Hd3. simpl in E3, Hd3.
fold cd in E3, Hd3.
assert (Hpos : (0 <? cd)%Z = true) by (apply Z.ltb_lt; exact Hcd).
rewrite Hpos in E3, Hd3. simpl in E3, Hd3.
split.
- intros Hlt. apply Z.ltb_lt in Hlt. rewrite Hlt in E3, Hd3.
  exists m3. split; [exact E3|exact Hd3].
- intros Hge Hrep. apply Z.ltb_ge in Hge. rewrite Hge, Hrep in E3. simpl in E3.
  do 2 eexists. split; [exact E3|].
  rewrite H1. cbn [seq]. exact H5.
Qed.

Lemma submit_cooldown_witness :
  let m0 := snd (update_config 1 "feedback" None (Some 5%Z) None None
                   (mkManager ∅ ∅ ∅)) in
  let m1 := snd (submit 100 "feedback" "c1" (u "first") m0) in
  (exists m2,
     submit 103 "feedback" "c1" (u "again") m1
     = (Raise (mkAppError "cooldown" "Cooldown is active" 429 (Some 2%Z)), m2)) /\
  (exists r' m2,
     submit 105 "feedback" "c1" (u "again") m1 = (Ok r', m2) /\ seq r' = 2%Z).
Proof.
intros m0 m1.
assert (E1 : submit 100 "feedback" "c1" (u "first") m0
             = (Ok (mkResponse 1 "c1" (u "first") DEFAULT_FORM_QUESTION 100), m1))
  by (apply run_eta; reflexivity).
assert (Hcd : cooldown (view "feedback" m1) = 5%Z) by reflexivity.
destruct (submit_cooldown 100 103 "feedback" "c1" (u "first") (u "again") m0 m1 _ E1)
  as [Hin _]; [rewrite Hcd; lia|discriminate|].
destruct (submit_cooldown 100 105 "feedback" "c1" (u "first") (u "again") m0 m1 _ E1)
  as [_ Hout]; [rewrite Hcd; lia|discriminate|].
rewrite Hcd in Hin, Hout. split.
- destruct Hin as (m2 & Hs & _); [lia|]. exists m2. exact Hs.
- destruct Hout as (r' & m2 & Hs & Hq); [lia|reflexivity|]. eauto.
Defined.

(** *** Clearing and configuring a form *)

Lemma clear_result now form_id m :
  exists m',
    clear now form_id m
    = (Ok (_config_snapshot (cleared now (view form_id m))), m') /\
    view form_id m' = cleared now (view form_id m) /\
    forall p, p <> form_id -> view p m' = view p m.
Proof.
unfold clear, with_lock, SE.bind.
set (m1 := mkManager (_states m) ({[form_id]} ∪ _locks m) (disk m)).
destruct (form_loaded_all form_id m1) as (m2 & -> & Hd & Hv).
change (view form_id m1) with (view form_id m).
destruct (form_saved_view form_id (cleared now (view form_id m)) m2) as [Hs Ho].
eexists. split; [reflexivity|]. split; [exact Hs|].
intros p Hp. etransitivity; [exact (Ho p Hp)|apply Hv].
Qed.

(** X18. [clear] drops the responses and the history of the clients and
    keeps the configuration: afterwards the form has no response, its
    [next_seq] is 1, its question, cooldown, repeat flag and lock flag are
    as before; on a form that is not locked the next submission of any
    client is accepted at once, whatever the cooldown, and gets the
    sequence number 1. *)
Theorem clear_restarts_form (now t : Z) (form_id client_id : string)
    (answer : ustr) (m : Manager) :
  Text.strip answer <> [] ->
  let m' := snd (clear now form_id m) in
  let st := view form_id m in
  let st' := view form_id m' in
  responses st' = [] /\ next_seq st' = 1%Z /\ last_by_client st' = ∅ /\
  fquestion st' = fquestion st /\ cooldown st' = cooldown st /\
  allow_repeat st' = allow_repeat st /\ locked st' = locked st /\
  (locked st = false ->
   exists r m2, submit t form_id client_id answer m' = (Ok r, m2) /\
                seq r = 1%Z).
Proof.
intros Hne m' st st'.
destruct (clear_result now form_id m) as (m1 & E & Hv & _).
subst m' st'. rewrite E. cbn [snd]. rewrite Hv. fold st.
repeat split.
intros Hl.
destruct (submit_decides t form_id client_id answer m1 Hne) as (m2 & E2 & _).
rewrite Hv in E2. fold st in E2. unfold decision, cooling in E2.
cbn [cleared locked last_by_client allow_repeat responses existsb] in E2.
rewrite Hl, lookup_empty, andb_false_r in E2.
do 2 eexists. split; [exact E2|reflexivity].
Qed.

Lemma clear_restarts_form_witness :
  let m0 := snd (update_config 1 "feedback" None (Some 50%Z) (Some false) None
                   (mkManager ∅ ∅ ∅)) in
  let m1 := snd (submit 10 "feedback" "c1" (u "first") m0) in
  let m2 := snd (clear 11 "feedback" m1) in
  next_seq (view "feedback" m1) = 2%Z /\
  cooldown (view "feedback" m2) = 50%Z /\
  exists r m3, submit 12 "feedback" "c1" (u "again") m2 = (Ok r, m3) /\
               seq r = 1%Z.
Proof.
intros m0 m1 m2. split; [reflexivity|].
destruct (clear_restarts_form 11 12 "feedback" "c1" (u "again") m1)
  as (_ & _ & _ & _ & Hc & _ & _ & Hs); [discriminate|].
split; [exact Hc|]. apply Hs. reflexivity.
Defined.

Lemma update_config_cases (now : Z) (form_id : string)
    (question : option ustr) (cooldown' : option Z)
    (allow_repeat' locked' : option bool) (m : Manager) :
  let q := option_map Text.strip question in
  let bad :=
    match q with Some q' => Text.eqb q' [] || (280 <? length q') | None => false end in
  exists m',
    (bad = true ->
     (exists e, update_config now form_id question cooldown' allow_repeat'
                  locked' m = (Raise e, m') /\
                code e = "invalid_question" /\ status e = 400) /\
     disk m' = disk m /\ forall p, view p m' = view p m) /\
    (bad = false ->
     let st' := configured now q cooldown' allow_repeat' locked'
                  (view form_id m) in
     update_config now form_id question cooldown' allow_repeat' locked' m
     = (Ok (_config_snapshot st'), m') /\
     view form_id m' = st' /\
     fquestion st' = default (fquestion (view form_id m)) q /\
     (0 <= cooldown (view form_id m) -> 0 <= cooldown st')%Z /\
     (forall c, cooldown' = Some c -> cooldown st' = Z.max 0 c)).
Proof.
intros q bad. unfold update_config, with_lock, SE.bind.
set (m1 := mkManager (_states m) ({[form_id]} ∪ _locks m) (disk m)).
destruct (form_loaded_all form_id m1) as (m2 & -> & Hd & Hv).
change (view form_id m1) with (view form_id m).
assert (Hv' : forall p, view p m2 = view p m) by (intros p; apply Hv).
assert (Hd' : disk m2 = disk m) by exact Hd.
fold q. subst bad. destruct q as [[|c rest]|] eqn:Eq.
- exists m2. split; [|discriminate]. intros _.
  split; [eexists; split; [reflexivity|split; reflexivity]|]. auto.
- cbn [Text.eqb orb].
  destruct (280 <? length (c :: rest)) eqn:El.
  + exists m2. split; [|discriminate]. intros _.
    split; [eexists; split; [reflexivity|split; reflexivity]|]. auto.
  + eexists. split; [discriminate|]. intros _.
    cbv zeta. split; [reflexivity|].
    destruct (form_saved_view form_id
                (configured now (Some (c :: rest)) cooldown' allow_repeat'
                   locked' (view form_id m)) m2) as [Hs _].
    split; [exact Hs|]. split; [reflexivity|].
    split; [|intros c0 ->; reflexivity].
    intros H0. unfold configured. cbn [cooldown].
    destruct cooldown'; lia.
- eexists. split; [discriminate|]. intros _.
  cbv zeta. split; [reflexivity|].
  destruct (form_saved_view form_id
              (configured now None cooldown' allow_repeat' locked'
                 (view form_id m)) m2) as [Hs _].
  split; [exact Hs|]. split; [reflexivity|].
  split; [|intros c0 ->; reflexivity].
  intros H0. unfold configured. cbn [cooldown].
  destruct cooldown'; lia.
Qed.

(** X19. [update_config] checks the question before it changes anything:
    a question that is blank once stripped, or longer than 280 characters
    once stripped, is rejected with the error [invalid_question] of status
    400, and every form is as before, in memory and on disk, whatever the
    other settings of the call were. *)
Theorem update_config_rejects_bad_question (now : Z) (form_id : string)
    (question : ustr) (cooldown' : option Z)
    (allow_repeat' locked' : option bool) (m : Manager) :
  Text.strip question = [] \/ 280 < length (Text.strip question) ->
  exists e m',
    update_config now form_id (Some question) cooldown' allow_repeat' locked' m
    = (Raise e, m') /\
    code e = "invalid_question" /\ status e = 400 /\
    disk m' = disk m /\ forall p, view p m' = view p m.
Proof.
intros Hbad.
destruct (update_config_cases now form_id (Some question) cooldown'
            allow_repeat' locked' m) as (m' & Hb & _).
cbn [option_map] in Hb.
destruct Hb as ((e & He & Hc & Hs) & Hd & Hv).
- destruct Hbad as [->|Hlen]; [reflexivity|].
  apply orb_true_iff. right. apply Nat.ltb_lt. exact Hlen.
- exists e, m'. auto.
Qed.

Lemma update_config_rejects_bad_question_witness :
  let m0 := mkManager ∅ ∅ ∅ in
  exists e m',
    update_config 1 "feedback" (Some (u "   ")) (Some 30%Z) None (Some true) m0
    = (Raise e, m') /\
    code e = "invalid_question" /\ status e = 400 /\
    disk m' = disk m0 /\ forall p, view p m' = view p m0.
Proof.
intros m0.
apply (update_config_rejects_bad_question 1 "feedback" (u "   ") (Some 30%Z)
         None (Some true) m0).
left. reflexivity.
Defined.

(** X20. Locking a form: a call of [update_config] with [locked = True]
    whose question, if one is given, passes the checks, keeps the responses
    and the sequence number of the form, and every later submission is
    rejected with the error [locked] of status 423 and changes nothing. *)
Theorem locked_form_rejects_submissions (now t : Z)
    (form_id client_id : string) (question : option ustr)
    (cooldown' : option Z) (allow_repeat' : option bool) (answer : ustr)
    (m : Manager) :
  (forall q, question = Some q ->
     Text.strip q <> [] /\ length (Text.strip q) <= 280) ->
  Text.strip answer <> [] ->
  let m1 := snd (update_config now form_id question cooldown' allow_repeat'
                   (Some true) m) in
  responses (view form_id m1) = responses (view form_id m) /\
  next_seq (view form_id m1) = next_seq (view form_id m) /\
  exists m2,
    submit t form_id client_id answer m1
    = (Raise (mkAppError "locked" "Form is locked" 423 None), m2) /\
    disk m2 = disk m1 /\ forall p, view p m2 = view p m1.
Proof.
intros Hq Hne m1.
destruct (update_config_cases now form_id question cooldown' allow_repeat'
            (Some true) m) as (m' & _ & Hok).
destruct Hok as (E & Hv & _).
{ destruct question as [q|]; [|reflexivity]. cbn [option_map].
  destruct (Hq q eq_refl) as [H1 H2].
  apply orb_false_iff. split.
  - destruct (Text.strip q); [congruence|reflexivity].
  - apply Nat.ltb_ge. exact H2. }
subst m1. rewrite E. cbn [snd]. rewrite Hv.
split; [reflexivity|]. split; [reflexivity|].
destruct (submit_decides t form_id client_id answer m' Hne) as (m2 & E2 & Ho & Hd).
rewrite Hv in E2, Hd. unfold decision in E2, Hd.
cbn [configured locked default id] in E2, Hd.
exists m2. split; [exact E2|]. destruct Hd as [Hf Hd]. split; [exact Hd|].
intros p. destruct (decide (p = form_id)) as [->|Hp]; auto.
rewrite Hf. symmetry. exact Hv.
Qed.

Lemma locked_form_rejects_submissions_witness :
  let m0 := snd (submit 5 "feedback" "c1" (u "first") (mkManager ∅ ∅ ∅)) in
  let m1 := snd (update_config 6 "feedback" (Some (u " Why? ")) None None
                   (Some true) m0) in
  length (responses (view "feedback" m1)) = 1 /\
  fquestion (view "feedback" m1) = u "Why?" /\
  exists m2,
    submit 7 "feedback" "c2" (u "second") m1
    = (Raise (mkAppError "locked" "Form is locked" 423 None), m2).
Proof.
intros m0 m1. split; [reflexivity|]. split; [reflexivity|].
destruct (locked_form_rejects_submissions 6 7 "feedback" "c2"
            (Some (u " Why? ")) None None (u "second") m0)
  as (_ & _ & m2 & Hs & _).
- intros q [= <-]. split; [discriminate|]. vm_compute. lia.
- discriminate.
- exists m2. exact Hs.
Defined.

(** *** Reading a saved form back *)

(** What the file keeps of a form: the state was made for this id, its
    question is stripped and not empty, and its sequence number is not
    zero. *)
Definition storable (form_id : string) (st : FormState) : Prop :=
  FormManager.form_id st = form_id /\
  Text.strip (fquestion st) = fquestion st /\ fquestion st <> [] /\
  next_seq st <> 0%Z.

Lemma number_from_saved (rs : list Response) (idx : Z) :
  number_from idx (map (fun r => (Some (seq r), r)) rs) = rs.
Proof.
revert idx. induction rs as [|r rs IH]; intros idx; simpl; [reflexivity|].
rewrite IH. now destruct r.
Qed.

Lemma form_save_load form_id st m :
  storable form_id st ->
  _load_state form_id (disk (snd (_save_state form_id st m))) = st.
Proof.
intros (Hid & Hq & Hne & Hn).
unfold _save_state, SE.modify, _load_state. cbn [snd disk].
rewrite lookup_insert_eq.
cbn [raw_question raw_cooldown raw_allowRepeat raw_locked raw_responses
     raw_lastByClient raw_nextSeq raw_updated default id].
rewrite number_from_saved.
assert (Hq' : Text.strip match fquestion st with
                         | [] => DEFAULT_FORM_QUESTION
                         | c :: q => c :: q
                         end = fquestion st).
{ destruct (fquestion st) as [|c q] eqn:E; [congruence|]. exact Hq. }
rewrite Hq'.
assert (Hc : or_num (Some (cooldown st)) 0 = cooldown st).
{ unfold or_num. destruct (Z.eqb_spec (cooldown st) 0); congruence. }
assert (Hs : forall y, or_num (Some (next_seq st)) y = next_seq st).
{ intros y. unfold or_num. destruct (Z.eqb_spec (next_seq st) 0); congruence. }
rewrite Hc, Hs. subst form_id.
destruct st as [fid fq cd ar lk rs lbc ns up]. cbn in *.
destruct fq; [congruence|reflexivity].
Qed.

(** X27. An accepted response survives a restart: after a successful
    [submit] on a form whose state was made for its id, with a stripped,
    non-empty question and a positive sequence number, a manager that
    starts with nothing in memory and reads the file finds the form
    exactly as the running manager has it, the new response included. *)
Theorem submitted_response_is_read_back (now : Z)
    (form_id client_id : string) (answer : ustr) (m m' : Manager)
    (r : Response) :
  submit now form_id client_id answer m = (Ok r, m') ->
  FormManager.form_id (view form_id m) = form_id ->
  Text.strip (fquestion (view form_id m)) = fquestion (view form_id m) ->
  fquestion (view form_id m) <> [] ->
  (0 < next_seq (view form_id m))%Z ->
  view form_id (mkManager ∅ ∅ (disk m')) = view form_id m' /\
  last (responses (view form_id (mkManager ∅ ∅ (disk m')))) = Some r.
Proof.
intros H Hid Hq Hne Hn.
destruct (submit_decides now form_id client_id answer m
            (submit_ok_nonblank _ _ _ _ _ _ _ H)) as (m2 & E & _ & Hd).
rewrite H in E. injection E as E <-. rewrite <- E in Hd.
destruct Hd as (Hv & m3 & Hm).
unfold decision in E.
destruct (locked (view form_id m)); [discriminate|].
destruct (cooling now client_id (view form_id m)); [discriminate|].
destruct (negb _ && _); [discriminate|].
assert (Er : r = snd (append_response now client_id (recorded_answer answer)
                        (view form_id m))) by congruence.
clear E.
destruct (append_response_facts now client_id (recorded_answer answer)
            (view form_id m))
  as (_ & _ & _ & _ & _ & H5 & H6 & _ & _ & _ & _ & _ & H13).
assert (Hload : view form_id (mkManager ∅ ∅ (disk m')) = view form_id m').
{ unfold view at 1. cbn [_states disk]. rewrite lookup_empty, Hv.
  rewrite Hm at 1. apply form_save_load.
  split; [exact Hid|]. split; [rewrite H13; exact Hq|].
  split; [rewrite H13; exact Hne|]. rewrite H5. lia. }
split; [exact Hload|]. rewrite Hload, Hv, Er. exact H6.
Qed.

Lemma submitted_response_is_read_back_witness :
  let m0 := mkManager ∅ ∅ ∅ in
  let m1 := snd (submit 10 "feedback" "c1" (u " first ") m0) in
  view "feedback" (mkManager ∅ ∅ (disk m1)) = view "feedback" m1 /\
  map FormManager.answer (responses (view "feedback" (mkManager ∅ ∅ (disk m1))))
  = [u "first"].
Proof.
intros m0 m1.
assert (E : submit 10 "feedback" "c1" (u " first ") m0
            = (Ok (mkResponse 1 "c1" (u "first") DEFAULT_FORM_QUESTION 10), m1))
  by (apply run_eta; reflexivity).
destruct (submitted_response_is_read_back 10 "feedback" "c1" (u " first ")
            m0 m1 _ E) as [Hv _].
- reflexivity.
- reflexivity.
- discriminate.
- reflexivity.
- split; [exact Hv|reflexivity].
Defined.
End FormManagerSpec.

(** ** Button panels *)

Module ButtonManagerSpec.
Import Names ButtonManager.

Section with_title.
Variable title : string -> string.

(** The panel as a call finds it: the state in memory, or else the state
    read from the file. *)
Definition view (panel_id : string) (m : Manager) : ButtonPanelState :=
  match _states m !! panel_id with
  | Some st => st
  | None => _load_state title panel_id (disk m)
  end.

Lemma panel_loaded_view panel_id m :
  exists m', _ensure_loaded title panel_id m = (Ok (view panel_id m), m') /\
    disk m' = disk m /\ forall p, view p m' = view p m.
Proof.
  unfold _ensure_loaded.
  destruct (_states m !! panel_id) as [st|] eqn:E.
  - exists m. unfold view at 1. rewrite E. auto.
  - eexists. unfold view at 1. rewrite E.
    split; [reflexivity|]. split; [reflexivity|].
    intros p. unfold view. simpl.
    destruct (decide (panel_id = p)) as [<-|Hne].
    + now rewrite lookup_insert_eq, E.
    + now rewrite lookup_insert_ne.
Qed.

(** C9, as the code has it. On a panel that is not locked, firing a
    button id that the panel does not define, in one of the two
    directions [minus] and [plus] (in any letter case), raises the
    not-found error [unknown_button] of status 404 and leaves every panel
    as it was, in memory and on disk: the counters of every button, the
    events, [next_seq] and the last actions of the clients. *)
Theorem fire_unknown_button (now : Z)
    (panel_id client_id button_id direction : string) (m : Manager) :
  lower direction = "minus" \/ lower direction = "plus" ->
  locked (view panel_id m) = false ->
  PyDict.get button_id (buttons (view panel_id m)) = None ->
  exists m',
    fire title now panel_id client_id button_id direction m
    = (Raise (mkAppError "unknown_button"
                ("Button '" ++ button_id ++ "' is not defined")%string 404 None),
       m') /\
    disk m' = disk m /\
    (forall p, view p m' = view p m) /\
    buttons (view panel_id m') = buttons (view panel_id m) /\
    events (view panel_id m') = events (view panel_id m) /\
    next_seq (view panel_id m') = next_seq (view panel_id m) /\
    last_by_client (view panel_id m') = last_by_client (view panel_id m).
Proof.
  intros Hdir Hl Hb. unfold fire.
  assert (Hd : negb (String.eqb (lower direction) "minus"
                     || String.eqb (lower direction) "plus") = false).
  { destruct Hdir as [->| ->]; reflexivity. }
  rewrite Hd. unfold with_lock, SE.bind.
  set (m1 := mkManager (_states m) ({[panel_id]} ∪ _locks m) (disk m)).
  destruct (panel_loaded_view panel_id m1) as (m' & -> & Hdisk & Hv).
  change (view panel_id m1) with (view panel_id m).
  rewrite Hl, Hb. exists m'. split; [reflexivity|].
  split; [exact Hdisk|].
  assert (Hv' : forall p, view p m' = view p m) by (intros p; apply Hv).
  split; [exact Hv'|]. now rewrite Hv'.
Qed.
End with_title.

Lemma fire_unknown_button_witness :
  let m := mkManager ∅ ∅ ∅ in
  exists m',
    fire (fun x => x) 1 "main" "c1" "nope" "Plus" m
    = (Raise (mkAppError "unknown_button" "Button 'nope' is not defined"
                404 None), m') /\
    buttons (view (fun x => x) "main" m') = _default_buttons.
Proof.
  intros m.
  destruct (fire_unknown_button (fun x => x) 1 "main" "c1" "nope" "Plus" m)
    as (m' & Hf & _ & _ & Hb & _).
  - right. reflexivity.
  - reflexivity.
  - reflexivity.
  - exists m'. split; [exact Hf|]. rewrite Hb. reflexivity.
Defined.

(** C9, as the claim states it, fails: with a direction that is neither
    [minus] nor [plus] the undefined button is not looked up and the
    error is the validation error [invalid_direction] of status 400. *)
Lemma fire_unknown_button_bad_direction :
  let m := mkManager ∅ ∅ ∅ in
  locked (view (fun x => x) "main" m) = false /\
  PyDict.get "nope" (buttons (view (fun x => x) "main" m)) = None /\
  fire (fun x => x) 1 "main" "c1" "nope" "sideways" m
  = (Raise (mkAppError "invalid_direction"
              "Direction must be 'minus' or 'plus'" 400 None), m).
Proof.
  repeat split.
Qed.

(** *** Presses, resets and the configuration of a panel *)

Section panel_operations.
Variable title : string -> string.
Local Abbreviation view := (view title).

Lemma panel_saved_view panel_id st m :
  view panel_id (snd (_save_state panel_id st m)) = st /\
  forall p, p <> panel_id ->
    view p (snd (_save_state panel_id st m)) = view p m.
Proof.
unfold _save_state, SE.modify, ButtonManagerSpec.view. simpl. split.
- now rewrite lookup_insert_eq.
- intros p Hp. rewrite lookup_insert_ne by congruence.
  destruct (_states m !! p); [reflexivity|].
  unfold _load_state. now rewrite lookup_insert_ne by congruence.
Qed.

(** Whether the client is within the cooldown of its last press. *)
Definition cooling (now : Z) (client_id : string) (st : ButtonPanelState)
  : bool :=
  match last_by_client st !! client_id with
  | Some l => (0 <? cooldown st)%Z && (now - l <? cooldown st)%Z
  | None => false
  end.

(** The outcome of [fire] with a valid direction on the panel found. *)
Definition verdict (now : Z) (client_id button_id direction_norm : string)
    (st : ButtonPanelState) : Result AppError Event :=
  if locked st then Raise (ButtonError "locked" "Panel is locked" 423 None)
  else
    match PyDict.get button_id (buttons st) with
    | None =>
        Raise (ButtonError "unknown_button"
                 ("Button '" ++ button_id ++ "' is not defined")%string
                 404 None)
    | Some info =>
        if cooling now client_id st then
          Raise (ButtonError "cooldown" "Cooldown is active" 429
                   (Some (Z.max 0 (cooldown st
                                   - (now - default 0%Z
                                              (last_by_client st !! client_id))))))
        else Ok (snd (press now client_id button_id direction_norm info st))
    end.

Definition valid_direction (direction : string) : bool :=
  String.eqb (lower direction) "minus" || String.eqb (lower direction) "plus".

Lemma fire_decides now panel_id client_id button_id direction m :
  valid_direction direction = true ->
  exists m',
    fire title now panel_id client_id button_id direction m
    = (verdict now client_id button_id (lower direction) (view panel_id m), m') /\
    (forall p, p <> panel_id -> view p m' = view p m) /\
    match verdict now client_id button_id (lower direction) (view panel_id m) with
    | Ok _ =>
        exists info,
          PyDict.get button_id (buttons (view panel_id m)) = Some info /\
          view panel_id m'
          = fst (press now client_id button_id (lower direction) info
                   (view panel_id m)) /\
          exists m2,
            m' = snd (_save_state panel_id
                        (fst (press now client_id button_id (lower direction)
                                info (view panel_id m))) m2)
    | Raise _ => view panel_id m' = view panel_id m /\ disk m' = disk m
    end.
Proof.
intros Hdir. unfold fire. unfold valid_direction in Hdir. rewrite Hdir.
cbn [negb]. unfold with_lock, SE.bind.
set (m1 := mkManager (_states m) ({[panel_id]} ∪ _locks m) (disk m)).
destruct (panel_loaded_view title panel_id m1) as (m2 & -> & Hd & Hv).
change (view panel_id m1) with (view panel_id m).
assert (Hv' : forall p, view p m2 = view p m) by (intros p; apply Hv).
assert (Hd' : disk m2 = disk m) by exact Hd.
clearbody m1. clear Hv Hd.
pose proof (Hv' panel_id) as Hf.
set (st := view panel_id m) in *. unfold verdict, cooling. cbv zeta.
destruct (locked st).
{ exists m2. simpl. auto. }
destruct (PyDict.get button_id (buttons st)) as [info|] eqn:Eb.
2:{ exists m2. simpl. auto. }
destruct (last_by_client st !! client_id) as [l|] eqn:El; cbn [default id].
- destruct ((0 <? cooldown st)%Z && (now - l <? cooldown st)%Z).
  { exists m2. simpl. auto. }
  eexists. split; [reflexivity|].
  destruct (panel_saved_view panel_id
              (fst (press now client_id button_id (lower direction) info st)) m2)
    as [Hs Ho].
  split; [intros p Hp; rewrite <- Hv'; now apply Ho|].
  exists info. split; [reflexivity|].
  split; [exact Hs|exists m2; reflexivity].
- eexists. split; [reflexivity|].
  destruct (panel_saved_view panel_id
              (fst (press now client_id button_id (lower direction) info st)) m2)
    as [Hs Ho].
  split; [intros p Hp; rewrite <- Hv'; now apply Ho|].
  exists info. split; [reflexivity|].
  split; [exact Hs|exists m2; reflexivity].
Qed.

Lemma fire_invalid_direction now panel_id client_id button_id direction m :
  valid_direction direction = false ->
  fire title now panel_id client_id button_id direction m
  = (Raise (ButtonError "invalid_direction"
              "Direction must be 'minus' or 'plus'" 400 None), m).
Proof.
intros Hdir. unfold fire. unfold valid_direction in Hdir. now rewrite Hdir.
Qed.

(** X21. A rejected press changes nothing: whenever [fire] raises, for a
    direction that is neither [minus] nor [plus], a locked panel, a button
    the panel does not define or an active cooldown, every panel is as
    before, in memory and on disk. *)
Theorem fire_failure_changes_nothing (now : Z)
    (panel_id client_id button_id direction : string) (m m' : Manager)
    (e : AppError) :
  fire title now panel_id client_id button_id direction m = (Raise e, m') ->
  disk m' = disk m /\ forall p, view p m' = view p m.
Proof.
intros H. destruct (valid_direction direction) eqn:Hdir.
- destruct (fire_decides now panel_id client_id button_id direction m Hdir)
    as (m2 & E & Ho & Hd).
  rewrite H in E. injection E as E <-. rewrite <- E in Hd.
  destruct Hd as [Hv Hd]. split; [exact Hd|].
  intros p. destruct (decide (p = panel_id)) as [->|Hp]; auto.
- rewrite fire_invalid_direction in H by exact Hdir.
  injection H as _ <-. auto.
Qed.

(** The sum of the counters of a panel. *)
Definition total (bs : PyDict.dict ButtonInfo) : Z :=
  fold_right (fun b acc => (minus (snd b) + plus (snd b) + acc)%Z) 0%Z bs.

Lemma total_set button_id info info' bs :
  PyDict.get button_id bs = Some info ->
  total (PyDict.set button_id info' bs)
  = (total bs - (minus info + plus info) + (minus info' + plus info'))%Z.
Proof.
induction bs as [|[k v] bs IH]; simpl; [discriminate|].
destruct (String.eqb button_id k); simpl.
- intros [= ->]. lia.
- intros H. rewrite (IH H). lia.
Qed.

Lemma bump_counts direction_norm info :
  label (bump direction_norm info) = label info /\
  (minus (bump direction_norm info) + plus (bump direction_norm info)
   = minus info + plus info + 1)%Z /\
  (if String.eqb direction_norm "minus"
   then minus (bump direction_norm info) = (minus info + 1)%Z /\
        plus (bump direction_norm info) = plus info
   else minus (bump direction_norm info) = minus info /\
        plus (bump direction_norm info) = (plus info + 1)%Z).
Proof.
unfold bump. destruct (String.eqb direction_norm "minus"); simpl;
  repeat split; lia.
Qed.

Lemma press_events now client_id button_id direction_norm info st :
  last (events (fst (press now client_id button_id direction_norm info st)))
  = Some (snd (press now client_id button_id direction_norm info st)) /\
  length (events (fst (press now client_id button_id direction_norm info st)))
  <= MAX_BUTTON_EVENTS.
Proof.
unfold press. cbn [fst snd events].
set (e := mkEvent _ _ _ _ _ _).
destruct (Nat.ltb_spec MAX_BUTTON_EVENTS (length (events st ++ [e]))) as [Hn|Hn].
- split.
  + rewrite FormManagerSpec.last_drop by (unfold MAX_BUTTON_EVENTS in *; lia).
    apply last_snoc.
  + rewrite length_drop. unfold MAX_BUTTON_EVENTS in *. lia.
- split; [apply last_snoc|exact Hn].
Qed.

(** What an accepted press has done. *)
Lemma fire_accepted now panel_id client_id button_id dir m m' ev :
  fire title now panel_id client_id button_id dir m = (Ok ev, m') ->
  exists info,
    PyDict.get button_id (buttons (view panel_id m)) = Some info /\
    view panel_id m'
    = fst (press now client_id button_id (lower dir) info (view panel_id m)) /\
    ev = snd (press now client_id button_id (lower dir) info (view panel_id m)) /\
    exists m2,
      m' = snd (_save_state panel_id
                  (fst (press now client_id button_id (lower dir) info
                          (view panel_id m))) m2).
Proof.
intros H. destruct (valid_direction dir) eqn:Hdir.
2:{ rewrite fire_invalid_direction in H by exact Hdir. discriminate. }
destruct (fire_decides now panel_id client_id button_id dir m Hdir)
  as (m2 & E & _ & Hd).
rewrite H in E. injection E as E <-. rewrite <- E in Hd.
destruct Hd as (info & Hget & Hv & Hm).
exists info. split; [exact Hget|]. split; [exact Hv|]. split; [|exact Hm].
unfold verdict in E. rewrite Hget in E.
destruct (locked (view panel_id m)); [discriminate|].
destruct (cooling now client_id (view panel_id m)); [discriminate|].
congruence.
Qed.

(** X22. An accepted press counts once: the button pressed is one the
    panel defines, its counter of the direction goes up by one and its
    other counter and its label stay; the other buttons and the order of
    the buttons are as before, so the counters of the panel add up to one
    more. The event returned carries [next_seq], the lower-cased
    direction, the label and the time, it is the last of the events, which
    are at most [MAX_BUTTON_EVENTS], and [next_seq] moves on by one. *)
Theorem fire_success_counts (now : Z)
    (panel_id client_id button_id dir : string) (m m' : Manager)
    (ev : Event) :
  fire title now panel_id client_id button_id dir m = (Ok ev, m') ->
  let st := view panel_id m in
  let st' := view panel_id m' in
  exists info info',
    PyDict.get button_id (buttons st) = Some info /\
    PyDict.get button_id (buttons st') = Some info' /\
    label info' = label info /\
    (if String.eqb (direction ev) "minus"
     then minus info' = (minus info + 1)%Z /\ plus info' = plus info
     else direction ev = "plus" /\
          minus info' = minus info /\ plus info' = (plus info + 1)%Z) /\
    (forall b, b <> button_id ->
       PyDict.get b (buttons st') = PyDict.get b (buttons st)) /\
    PyDict.keys (buttons st') = PyDict.keys (buttons st) /\
    total (buttons st') = (total (buttons st) + 1)%Z /\
    seq ev = next_seq st /\ next_seq st' = (seq ev + 1)%Z /\
    direction ev = lower dir /\ elabel ev = label info /\
    buttonId ev = button_id /\ timestamp ev = now /\
    last (events st') = Some ev /\
    length (events st') <= MAX_BUTTON_EVENTS.
Proof.
intros H st st'.
destruct (valid_direction dir) eqn:Hdir.
2:{ rewrite fire_invalid_direction in H by exact Hdir. discriminate. }
destruct (fire_decides now panel_id client_id button_id dir m Hdir)
  as (m2 & E & Ho & Hd).
rewrite H in E. injection E as E <-. rewrite <- E in Hd.
destruct Hd as (info & Hget & Hv & _).
unfold verdict in E. fold st in E, Hget, Hv. rewrite Hget in E.
destruct (locked st); [discriminate|].
destruct (cooling now client_id st); [discriminate|].
assert (Er : ev = snd (press now client_id button_id (lower dir) info st))
  by congruence.
clear E. subst st'. rewrite Hv. subst ev.
destruct (bump_counts (lower dir) info) as (Hl & Hsum & Hdirn).
exists info, (bump (lower dir) info).
unfold press.
cbn [fst snd buttons events next_seq seq direction elabel buttonId timestamp].
set (e := mkEvent _ _ _ _ _ _).
split; [exact Hget|]. split; [apply get_set_same|]. split; [exact Hl|].
split.
{ destruct (String.eqb (lower dir) "minus") eqn:Em; [exact Hdirn|].
  split; [|exact Hdirn].
  unfold valid_direction in Hdir. rewrite Em in Hdir.
  apply String.eqb_eq. exact Hdir. }
split; [intros b Hb; now apply get_set_other|].
split; [rewrite keys_set, Hget; reflexivity|].
split; [rewrite (total_set _ _ _ _ Hget); lia|].
split; [reflexivity|]. split; [reflexivity|]. split; [reflexivity|].
split; [exact Hl|]. split; [reflexivity|]. split; [reflexivity|].
destruct (Nat.ltb_spec MAX_BUTTON_EVENTS (length (events st ++ [e]))) as [Hn|Hn].
- split.
  + rewrite FormManagerSpec.last_drop by (unfold MAX_BUTTON_EVENTS in *; lia).
    apply last_snoc.
  + rewrite length_drop. unfold MAX_BUTTON_EVENTS in *. lia.
- split; [apply last_snoc|exact Hn].
Qed.

(** *** Resetting a panel *)

Lemma reset_result now panel_id m :
  exists m',
    reset title now panel_id m
    = (Ok (_config_snapshot panel_id (reset_state now (view panel_id m))), m') /\
    view panel_id m' = reset_state now (view panel_id m) /\
    forall p, p <> panel_id -> view p m' = view p m.
Proof.
unfold reset, with_lock, SE.bind.
set (m1 := mkManager (_states m) ({[panel_id]} ∪ _locks m) (disk m)).
destruct (panel_loaded_view title panel_id m1) as (m2 & -> & Hd & Hv).
change (view panel_id m1) with (view panel_id m).
destruct (panel_saved_view panel_id (reset_state now (view panel_id m)) m2)
  as [Hs Ho].
eexists. split; [reflexivity|]. split; [exact Hs|].
intros p Hp. etransitivity; [exact (Ho p Hp)|apply Hv].
Qed.

Lemma reset_buttons (bs : PyDict.dict ButtonInfo) :
  let bs' := map (fun b => (fst b, mkButtonInfo (label (snd b)) 0 0)) bs in
  PyDict.keys bs' = PyDict.keys bs /\ total bs' = 0%Z /\
  forall b, PyDict.get b bs'
            = option_map (fun info => mkButtonInfo (label info) 0 0)
                (PyDict.get b bs).
Proof.
induction bs as [|[k v] bs (IH1 & IH2 & IH3)]; simpl.
- repeat split.
- unfold PyDict.keys in *. simpl. rewrite IH1. split; [reflexivity|].
  split; [simpl in IH2; lia|].
  intros b. destruct (String.eqb b k); [reflexivity|apply IH3].
Qed.

(** X23. [reset] puts every counter back to zero and keeps the buttons,
    their order and their labels, the lock flag and the cooldown; the
    events and the last actions of the clients are dropped and [next_seq]
    is 1. The other panels are untouched. *)
Theorem reset_zeroes_counters (now : Z) (panel_id : string) (m : Manager) :
  let m' := snd (reset title now panel_id m) in
  let st := view panel_id m in
  let st' := view panel_id m' in
  PyDict.keys (buttons st') = PyDict.keys (buttons st) /\
  (forall b, PyDict.get b (buttons st')
             = option_map (fun info => mkButtonInfo (label info) 0 0)
                 (PyDict.get b (buttons st))) /\
  total (buttons st') = 0%Z /\
  events st' = [] /\ last_by_client st' = ∅ /\ next_seq st' = 1%Z /\
  locked st' = locked st /\ cooldown st' = cooldown st /\
  (forall p, p <> panel_id -> view p m' = view p m).
Proof.
intros m' st st'.
destruct (reset_result now panel_id m) as (m1 & E & Hv & Ho).
subst m' st'. rewrite E. cbn [snd]. rewrite Hv. fold st.
destruct (reset_buttons (buttons st)) as (H1 & H2 & H3).
unfold reset_state. cbn [buttons events last_by_client next_seq locked cooldown].
repeat split; assumption.
Qed.

(** The counters of a panel add up to the number of the presses it has
    accepted since it was created or reset. *)
Definition balanced (st : ButtonPanelState) : Prop :=
  total (buttons st) = (next_seq st - 1)%Z.

(** X24. The counters and the sequence number move together: a panel
    whose counters add up to [next_seq - 1], as they do in a new panel and
    after [reset], still has this property after any call of [fire],
    accepted or rejected. *)
Theorem fire_keeps_balance (now : Z)
    (panel_id client_id button_id direction : string) (m : Manager) :
  balanced (view panel_id m) ->
  balanced (view panel_id
              (snd (fire title now panel_id client_id button_id direction m))).
Proof.
intros Hb.
destruct (fire title now panel_id client_id button_id direction m)
  as [[ev|e] m'] eqn:E; cbn [snd].
- destruct (fire_accepted _ _ _ _ _ _ _ _ E) as (info & Hget & Hv & _).
  rewrite Hv. unfold balanced in *. unfold press. cbn [fst buttons next_seq].
  rewrite (total_set _ _ _ _ Hget).
  destruct (bump_counts (lower direction) info) as (_ & Hsum & _).
  lia.
- destruct (valid_direction direction) eqn:Hdir.
  + destruct (fire_decides now panel_id client_id button_id direction m Hdir)
      as (m2 & E2 & _ & Hd).
    rewrite E in E2. injection E2 as E2 <-. rewrite <- E2 in Hd.
    destruct Hd as [Hv _]. now rewrite Hv.
  + rewrite fire_invalid_direction in E by exact Hdir.
    injection E as _ <-. exact Hb.
Qed.

(** *** The snapshot of the configuration *)

Lemma insert_sorted_perm x l : Permutation (insert_sorted x l) (x :: l).
Proof.
induction l as [|y l IH]; simpl; [reflexivity|].
destruct (sort_key y <? sort_key x); [|reflexivity].
rewrite IH. apply perm_swap.
Qed.

Definition key_le (x y : string * ButtonInfo) : Prop :=
  sort_key x <= sort_key y.

Lemma insert_sorted_sorted x l :
  StronglySorted key_le l -> StronglySorted key_le (insert_sorted x l).
Proof.
induction l as [|y l IH]; simpl; intros Hs.
- constructor; constructor.
- inversion Hs as [|? ? Hl Hy]; subst.
  destruct (Nat.ltb_spec (sort_key y) (sort_key x)) as [Hlt|Hge].
  + constructor; [now apply IH|].
    rewrite List.Forall_forall. intros z Hz.
    apply (Permutation_in _ (insert_sorted_perm x l)) in Hz.
    destruct Hz as [<-|Hz]; [unfold key_le; lia|].
    rewrite List.Forall_forall in Hy. now apply Hy.
  + constructor; [exact Hs|].
    constructor; [exact Hge|].
    rewrite List.Forall_forall in Hy |- *. intros z Hz.
    specialize (Hy z Hz). unfold key_le in *. lia.
Qed.

Lemma insert_sorted_filter k x l :
  StronglySorted key_le l ->
  List.filter (fun b => sort_key b =? k) (insert_sorted x l)
  = List.filter (fun b => sort_key b =? k) (x :: l).
Proof.
induction l as [|y l IH]; simpl; intros Hs; [reflexivity|].
inversion Hs as [|? ? Hl Hy]; subst.
destruct (Nat.ltb_spec (sort_key y) (sort_key x)) as [Hlt|Hge];
  [|reflexivity].
simpl. rewrite (IH Hl). simpl.
destruct (Nat.eqb_spec (sort_key y) k) as [Ey|Ny];
  destruct (Nat.eqb_spec (sort_key x) k) as [Ex|Nx];
  try reflexivity.
lia.
Qed.

Lemma foldr_insert_sorted (l : list (string * ButtonInfo)) :
  Permutation (foldr insert_sorted [] l) l /\
  StronglySorted key_le (foldr insert_sorted [] l) /\
  forall k,
    List.filter (fun b => sort_key b =? k) (foldr insert_sorted [] l)
    = List.filter (fun b => sort_key b =? k) l.
Proof.
induction l as [|x l (IH1 & IH2 & IH3)]; simpl.
- repeat split; constructor.
- split; [rewrite insert_sorted_perm; now constructor|].
  split; [now apply insert_sorted_sorted|].
  intros k. rewrite (insert_sorted_filter k x _ IH2). simpl.
  now rewrite IH3.
Qed.

(** X25. The snapshot of a panel lists exactly the buttons of the panel,
    each once with its label and counters, in the order of the default
    sequence: a button comes before every button that is later in
    [BUTTON_DEFINITIONS], the buttons that are not in it come last, and
    the buttons of one rank keep the order they have in the panel. *)
Theorem config_snapshot_order (panel_id : string) (st : ButtonPanelState) :
  let listed := ps_buttons (_config_snapshot panel_id st) in
  Permutation listed (buttons st) /\
  StronglySorted key_le listed /\
  (forall k,
     List.filter (fun b => sort_key b =? k) listed
     = List.filter (fun b => sort_key b =? k) (buttons st)) /\
  ps_eventCount (_config_snapshot panel_id st) = length (events st).
Proof.
intros listed. subst listed. unfold _config_snapshot. cbn [ps_buttons ps_eventCount].
destruct (foldr_insert_sorted (buttons st)) as (H1 & H2 & H3).
repeat split; assumption.
Qed.

(** *** Locking a panel *)

Lemma update_config_result now panel_id cooldown' locked' m :
  exists m',
    update_config title now panel_id cooldown' locked' m
    = (Ok (_config_snapshot panel_id
             (configured now cooldown' locked' (view panel_id m))), m') /\
    view panel_id m' = configured now cooldown' locked' (view panel_id m) /\
    forall p, p <> panel_id -> view p m' = view p m.
Proof.
unfold update_config, with_lock, SE.bind.
set (m1 := mkManager (_states m) ({[panel_id]} ∪ _locks m) (disk m)).
destruct (panel_loaded_view title panel_id m1) as (m2 & -> & Hd & Hv).
change (view panel_id m1) with (view panel_id m).
destruct (panel_saved_view panel_id
            (configured now cooldown' locked' (view panel_id m)) m2)
  as [Hs Ho].
eexists. split; [reflexivity|]. split; [exact Hs|].
intros p Hp. etransitivity; [exact (Ho p Hp)|apply Hv].
Qed.

(** X26. Locking a panel: [update_config] with [locked = True] keeps the
    buttons, their counters and the events, sets a cooldown that is given
    to [max 0] of it, and every later press in a valid direction is
    rejected with the error [locked] of status 423, whether the button
    exists or not, and changes nothing. *)
Theorem locked_panel_rejects_presses (now t : Z)
    (panel_id client_id button_id direction : string)
    (cooldown' : option Z) (m : Manager) :
  lower direction = "minus" \/ lower direction = "plus" ->
  let m1 := snd (update_config title now panel_id cooldown' (Some true) m) in
  buttons (view panel_id m1) = buttons (view panel_id m) /\
  events (view panel_id m1) = events (view panel_id m) /\
  cooldown (view panel_id m1)
  = match cooldown' with
    | Some c => Z.max 0 c
    | None => cooldown (view panel_id m)
    end /\
  exists m2,
    fire title t panel_id client_id button_id direction m1
    = (Raise (mkAppError "locked" "Panel is locked" 423 None), m2) /\
    disk m2 = disk m1 /\ forall p, view p m2 = view p m1.
Proof.
intros Hdir m1.
destruct (update_config_result now panel_id cooldown' (Some true) m)
  as (m' & E & Hv & _).
subst m1. rewrite E. cbn [snd]. rewrite Hv.
split; [reflexivity|]. split; [reflexivity|]. split; [reflexivity|].
assert (Hvd : valid_direction direction = true).
{ unfold valid_direction. destruct Hdir as [-> | ->]; reflexivity. }
destruct (fire_decides t panel_id client_id button_id direction m' Hvd)
  as (m2 & E2 & Ho & Hd).
rewrite Hv in E2, Hd. unfold verdict in E2, Hd.
cbn [configured locked default id] in E2, Hd.
exists m2. split; [exact E2|]. destruct Hd as [Hf Hd]. split; [exact Hd|].
intros p. destruct (decide (p = panel_id)) as [->|Hp]; auto.
rewrite Hf. symmetry. exact Hv.
Qed.
End panel_operations.

Lemma fire_failure_changes_nothing_witness :
  let m0 := mkManager ∅ ∅ ∅ in
  exists e m1,
    fire (fun x => x) 1 "main" "c1" "speed" "up" m0 = (Raise e, m1) /\
    code e = "invalid_direction" /\ status e = 400 /\
    disk m1 = disk m0 /\
    forall p, view (fun x => x) p m1 = view (fun x => x) p m0.
Proof.
intros m0.
assert (E : fire (fun x => x) 1 "main" "c1" "speed" "up" m0
            = (Raise (mkAppError "invalid_direction"
                        "Direction must be 'minus' or 'plus'" 400 None), m0))
  by reflexivity.
do 2 eexists. split; [exact E|]. split; [reflexivity|]. split; [reflexivity|].
apply (fire_failure_changes_nothing (fun x => x) 1 "main" "c1" "speed" "up"
         m0 m0 _ E).
Defined.

Lemma fire_success_counts_witness :
  let m0 := mkManager ∅ ∅ ∅ in
  let m1 := snd (fire (fun x => x) 7 "main" "c1" "speed" "PLUS" m0) in
  exists ev,
    fire (fun x => x) 7 "main" "c1" "speed" "PLUS" m0 = (Ok ev, m1) /\
    seq ev = 1%Z /\ direction ev = "plus" /\
    PyDict.get "speed" (buttons (view (fun x => x) "main" m1))
    = Some (mkButtonInfo "Speed" 0 1) /\
    total (buttons (view (fun x => x) "main" m1)) = 1%Z.
Proof.
intros m0 m1.
assert (E : fire (fun x => x) 7 "main" "c1" "speed" "PLUS" m0
            = (Ok (mkEvent 1 "speed" "Speed" "plus" "c1" 7), m1))
  by (apply FormManagerSpec.run_eta; reflexivity).
eexists. split; [exact E|]. split; [reflexivity|]. split; [reflexivity|].
split; [reflexivity|].
destruct (fire_success_counts (fun x => x) 7 "main" "c1" "speed" "PLUS"
            m0 m1 _ E)
  as (info & info' & _ & _ & _ & _ & _ & _ & Ht & _).
exact Ht.
Defined.

Lemma fire_keeps_balance_witness :
  let m0 := mkManager ∅ ∅ ∅ in
  let m1 := snd (fire (fun x => x) 7 "main" "c1" "speed" "plus" m0) in
  balanced (view (fun x => x) "main" m0) /\
  balanced (view (fun x => x) "main" m1) /\
  next_seq (view (fun x => x) "main" m1) = 2%Z.
Proof.
intros m0 m1.
assert (H0 : balanced (view (fun x => x) "main" m0)) by reflexivity.
split; [exact H0|]. split; [|reflexivity].
apply (fire_keeps_balance (fun x => x) 7 "main" "c1" "speed" "plus" m0 H0).
Defined.

Lemma locked_panel_rejects_presses_witness :
  let m0 := snd (fire (fun x => x) 7 "main" "c1" "speed" "plus"
                   (mkManager ∅ ∅ ∅)) in
  let m1 := snd (update_config (fun x => x) 8 "main" (Some (-3)%Z) (Some true)
                   m0) in
  cooldown (view (fun x => x) "main" m1) = 0%Z /\
  PyDict.get "speed" (buttons (view (fun x => x) "main" m1))
  = Some (mkButtonInfo "Speed" 0 1) /\
  exists m2,
    fire (fun x => x) 9 "main" "c2" "nope" "Minus" m1
    = (Raise (mkAppError "locked" "Panel is locked" 423 None), m2).
Proof.
intros m0 m1. split; [reflexivity|]. split; [reflexivity|].
destruct (locked_panel_rejects_presses (fun x => x) 8 9 "main" "c2" "nope"
            "Minus" (Some (-3)%Z) m0) as (_ & _ & _ & m2 & Hs & _).
- left. reflexivity.
- exists m2. exact Hs.
Defined.

(** *** Reading a saved panel back *)

Section panel_files.
Variable title : string -> string.

Definition saved_button (b : string * ButtonInfo) : string * RawButton :=
  (fst b, mkRawButton (Some (label (snd b))) (Some (minus (snd b)))
            (Some (plus (snd b)))).

Lemma get_app_absent {V} k (d1 d2 : PyDict.dict V) :
  ~ In k (PyDict.keys d1) ->
  PyDict.get k (d1 ++ d2) = PyDict.get k d2.
Proof.
induction d1 as [|[k' v'] d1 IH]; simpl; [reflexivity|].
intros Hn. destruct (String.eqb_spec k k') as [->|Hne]; [tauto|].
apply IH. tauto.
Qed.

Lemma set_app_absent {V} k (v : V) (d1 d2 : PyDict.dict V) :
  ~ In k (PyDict.keys d1) ->
  PyDict.set k v (d1 ++ d2) = d1 ++ PyDict.set k v d2.
Proof.
induction d1 as [|[k' v'] d1 IH]; simpl; [reflexivity|].
intros Hn. destruct (String.eqb_spec k k') as [->|Hne]; [tauto|].
rewrite IH by tauto. reflexivity.
Qed.

Lemma load_saved_button k v w (done d : PyDict.dict ButtonInfo) :
  ~ In k (PyDict.keys done) ->
  load_button title (done ++ (k, w) :: d) (saved_button (k, v))
  = (done ++ [(k, v)]) ++ d.
Proof.
intros Hk. unfold load_button, saved_button. cbn [fst snd raw_label raw_minus raw_plus].
rewrite (get_app_absent k done _ Hk). cbn [PyDict.get].
rewrite String.eqb_refl. rewrite (get_app_absent k done _ Hk). cbn [PyDict.get].
rewrite String.eqb_refl. rewrite (set_app_absent k _ done _ Hk).
cbn [PyDict.set]. rewrite String.eqb_refl. cbn [default id].
rewrite <- app_assoc. destruct v. reflexivity.
Qed.

Lemma load_new_button k v (done : PyDict.dict ButtonInfo) :
  ~ In k (PyDict.keys done) ->
  load_button title done (saved_button (k, v)) = done ++ [(k, v)].
Proof.
intros Hk. unfold load_button, saved_button. cbn [fst snd raw_label raw_minus raw_plus].
pose proof (get_app_absent k done [] Hk) as Hg. rewrite app_nil_r in Hg.
rewrite Hg. cbn [PyDict.get].
pose proof (set_app_absent k (mkButtonInfo (default (title k) (Some (label v))) 0 0) done [] Hk) as Hs.
rewrite app_nil_r in Hs. rewrite Hs. cbn [PyDict.set].
rewrite (get_app_absent k done _ Hk). cbn [PyDict.get].
rewrite String.eqb_refl. rewrite (set_app_absent k _ done _ Hk).
cbn [PyDict.set]. rewrite String.eqb_refl. cbn [default id].
destruct v. reflexivity.
Qed.

Lemma load_saved_buttons (rest done d : PyDict.dict ButtonInfo) :
  NoDup (PyDict.keys (done ++ rest)) ->
  (exists ks, PyDict.keys rest = PyDict.keys d ++ ks) ->
  fold_left (load_button title) (map saved_button rest) (done ++ d)
  = done ++ rest.
Proof.
revert done d. induction rest as [|[k v] rest IH]; intros done d Hnd [ks Hk].
- destruct d; [reflexivity|discriminate].
- assert (Hk_done : ~ In k (PyDict.keys done)).
  { unfold PyDict.keys in Hnd. rewrite List.map_app in Hnd.
    apply NoDup_app in Hnd. destruct Hnd as (_ & Hno & _).
    intros Hin. apply list_elem_of_In in Hin. apply (Hno k Hin).
    simpl. apply list_elem_of_here. }
  assert (Hnd' : NoDup (PyDict.keys ((done ++ [(k, v)]) ++ rest))).
  { now rewrite <- app_assoc. }
  cbn [map fold_left].
  destruct d as [|[k' w] d].
  + rewrite app_nil_r. rewrite (load_new_button k v done Hk_done).
    rewrite <- (app_nil_r (done ++ [(k, v)])).
    rewrite (IH (done ++ [(k, v)]) [] Hnd'); [now rewrite <- app_assoc|].
    exists (PyDict.keys rest). reflexivity.
  + unfold PyDict.keys in Hk. simpl in Hk. injection Hk as <- Hk.
    rewrite (load_saved_button k v w done d Hk_done).
    rewrite (IH (done ++ [(k, v)]) d Hnd'); [now rewrite <- app_assoc|].
    exists ks. exact Hk.
Qed.

(** What the file keeps of a panel: the state was made for this id, its
    buttons are the default buttons, in their order, followed by others,
    each once, and its sequence number is not zero. *)
Definition panel_storable (panel_id : string) (st : ButtonPanelState) : Prop :=
  ButtonManager.panel_id st = panel_id /\
  NoDup (PyDict.keys (buttons st)) /\
  (exists ks, PyDict.keys (buttons st) = PyDict.keys _default_buttons ++ ks) /\
  next_seq st <> 0%Z.

Lemma number_events_saved (evs : list Event) (idx : Z) :
  number_from idx (map (fun e => (Some (seq e), e)) evs) = evs.
Proof.
revert idx. induction evs as [|e evs IH]; intros idx; simpl; [reflexivity|].
rewrite IH. now destruct e.
Qed.

Lemma panel_save_load panel_id st m :
  panel_storable panel_id st ->
  _load_state title panel_id (disk (snd (_save_state panel_id st m))) = st.
Proof.
intros (Hid & Hnd & Hks & Hn).
unfold _save_state, SE.modify, _load_state. cbn [snd disk].
rewrite lookup_insert_eq.
cbn [raw_buttons raw_events raw_locked raw_cooldown raw_lastByClient
     raw_nextSeq raw_updated default id].
rewrite number_events_saved.
change (map (fun b : string * ButtonInfo =>
               (fst b, mkRawButton (Some (label (snd b)))
                         (Some (minus (snd b))) (Some (plus (snd b))))))
  with (map saved_button).
pose proof (load_saved_buttons (buttons st) [] _default_buttons Hnd Hks) as Hb.
cbn [app] in Hb. rewrite Hb.
assert (Hc : or_num (Some (cooldown st)) 0 = cooldown st).
{ unfold or_num. destruct (Z.eqb_spec (cooldown st) 0); congruence. }
assert (Hs : forall y, or_num (Some (next_seq st)) y = next_seq st).
{ intros y. unfold or_num. destruct (Z.eqb_spec (next_seq st) 0); congruence. }
rewrite Hc, Hs. subst panel_id. now destruct st.
Qed.

(** X28. An accepted press survives a restart: after a successful [fire]
    on a panel whose state was made for its id, whose buttons are the
    default buttons in their order followed by others, each once, and
    whose sequence number is positive, a manager that starts with nothing
    in memory and reads the file finds the panel exactly as the running
    manager has it, the counters and the new event included. *)
Theorem pressed_button_is_read_back (now : Z)
    (panel_id client_id button_id dir : string) (m m' : Manager)
    (ev : Event) :
  fire title now panel_id client_id button_id dir m = (Ok ev, m') ->
  ButtonManager.panel_id (view title panel_id m) = panel_id ->
  NoDup (PyDict.keys (buttons (view title panel_id m))) ->
  (exists ks, PyDict.keys (buttons (view title panel_id m))
              = PyDict.keys _default_buttons ++ ks) ->
  (0 < next_seq (view title panel_id m))%Z ->
  view title panel_id (mkManager ∅ ∅ (disk m')) = view title panel_id m' /\
  last (events (view title panel_id (mkManager ∅ ∅ (disk m')))) = Some ev.
Proof.
intros H Hid Hnd Hks Hn.
destruct (fire_accepted title _ _ _ _ _ _ _ _ H)
  as (info & Hget & Hv & Hev & m3 & Hm).
assert (Hload : view title panel_id (mkManager ∅ ∅ (disk m'))
                = view title panel_id m').
{ unfold view at 1. cbn [_states disk]. rewrite lookup_empty, Hv.
  rewrite Hm at 1. apply panel_save_load.
  unfold panel_storable, press. cbn [fst ButtonManager.panel_id buttons next_seq].
  split; [exact Hid|]. rewrite keys_set, Hget.
  split; [exact Hnd|]. split; [exact Hks|]. lia. }
split; [exact Hload|]. rewrite Hload, Hv, Hev.
apply press_events.
Qed.
End panel_files.

Lemma pressed_button_is_read_back_witness :
  let m0 := mkManager ∅ ∅ ∅ in
  let m1 := snd (fire (fun x => x) 7 "main" "c1" "speed" "plus" m0) in
  view (fun x => x) "main" (mkManager ∅ ∅ (disk m1))
  = view (fun x => x) "main" m1 /\
  PyDict.get "speed"
    (buttons (view (fun x => x) "main" (mkManager ∅ ∅ (disk m1))))
  = Some (mkButtonInfo "Speed" 0 1).
Proof.
intros m0 m1.
assert (E : fire (fun x => x) 7 "main" "c1" "speed" "plus" m0
            = (Ok (mkEvent 1 "speed" "Speed" "plus" "c1" 7), m1))
  by (apply FormManagerSpec.run_eta; reflexivity).
destruct (pressed_button_is_read_back (fun x => x) 7 "main" "c1" "speed"
            "plus" m0 m1 _ E) as [Hv _].
- reflexivity.
- repeat constructor; rewrite ?elem_of_cons, ?elem_of_nil; intuition discriminate.
- exists []. reflexivity.
- reflexivity.
- split; [exact Hv|reflexivity].
Defined.
End ButtonManagerSpec.

(** ** The tokenizer *)

Module TokenizerSpec.
Import Text Tokenizer.

(** A text with its whitespace deleted. *)
Definition remove_ws (s : ustr) : ustr :=
  List.filter (fun c => negb (is_space c)) s.

(** The tokens that are not whitespace: the newline tokens go. *)
Definition kept (toks : list ustr) : list ustr :=
  List.filter (fun tok => negb (isspace tok)) toks.

(** The non-whitespace tokens of a text joined by single spaces. *)
Definition rejoin (T : CharrefTables) (text : ustr) : ustr :=
  join_sp (kept (tokenize T text)).

(** [s.split()]: the maximal runs of characters that are not whitespace.
    [cur] holds the run being read, reversed. *)
Fixpoint words_from (cur : ustr) (s : ustr) : list ustr :=
  match s with
  | [] => match cur with [] => [] | _ => [rev cur] end
  | c :: rest =>
      if is_space c then
        match cur with
        | [] => words_from [] rest
        | _ => rev cur :: words_from [] rest
        end
      else words_from (c :: cur) rest
  end.
Definition words (s : ustr) : list ustr := words_from [] s.

(** A word: not empty and free of whitespace. *)
Definition is_word (w : ustr) : Prop :=
  w <> [] /\ forallb (fun c => negb (is_space c)) w = true.

(** A text with each of its separator characters set apart by spaces, so
    that a separator glued to a word becomes a word of its own. *)
Definition set_apart (s : ustr) : ustr :=
  flat_map (fun c => if is_punct c then [32%N; c; 32%N] else [c]) s.

(** *** Splitting loses no character *)

Lemma split_from_concat s cur sp :
  concat (split_from cur sp s) = rev cur ++ s.
Proof.
  revert cur sp. induction s as [|c s IH]; intros cur sp; simpl.
  - destruct sp; simpl; now rewrite ?app_nil_r.
  - destruct (is_space c); [|destruct (is_punct c)]; destruct sp; simpl;
      rewrite ?IH; simpl; rewrite <- ?app_assoc; reflexivity.
Qed.

(** *** Deleting whitespace *)

Lemma remove_ws_app a b : remove_ws (a ++ b) = remove_ws a ++ remove_ws b.
Proof. apply List.filter_app. Qed.

Lemma remove_ws_spaces s : forallb is_space s = true -> remove_ws s = [].
Proof.
  induction s as [|c s IH]; simpl; [reflexivity|].
  intros H. apply andb_true_iff in H as [Hc Hs]. rewrite Hc. auto.
Qed.

Lemma remove_ws_word s :
  forallb (fun c => negb (is_space c)) s = true -> remove_ws s = s.
Proof.
  induction s as [|c s IH]; simpl; [reflexivity|].
  intros H. apply andb_true_iff in H as [Hc Hs]. rewrite Hc.
  now rewrite IH.
Qed.

Lemma remove_ws_join_sp l : remove_ws (join_sp l) = remove_ws (concat l).
Proof.
  induction l as [|p l IH]; [reflexivity|].
  destruct l as [|q l].
  - simpl. now rewrite app_nil_r.
  - change (join_sp (p :: q :: l)) with (p ++ 32%N :: join_sp (q :: l)).
    change (concat (p :: q :: l)) with (p ++ concat (q :: l)).
    rewrite !remove_ws_app. f_equal.
    change (32%N :: join_sp (q :: l)) with ([32%N] ++ join_sp (q :: l)).
    rewrite remove_ws_app, IH. reflexivity.
Qed.

(** *** The tokens of one segment *)

Lemma isspace_spec s :
  isspace s = true <-> s <> [] /\ forallb is_space s = true.
Proof.
  destruct s as [|c s]; simpl.
  - split; [discriminate|]. intros [H _]. congruence.
  - split; [intros H; split; [discriminate|exact H]|intros [_ H]; exact H].
Qed.

Lemma kept_newlines n : kept (replicate n [10%N]) = [].
Proof. induction n as [|n IH]; [reflexivity|exact IH]. Qed.

Lemma kept_emit seg :
  kept (emit seg) = if isspace seg then [] else [seg].
Proof.
  unfold emit. destruct (isspace seg) eqn:E.
  - apply kept_newlines.
  - unfold kept. simpl. now rewrite E.
Qed.

Lemma kept_app a b : kept (a ++ b) = kept a ++ kept b.
Proof. apply List.filter_app. Qed.

(** The tokens kept from a list of segments. *)
Definition kept_of (segs : list ustr) : list ustr :=
  kept (flat_map emit
          (List.filter (fun seg => negb (Text.eqb seg [])) segs)).

Lemma kept_of_cons seg segs :
  kept_of (seg :: segs)
  = (match seg with
     | [] => []
     | _ => if isspace seg then [] else [seg]
     end) ++ kept_of segs.
Proof.
  unfold kept_of. simpl. destruct seg as [|c seg]; [reflexivity|].
  cbn [Text.eqb negb flat_map]. rewrite kept_app, kept_emit. reflexivity.
Qed.

Lemma kept_of_remove_ws segs :
  remove_ws (concat (kept_of segs)) = remove_ws (concat segs).
Proof.
  induction segs as [|seg segs IH]; [reflexivity|].
  rewrite kept_of_cons. simpl concat at 2.
  rewrite concat_app, !remove_ws_app, IH. f_equal.
  destruct seg as [|c seg]; [reflexivity|].
  destruct (isspace (c :: seg)) eqn:E.
  - apply isspace_spec in E as [_ E]. now rewrite (remove_ws_spaces _ E).
  - simpl concat. now rewrite app_nil_r.
Qed.

(** *** Text without markup is tokenized as [html.unescape] leaves it *)

Lemma unescape_plain T s : mem 38 s = false -> Html.unescape T s = s.
Proof. intros H. unfold Html.unescape. now rewrite H. Qed.

Lemma html_to_plain_unmarked T s :
  mem 60 s = false \/ mem 62 s = false ->
  html_to_plain T s = Html.unescape T s.
Proof.
  intros [H|H]; unfold html_to_plain; rewrite H; simpl;
    [reflexivity|now rewrite orb_true_r].
Qed.

Lemma tokenize_unmarked T text :
  mem 60 text = false \/ mem 62 text = false ->
  kept (tokenize T text) = kept_of (RE_SPLIT_split (Html.unescape T text)).
Proof.
  intros H. unfold tokenize, kept_of. now rewrite html_to_plain_unmarked.
Qed.

(** *** Words *)

Lemma forallb_rev {A} (p : A -> bool) (l : list A) :
  forallb p (rev l) = forallb p l.
Proof.
  induction l as [|x l IH]; [reflexivity|].
  simpl. rewrite forallb_app, IH. simpl. rewrite andb_true_r.
  apply andb_comm.
Qed.

Lemma rev_nonempty {A} (l : list A) : l <> [] -> rev l <> [].
Proof.
  intros H E. apply H. rewrite <- (rev_involutive l), E. reflexivity.
Qed.

Lemma word_not_isspace w : is_word w -> isspace w = false.
Proof.
  intros [Hne Hw]. destruct w as [|c w]; [congruence|].
  simpl in *. apply andb_true_iff in Hw as [Hc _].
  apply negb_true_iff in Hc. now rewrite Hc.
Qed.

Lemma words_from_word w cur s :
  forallb (fun c => negb (is_space c)) w = true ->
  words_from cur (w ++ s) = words_from (rev w ++ cur) s.
Proof.
  revert cur. induction w as [|c w IH]; intros cur Hw; [reflexivity|].
  simpl in Hw. apply andb_true_iff in Hw as [Hc Hw].
  apply negb_true_iff in Hc. simpl. rewrite Hc, IH by assumption.
  now rewrite <- app_assoc.
Qed.

Lemma words_join_sp l : Forall is_word l -> words (join_sp l) = l.
Proof.
  unfold words. induction 1 as [|p l [Hne Hp] Hl IH]; [reflexivity|].
  assert (Hr : rev p <> []) by now apply rev_nonempty.
  destruct l as [|q l].
  - simpl. rewrite <- (app_nil_r p) at 1.
    rewrite words_from_word by assumption. rewrite app_nil_r. simpl.
    destruct (rev p) eqn:E; [congruence|]. rewrite <- E.
    now rewrite rev_involutive.
  - change (join_sp (p :: q :: l)) with (p ++ 32%N :: join_sp (q :: l)).
    rewrite words_from_word by assumption. rewrite app_nil_r.
    cbn [words_from]. change (is_space 32) with true. cbv iota.
    destruct (rev p) eqn:E; [congruence|]. rewrite <- E.
    now rewrite rev_involutive, IH.
Qed.

(** *** Separators are words of their own *)

Lemma punct_not_space c : is_punct c = true -> is_space c = false.
Proof.
unfold is_punct, mem. intros H. apply existsb_exists in H.
destruct H as (x & Hx & Hc). apply N.eqb_eq in Hc. subst x.
unfold PUNCT_BREAK in Hx. simpl in Hx.
repeat (destruct Hx as [<-|Hx]; [reflexivity|]). destruct Hx.
Qed.

Lemma set_apart_plain s :
  forallb (fun c => negb (is_punct c)) s = true -> set_apart s = s.
Proof.
induction s as [|c s IH]; simpl; [reflexivity|].
intros H. apply andb_true_iff in H as [Hc Hs].
apply negb_true_iff in Hc. rewrite Hc. simpl. now rewrite (IH Hs).
Qed.

Lemma kept_of_set_apart s :
  (forall cur, forallb (fun c => negb (is_space c)) cur = true ->
     kept_of (split_from cur false s) = words_from cur (set_apart s)) /\
  (forall cur, cur <> [] -> forallb is_space cur = true ->
     kept_of (split_from cur true s) = words_from [] (set_apart s)).
Proof.
assert (Hword : forall cur rest,
          forallb (fun c => negb (is_space c)) cur = true ->
          (match rev cur with
           | [] => []
           | _ => if isspace (rev cur) then [] else [rev cur]
           end) ++ rest
          = match cur with [] => rest | _ => rev cur :: rest end).
{ intros cur rest Hc. destruct cur as [|x cur]; [reflexivity|].
  assert (Hw : is_word (rev (x :: cur))).
  { split; [now apply rev_nonempty|now rewrite forallb_rev]. }
  rewrite (word_not_isspace _ Hw).
  destruct (rev (x :: cur)) eqn:E; [now destruct Hw|reflexivity]. }
assert (Hrun : forall cur rest,
          cur <> [] -> forallb is_space cur = true ->
          (match rev cur with
           | [] => []
           | _ => if isspace (rev cur) then [] else [rev cur]
           end) ++ rest = rest).
{ intros cur rest Hne Hc.
  assert (Hs : isspace (rev cur) = true).
  { apply isspace_spec. split; [now apply rev_nonempty|].
    now rewrite forallb_rev. }
  rewrite Hs. now destruct (rev cur). }
induction s as [|c s [IHw IHs]].
- split; intros cur.
  + intros Hc. simpl. rewrite kept_of_cons, Hword by assumption.
    now destruct cur.
  + intros Hne Hc. simpl. rewrite !kept_of_cons, Hrun by assumption.
    reflexivity.
- split; intros cur.
  + intros Hcur. cbn [split_from].
    destruct (is_space c) eqn:Es; [|destruct (is_punct c) eqn:Ep].
    * assert (Ep : is_punct c = false).
      { destruct (is_punct c) eqn:Ep; [|reflexivity].
        apply punct_not_space in Ep. congruence. }
      unfold set_apart. cbn [flat_map]. rewrite Ep. cbn [app words_from].
      rewrite Es.
      rewrite kept_of_cons, Hword by assumption.
      rewrite IHs by first [discriminate | simpl; rewrite Es; reflexivity].
      now destruct cur.
    * unfold set_apart. cbn [flat_map]. rewrite Ep. cbn [app words_from].
      change (is_space 32) with true. cbv iota. rewrite Es.
      cbn [words_from]. change (is_space 32) with true. cbv iota.
      rewrite kept_of_cons, Hword by assumption.
      rewrite kept_of_cons. cbn [isspace forallb]. rewrite Es. cbn [andb app].
      rewrite (IHw [] eq_refl). cbn [rev app].
      now destruct cur.
    * unfold set_apart. cbn [flat_map]. rewrite Ep. cbn [app words_from].
      rewrite Es. apply IHw. simpl. now rewrite Es.
  + intros Hne Hcur. cbn [split_from].
    destruct (is_space c) eqn:Es; [|destruct (is_punct c) eqn:Ep].
    * assert (Ep : is_punct c = false).
      { destruct (is_punct c) eqn:Ep; [|reflexivity].
        apply punct_not_space in Ep. congruence. }
      unfold set_apart. cbn [flat_map]. rewrite Ep. cbn [app words_from].
      rewrite Es. apply IHs; [discriminate|]. simpl. now rewrite Es.
    * unfold set_apart. cbn [flat_map]. rewrite Ep. cbn [app words_from].
      change (is_space 32) with true. cbv iota. rewrite Es.
      cbn [words_from]. change (is_space 32) with true. cbv iota.
      rewrite kept_of_cons, Hrun by assumption.
      rewrite !kept_of_cons. cbn [isspace forallb]. rewrite Es. cbn [andb app].
      rewrite (IHw [] eq_refl). reflexivity.
    * unfold set_apart. cbn [flat_map]. rewrite Ep. cbn [app words_from].
      rewrite Es.
      rewrite kept_of_cons, Hrun by assumption.
      apply IHw. simpl. now rewrite Es.
Qed.

Lemma kept_of_is_word segs :
  Forall (fun seg => isspace seg = true \/
                     forallb (fun c => negb (is_space c)) seg = true) segs ->
  Forall is_word (kept_of segs).
Proof.
  induction 1 as [|seg segs Hseg _ IH]; [constructor|].
  rewrite kept_of_cons. destruct seg as [|c seg]; [exact IH|].
  destruct (isspace (c :: seg)) eqn:E; [exact IH|].
  constructor; [|exact IH]. split; [discriminate|].
  destruct Hseg as [H|H]; [congruence|exact H].
Qed.

(** Every piece that the split reports is a run of whitespace or free of
    whitespace. *)
Lemma split_from_pieces (s cur : ustr) (sp : bool) :
  (if sp return Prop then cur <> [] /\ forallb is_space cur = true
   else forallb (fun c => negb (is_space c)) cur = true) ->
  Forall (fun seg => isspace seg = true \/
                     forallb (fun c => negb (is_space c)) seg = true)
    (split_from cur sp s).
Proof.
  assert (Hsp : forall cur, cur <> [] -> forallb is_space cur = true ->
                  isspace (rev cur) = true).
  { intros cur0 Hne H. apply isspace_spec.
    split; [now apply rev_nonempty|now rewrite forallb_rev]. }
  assert (Hwd : forall cur, forallb (fun c => negb (is_space c)) cur = true ->
                  forallb (fun c => negb (is_space c)) (rev cur) = true).
  { intros cur0 H. now rewrite forallb_rev. }
  revert cur sp. induction s as [|c s IH]; intros cur sp Hcur; simpl.
  - destruct sp.
    + destruct Hcur. constructor; [auto|]. constructor; [now right|constructor].
    + constructor; [auto|constructor].
  - destruct (is_space c) eqn:Es; [|destruct (is_punct c) eqn:Ep].
    + destruct sp.
      * destruct Hcur. apply IH. split; [discriminate|]. simpl. now rewrite Es.
      * constructor; [auto|]. apply IH. split; [discriminate|].
        simpl. now rewrite Es.
    + destruct sp.
      * destruct Hcur. constructor; [auto|].
        constructor; [now right|]. constructor; [right; simpl; now rewrite Es|].
        now apply IH.
      * constructor; [auto|].
        constructor; [right; simpl; now rewrite Es|]. now apply IH.
    + destruct sp.
      * destruct Hcur. constructor; [auto|]. apply IH. simpl. now rewrite Es.
      * apply IH. simpl. now rewrite Es.
Qed.

(** The round trip for every text that lacks one of the angle brackets:
    the re-joined tokens are, up to whitespace, the text as
    [html.unescape] decodes it. *)
Lemma rejoin_decoded (T : CharrefTables) (text : ustr) :
  mem 60 text = false \/ mem 62 text = false ->
  remove_ws (rejoin T text) = remove_ws (Html.unescape T text) /\
  words (rejoin T text) = kept (tokenize T text) /\
  words (rejoin T text) = words (set_apart (Html.unescape T text)).
Proof.
  intros Hm. pose proof (tokenize_unmarked T text Hm) as Hk.
  assert (Hw : Forall is_word (kept (tokenize T text))).
  { rewrite Hk. apply kept_of_is_word. now apply split_from_pieces. }
  assert (Hj : words (rejoin T text) = kept (tokenize T text))
    by now apply words_join_sp.
  split; [|split].
  - unfold rejoin. rewrite remove_ws_join_sp, Hk, kept_of_remove_ws.
    unfold RE_SPLIT_split. now rewrite split_from_concat.
  - exact Hj.
  - rewrite Hj, Hk.
    now apply (proj1 (kept_of_set_apart (Html.unescape T text)) []).
Qed.

(** C2, as the code has it. For a text that lacks an angle bracket (one
    of the two is enough) and that [html.unescape] leaves as it is, which
    is so of every text without an ampersand and of a text such as
    [fish & chips, AT&T], the non-whitespace tokens of [tokenize] joined
    by single spaces reproduce the text up to whitespace: the two texts
    are equal once their whitespace, newlines included, is deleted. The
    tokens kept are words, not empty and free of whitespace, so that they
    are the word sequence of the re-joined text; this is the word
    sequence of the text once each of its separator characters is set
    apart by spaces, and so the word sequence of the text itself when it
    has none of the separators. *)
Theorem tokenize_round_trip (T : CharrefTables) (text : ustr) :
  mem 60 text = false \/ mem 62 text = false ->
  Html.unescape T text = text ->
  remove_ws (rejoin T text) = remove_ws text /\
  words (rejoin T text) = kept (tokenize T text) /\
  words (rejoin T text) = words (set_apart text) /\
  (forallb (fun c => negb (is_punct c)) text = true ->
     words (rejoin T text) = words text).
Proof.
  intros Hm Hu.
  destruct (rejoin_decoded T text Hm) as (Hr & Hj & Hs).
  rewrite Hu in Hr, Hs.
  split; [exact Hr|]. split; [exact Hj|]. split; [exact Hs|].
  intros Hp. rewrite Hs. now rewrite set_apart_plain.
Qed.

Lemma tokenize_round_trip_witness :
  let T := mkCharrefTables [(u "amp;", u "&")] [] [] in
  let text := u "fish & chips,  AT&T  a-b" ++ [10%N; 10%N] ++ u "end" in
  tokenize T text
  = [u "fish"; u "&"; u "chips"; u ","; u "AT&T"; u "a"; u "-"; u "b";
     [10%N]; [10%N]; u "end"] /\
  rejoin T text = u "fish & chips , AT&T a - b end" /\
  remove_ws (rejoin T text) = remove_ws text /\
  words (rejoin T text) = words (set_apart text).
Proof.
  intros T text. split; [reflexivity|]. split; [reflexivity|].
  destruct (tokenize_round_trip T text) as (H1 & _ & H3 & _);
    [right; reflexivity|reflexivity|].
  split; [exact H1|exact H3].
Defined.

(** C2, as the claim states it, fails in two ways. A text with no angle
    bracket may hold a character reference, which [html_to_plain]
    decodes: the text is not reproduced, even up to whitespace. The table
    here holds the one entry of [html.entities.html5] that the text
    uses. And a text without any reference may hold a separator glued to
    a word: it is reproduced up to whitespace, but the separator comes
    back as a word of its own, so that the word sequence of the re-joined
    tokens is not the word sequence of the text. *)
Lemma tokenize_decodes_references :
  let T := mkCharrefTables [(u "amp;", u "&")] [] [] in
  let text := u "fish &amp; chips" in
  mem 60 text = false /\ mem 62 text = false /\
  tokenize T text = [u "fish"; u "&"; u "chips"] /\
  words (rejoin T text) = [u "fish"; u "&"; u "chips"] /\
  words text = [u "fish"; u "&amp;"; u "chips"] /\
  remove_ws (rejoin T text) <> remove_ws text /\
  let text' := u "Hello, world" in
  mem 60 text' = false /\ mem 62 text' = false /\
  Html.unescape T text' = text' /\
  tokenize T text' = [u "Hello"; u ","; u "world"] /\
  words (rejoin T text') = [u "Hello"; u ","; u "world"] /\
  words text' = [u "Hello,"; u "world"] /\
  remove_ws (rejoin T text') = remove_ws text'.
Proof.
  vm_compute. repeat split. discriminate.
Qed.

(** *** The shape of the tokens *)

(** A character of a word: neither whitespace nor one of the separators. *)
Definition word_char (c : N) : bool := negb (is_space c) && negb (is_punct c).

(** The three kinds of pieces that the split reports: a run of whitespace,
    one separator, or a (possibly empty) word. *)
Definition piece_class (seg : ustr) : Prop :=
  isspace seg = true \/
  (exists c, seg = [c] /\ is_punct c = true /\ is_space c = false) \/
  forallb word_char seg = true.

Lemma split_from_classes (s cur : ustr) (sp : bool) :
  (if sp return Prop then cur <> [] /\ forallb is_space cur = true
   else forallb word_char cur = true) ->
  Forall piece_class (split_from cur sp s).
Proof.
assert (Hsp : forall cur, cur <> [] -> forallb is_space cur = true ->
                piece_class (rev cur)).
{ intros cur0 Hne H. left. apply isspace_spec.
  split; [now apply rev_nonempty|now rewrite forallb_rev]. }
assert (Hwd : forall cur, forallb word_char cur = true -> piece_class (rev cur)).
{ intros cur0 H. right. right. now rewrite forallb_rev. }
revert cur sp. induction s as [|c s IH]; intros cur sp Hcur; simpl.
- destruct sp.
  + destruct Hcur. constructor; [auto|].
    constructor; [right; right; reflexivity|constructor].
  + constructor; [auto|constructor].
- destruct (is_space c) eqn:Es; [|destruct (is_punct c) eqn:Ep].
  + destruct sp.
    * destruct Hcur. apply IH. split; [discriminate|]. simpl. now rewrite Es.
    * constructor; [auto|]. apply IH. split; [discriminate|].
      simpl. now rewrite Es.
  + assert (Hc : piece_class [c]) by (right; left; eauto).
    destruct sp.
    * destruct Hcur. constructor; [auto|].
      constructor; [right; right; reflexivity|]. constructor; [exact Hc|].
      now apply IH.
    * constructor; [auto|]. constructor; [exact Hc|]. now apply IH.
  + assert (Hc : forallb word_char [c] = true)
      by (simpl; unfold word_char; now rewrite Es, Ep).
    destruct sp.
    * destruct Hcur. constructor; [auto|]. now apply IH.
    * apply IH. simpl. apply andb_true_iff. split; [|exact Hcur].
      unfold word_char. now rewrite Es, Ep.
Qed.

Lemma word_not_space seg c rest :
  seg = c :: rest -> forallb word_char seg = true ->
  is_space c = false /\ is_punct c = false /\ isspace seg = false.
Proof.
intros -> H. simpl in H. apply andb_true_iff in H as [Hc _].
unfold word_char in Hc. apply andb_true_iff in Hc as [H1 H2].
apply negb_true_iff in H1. apply negb_true_iff in H2.
simpl. now rewrite H1.
Qed.

(** X12. Whatever the text, every token of [tokenize] is of one of three
    kinds: the newline token, a single separator character, or a word,
    not empty and free of whitespace and separators. [is_break_token] is
    true of the first two kinds and false of the words. *)
Theorem tokens_are_classified (T : CharrefTables) (text : ustr) :
  Forall (fun tok =>
            (tok = [10%N] /\ is_break_token tok = true) \/
            (exists c, tok = [c] /\ is_punct c = true /\
                       is_break_token tok = true) \/
            (tok <> [] /\ forallb word_char tok = true /\
             is_break_token tok = false))
    (tokenize T text).
Proof.
unfold tokenize, RE_SPLIT_split.
pose proof (split_from_classes (html_to_plain T text) [] false eq_refl) as Hcl.
induction Hcl as [|seg segs Hseg _ IH]; [constructor|].
simpl. destruct seg as [|c0 seg0] eqn:Eseg; [exact IH|].
cbn [Text.eqb negb flat_map]. apply Forall_app. split; [|exact IH].
rewrite <- Eseg in *. clear IH.
destruct Hseg as [Hs|[(c & -> & Hp & Hns)|Hw]].
- unfold emit. rewrite Hs. apply Forall_forall. intros tok Htok.
  apply list_elem_of_In in Htok.
  assert (tok = [10%N]).
  { clear -Htok. induction (count 10 seg) as [|n IHn]; simpl in Htok;
      [destruct Htok|]. destruct Htok as [<-|H]; auto. }
  subst tok. left. split; reflexivity.
- unfold emit. simpl. rewrite Hns. simpl. constructor; [|constructor].
  right. left. exists c. split; [reflexivity|]. split; [assumption|].
  unfold is_break_token.
  destruct (Text.eqb [c] [10%N] || Text.eqb [c] [13%N] || Text.eqb [c] [13%N; 10%N]);
    [reflexivity|]. simpl. now rewrite Hp.
- destruct (word_not_space seg c0 seg0 Eseg Hw) as (Hns & Hnp & Hiss).
  unfold emit. rewrite Hiss. constructor; [|constructor].
  right. right. split; [rewrite Eseg; discriminate|]. split; [assumption|].
  unfold is_break_token. rewrite Eseg.
  assert (Hc10 : (c0 =? 10)%N = false).
  { destruct (N.eqb_spec c0 10) as [->|]; [discriminate|reflexivity]. }
  assert (Hc13 : (c0 =? 13)%N = false).
  { destruct (N.eqb_spec c0 13) as [->|]; [discriminate|reflexivity]. }
  simpl. rewrite Hc10, Hc13, Hnp. reflexivity.
Qed.

(** *** Newlines *)

Lemma count_app c a b : count c (a ++ b) = (count c a + count c b)%nat.
Proof.
unfold count. now rewrite filter_app, length_app.
Qed.

Lemma count_cons c x s :
  count c (x :: s) = ((if (x =? c)%N then 1 else 0) + count c s)%nat.
Proof.
unfold count. rewrite filter_cons.
destruct (decide (Is_true (x =? c)%N)) as [H|H].
- apply Is_true_true in H. now rewrite H.
- apply Is_true_false in H. now rewrite H.
Qed.

Lemma count_no_space c s :
  is_space c = true -> forallb (fun x => negb (is_space x)) s = true ->
  count c s = 0%nat.
Proof.
intros Hc. induction s as [|x s IH]; simpl; [reflexivity|].
intros H. apply andb_true_iff in H as [Hx Hs]. rewrite count_cons, IH by assumption.
destruct (N.eqb_spec x c) as [->|]; [|reflexivity].
now rewrite Hc in Hx.
Qed.

(** The number of newline tokens of a list of tokens. *)
Definition newline_tokens (toks : list ustr) : nat :=
  length (List.filter (fun tok => Text.eqb tok [10%N]) toks).

Lemma newline_tokens_app a b :
  newline_tokens (a ++ b) = (newline_tokens a + newline_tokens b)%nat.
Proof. unfold newline_tokens. now rewrite List.filter_app, length_app. Qed.

Lemma newline_tokens_replicate n : newline_tokens (replicate n [10%N]) = n.
Proof.
unfold newline_tokens. induction n as [|n IH]; simpl; [reflexivity|].
now rewrite IH.
Qed.

(** X13. [tokenize] keeps the line structure of the plain text: it emits
    exactly one newline token for each newline character of the text that
    [html_to_plain] yields. *)
Theorem tokenize_keeps_newlines (T : CharrefTables) (text : ustr) :
  newline_tokens (tokenize T text) = count 10 (html_to_plain T text).
Proof.
unfold tokenize, RE_SPLIT_split.
assert (Hc : html_to_plain T text
             = concat (split_from [] false (html_to_plain T text)))
  by (now rewrite split_from_concat).
rewrite Hc at 2. clear Hc.
pose proof (split_from_classes (html_to_plain T text) [] false eq_refl) as Hcl.
induction Hcl as [|seg segs Hseg _ IH]; [reflexivity|].
simpl concat. rewrite count_app, <- IH. clear IH.
simpl List.filter. destruct seg as [|c0 seg0] eqn:Eseg; [reflexivity|].
cbn [Text.eqb negb flat_map]. rewrite newline_tokens_app. f_equal.
rewrite <- Eseg in *.
destruct Hseg as [Hs|[(c & -> & Hp & Hns)|Hw]].
- unfold emit. rewrite Hs. apply newline_tokens_replicate.
- unfold emit. simpl isspace. rewrite Hns. simpl.
  unfold newline_tokens. simpl. rewrite count_cons.
  destruct (N.eqb_spec c 10) as [->|]; [discriminate|reflexivity].
- destruct (word_not_space seg c0 seg0 Eseg Hw) as (Hns & Hnp & Hiss).
  unfold emit. rewrite Hiss. unfold newline_tokens. simpl.
  assert (Hcnt : count 10 seg = 0%nat).
  { apply count_no_space; [reflexivity|].
    clear -Hw. induction seg as [|x s IHs]; [reflexivity|].
    simpl in *. apply andb_true_iff in Hw as [Hx Hs].
    unfold word_char in Hx. apply andb_true_iff in Hx as [Hx _].
    rewrite Hx. auto. }
  rewrite Hcnt.
  destruct (Text.eqb seg [10%N]) eqn:E; [|reflexivity].
  exfalso. rewrite Eseg in E. simpl in E.
  apply andb_true_iff in E as [E _]. apply N.eqb_eq in E. subst c0.
  discriminate.
Qed.

(** *** Collapsing runs of newlines *)

(** No three newline characters in a row in [l], [run] newlines having
    just been read. *)
Fixpoint no_triple_nl (run : nat) (l : ustr) : bool :=
  match l with
  | [] => true
  | c :: rest =>
      if (c =? 10)%N then (run <? 2)%nat && no_triple_nl (S run) rest
      else no_triple_nl 0%nat rest
  end.

Lemma re_sub_from_skip m n s :
  re_sub_from m n s = re_sub_from m 0%nat (drop n s).
Proof.
revert n. induction s as [|c s IH]; intros [|n]; try reflexivity.
simpl. apply IH.
Qed.

Lemma span_len_drop p s :
  span_len p (drop (span_len p s) s) = 0%nat.
Proof.
induction s as [|c s IH]; simpl; [reflexivity|].
destruct (p c) eqn:E; simpl; [exact IH|now rewrite E].
Qed.

Lemma multi_nl_no_triple s :
  forall run, (run + Nat.min (span_len (N.eqb 10) s) 2 <= 2)%nat ->
  no_triple_nl run (re_sub match_multi_nl s) = true.
Proof.
unfold re_sub.
assert (G : forall n s, (length s <= n)%nat -> forall run,
              (run + Nat.min (span_len (N.eqb 10) s) 2 <= 2)%nat ->
              no_triple_nl run (re_sub_from match_multi_nl 0 s) = true).
{ clear s. induction n as [|n IH]; intros s Hn run Hrun.
  - destruct s; [reflexivity|simpl in Hn; lia].
  - destruct s as [|c rest]; [reflexivity|]. simpl in Hn.
    cbn [re_sub_from]. unfold match_multi_nl at 1.
    set (k := span_len (N.eqb 10) (c :: rest)) in *.
    destruct (Nat.leb_spec 3 k) as [Hk|Hk].
    + assert (run = 0%nat) by lia. subst run.
      destruct k as [|k'] eqn:Ek; [lia|].
      rewrite re_sub_from_skip.
      assert (Hd : drop k' rest = drop k (c :: rest)) by (rewrite Ek; reflexivity).
      rewrite Hd. simpl.
      apply IH.
      * rewrite length_drop. simpl. lia.
      * unfold k. rewrite span_len_drop. simpl. lia.
    + destruct (10 =? c)%N eqn:Ec.
      * apply N.eqb_eq in Ec. subst c. simpl in k.
        simpl. destruct (Nat.ltb_spec run 2) as [Hr|Hr]; [|subst k; lia].
        simpl. apply IH; [lia|]. subst k. lia.
      * assert (Ec' : (c =? 10)%N = false) by (rewrite N.eqb_sym; exact Ec).
        simpl. rewrite Ec'. apply IH; [lia|]. lia. }
apply (G (length s)). lia.
Qed.

(** X14. On a text that holds both angle brackets, [html_to_plain] leaves
    no run of three newlines: runs of three or more are collapsed to
    two. *)
Theorem html_to_plain_collapses_newlines (T : CharrefTables) (text : ustr) :
  mem 60 text = true -> mem 62 text = true ->
  no_triple_nl 0%nat (html_to_plain T text) = true.
Proof.
intros Hlt Hgt. unfold html_to_plain. rewrite Hlt, Hgt. simpl.
apply multi_nl_no_triple. lia.
Qed.

Lemma html_to_plain_collapses_newlines_witness :
  let T := mkCharrefTables [] [] [] in
  let text := u "<b>one</b>" ++ [10; 10; 10; 10; 10]%N ++ u "two" in
  html_to_plain T text = u "one" ++ [10; 10]%N ++ u "two" /\
  no_triple_nl 0%nat (html_to_plain T text) = true.
Proof.
intros T text. split; [reflexivity|].
apply (html_to_plain_collapses_newlines T text); reflexivity.
Defined.
End TokenizerSpec.

(* ------------------------------------------------------------------ *)
(** ** The identifiers of the requests *)
(* ------------------------------------------------------------------ *)

Module IdsSpec.
Import Ids.
Local Open Scope nat_scope.

Lemma id_char_not_space c : id_char c = true -> Text.is_space c = false.
Proof.
unfold id_char, Text.is_space. intros H.
assert (Hr : (45 <= c <= 122)%N).
{ repeat (apply orb_true_iff in H; destruct H as [H|H]);
    try (apply andb_true_iff in H; destruct H as [H1 H2];
         apply N.leb_le in H1, H2; lia);
    apply N.eqb_eq in H; lia. }
repeat (apply orb_false_iff; split);
  try (apply andb_false_iff;
       first [left; apply N.leb_gt; lia | right; apply N.leb_gt; lia]);
  apply N.eqb_neq; lia.
Qed.

Lemma lstrip_head c s : Text.is_space c = false -> Text.lstrip (c :: s) = c :: s.
Proof. intros H. simpl. now rewrite H. Qed.

Lemma strip_id_chars s : forallb id_char s = true -> Text.strip s = s.
Proof.
intros H. unfold Text.strip, Text.rstrip.
assert (Hl : Text.lstrip s = s).
{ destruct s as [|c s]; [reflexivity|]. simpl in H.
  apply andb_true_iff in H. destruct H as [Hc _].
  apply lstrip_head. now apply id_char_not_space. }
rewrite Hl.
assert (Hr : Text.lstrip (rev s) = rev s).
{ destruct (rev s) as [|c t] eqn:E; [reflexivity|].
  apply lstrip_head. apply id_char_not_space.
  rewrite forallb_forall in H. apply H. apply in_rev. rewrite E. now left. }
rewrite Hr. apply rev_involutive.
Qed.

Lemma fullmatch_spec max s :
  fullmatch max s = true <->
  1 <= length s <= max /\ forall c, In c s -> id_char c = true.
Proof.
unfold fullmatch. rewrite !andb_true_iff, !Nat.leb_le, forallb_forall.
tauto.
Qed.

Lemma cleaned_spec s :
  length (cleaned s) <= 64 /\ forall c, In c (cleaned s) -> id_char c = true.
Proof.
unfold cleaned. split.
- rewrite length_take. lia.
- intros c Hc. apply list_elem_of_In in Hc. apply elem_of_take in Hc.
  destruct Hc as (i & Hi & _). apply list_elem_of_lookup_2 in Hi.
  apply list_elem_of_In in Hi. apply filter_In in Hi. tauto.
Qed.

Definition sanitized (default : ustr) (raw : option ustr) : ustr :=
  let s := Text.strip (or_default raw default) in
  if negb (fullmatch 64 s)
  then match cleaned s with [] => default | c :: t => c :: t end
  else s.

Lemma sanitized_valid default raw :
  fullmatch 64 default = true ->
  fullmatch 64 (sanitized default raw) = true /\
  (forall s, raw = Some s -> fullmatch 64 s = true ->
     sanitized default raw = s).
Proof.
intros Hd. unfold sanitized. split.
- destruct (fullmatch 64 (Text.strip (or_default raw default))) eqn:E;
    [exact E|]. cbn [negb].
  destruct (cleaned_spec (Text.strip (or_default raw default))) as [Hlen Hall].
  destruct (cleaned (Text.strip (or_default raw default))) as [|c t];
    [exact Hd|].
  apply fullmatch_spec. split; [simpl in *; lia|exact Hall].
- intros s -> Hs. pose proof Hs as Hs'. apply fullmatch_spec in Hs'.
  destruct Hs' as [Hlen Hall].
  assert (Hdef : or_default (Some s) default = s).
  { destruct s; [simpl in Hlen; lia|reflexivity]. }
  rewrite Hdef, strip_id_chars by (now apply forallb_forall).
  now rewrite Hs.
Qed.

(** X30. [sanitize_form_id] and [sanitize_panel_id] never fail and
    always return an identifier that their pattern accepts: one to 64
    characters, each a letter, a digit, an underscore, a dot or a hyphen.
    An identifier that the pattern accepts is returned as it is, so
    sanitising twice is sanitising once. [sanitize_doc_id] repairs
    nothing: it returns the identifier given, or the default one, when its
    pattern accepts it, and raises the error of status 400 otherwise. *)
Theorem sanitized_ids_are_valid (raw : option ustr) :
  FORM_ID_RE (sanitize_form_id raw) = true /\
  PANEL_ID_RE (sanitize_panel_id raw) = true /\
  (forall s, raw = Some s -> FORM_ID_RE s = true ->
     sanitize_form_id raw = s /\ sanitize_panel_id raw = s) /\
  sanitize_form_id (Some (sanitize_form_id raw)) = sanitize_form_id raw /\
  sanitize_panel_id (Some (sanitize_panel_id raw)) = sanitize_panel_id raw /\
  match sanitize_doc_id raw with
  | Ok doc_id =>
      DOC_ID_RE doc_id = true /\ doc_id = or_default raw DEFAULT_DOC_ID
  | Raise e =>
      e = HTTP 400 "Invalid doc id" /\
      DOC_ID_RE (or_default raw DEFAULT_DOC_ID) = false
  end.
Proof.
change (sanitize_form_id raw) with (sanitized DEFAULT_FORM_ID raw).
change (sanitize_panel_id raw) with (sanitized DEFAULT_BUTTON_PANEL raw).
change sanitize_form_id with (sanitized DEFAULT_FORM_ID).
change sanitize_panel_id with (sanitized DEFAULT_BUTTON_PANEL).
unfold FORM_ID_RE, PANEL_ID_RE.
destruct (sanitized_valid DEFAULT_FORM_ID raw eq_refl) as [Hf Hf'].
destruct (sanitized_valid DEFAULT_BUTTON_PANEL raw eq_refl) as [Hp Hp'].
split; [exact Hf|]. split; [exact Hp|]. split; [|split; [|split]].
- intros s Hs Hm. split; [now apply Hf'|now apply Hp'].
- now apply (proj2 (sanitized_valid DEFAULT_FORM_ID _ eq_refl)).
- now apply (proj2 (sanitized_valid DEFAULT_BUTTON_PANEL _ eq_refl)).
- unfold sanitize_doc_id.
  destruct (DOC_ID_RE (or_default raw DEFAULT_DOC_ID)) eqn:E; cbn [negb];
    split; first [exact E | reflexivity].
Qed.

(** A path loses its slashes, an identifier of spaces only falls back on
    the default, and [sanitize_doc_id] rejects where the two others
    repair. *)
Example sanitize_form_id_examples :
  sanitize_form_id (Some (u " ../../etc/passwd ")) = u "....etcpasswd" /\
  sanitize_form_id (Some (u "   ")) = u "feedback" /\
  sanitize_form_id None = u "feedback" /\
  sanitize_panel_id (Some (u "wall#2")) = u "wall2" /\
  sanitize_doc_id (Some (u "a/b")) = Raise (HTTP 400 "Invalid doc id") /\
  sanitize_doc_id None = Ok (u "doc1").
Proof. repeat split. Qed.
End IdsSpec.
